(** * Sorted collection rebuilder of KVDK: a shallow embedding

    The development follows [engine/sorted_collection/rebuilder.cpp].  The
    rebuilder is stateful code over persistent memory, an in-memory node
    heap, a hash index and its own bookkeeping; it is embedded as a state
    and failure monad over an explicit machine state.  Collaborators whose
    sources live elsewhere in the engine (allocator, linkage utilities,
    skiplist primitives, hash table) are either fields of the interface
    [Engine] or definitions marked "Modelled from the spec". *)

From stdpp Require Import base numbers option list gmap strings sorting.

Set Default Proof Using "Type".
Open Scope N_scope.

(** ** Basic types *)

Definition PMemOffsetType := N.
Definition CollectionIDType := N.
Definition TimeStampType := N.
(** A [DLRecord*] is the offset of the record; a [SkiplistNode*] or
    [Skiplist*] is an address in the in-memory heap, with [nullptr] at 0. *)
Definition NodePtr := N.
Definition nullptr : NodePtr := 0.

Module Status.
Inductive t := Ok | NotFound | Abort | Other (code : N).
#[global] Instance eq_dec : EqDecision t.
Proof. solve_decision. Defined.
End Status.

Module RecordType.
Inductive t := Empty | SortedRecord | SortedElem | Other (tag : N).
#[global] Instance eq_dec : EqDecision t.
Proof. solve_decision. Defined.
End RecordType.

Module RecordStatus.
Inductive t := Normal | Outdated.
#[global] Instance eq_dec : EqDecision t.
Proof. solve_decision. Defined.
End RecordStatus.

Module PointerType.
Inductive t := DLRecord | SkiplistNode | Skiplist | Other (tag : N).
#[global] Instance eq_dec : EqDecision t.
Proof. solve_decision. Defined.
End PointerType.

(** The persistent record.  [checksum_ok] is what [Validate()] reports and
    [destroyed] is the mark left by [Destroy()]. *)
Record DLRecord := mkDLRecord {
  record_type : RecordType.t;
  record_status : RecordStatus.t;
  Key : string;
  Value : string;
  timestamp : TimeStampType;
  prev : PMemOffsetType;
  next : PMemOffsetType;
  old_version : PMemOffsetType;
  checksum_ok : bool;
  record_size : N;
  destroyed : bool
}.

#[global] Instance DLRecord_eq_dec : EqDecision DLRecord.
Proof. solve_decision. Defined.

Definition GetRecordType (r : DLRecord) := record_type r.
Definition GetRecordStatus (r : DLRecord) := record_status r.
Definition GetTimestamp (r : DLRecord) := timestamp r.
Definition GetRecordSize (r : DLRecord) := record_size r.
Definition Validate (r : DLRecord) := checksum_ok r.
Definition equal_string_view (a b : string) : bool := bool_decide (a = b).

Definition with_prev (v : PMemOffsetType) (r : DLRecord) : DLRecord :=
  mkDLRecord (record_type r) (record_status r) (Key r) (Value r) (timestamp r)
             v (next r) (old_version r) (checksum_ok r) (record_size r) (destroyed r).
Definition with_next (v : PMemOffsetType) (r : DLRecord) : DLRecord :=
  mkDLRecord (record_type r) (record_status r) (Key r) (Value r) (timestamp r)
             (prev r) v (old_version r) (checksum_ok r) (record_size r) (destroyed r).
Definition with_old_version (v : PMemOffsetType) (r : DLRecord) : DLRecord :=
  mkDLRecord (record_type r) (record_status r) (Key r) (Value r) (timestamp r)
             (prev r) (next r) v (checksum_ok r) (record_size r) (destroyed r).
Definition with_destroyed (r : DLRecord) : DLRecord :=
  mkDLRecord (record_type r) (record_status r) (Key r) (Value r) (timestamp r)
             (prev r) (next r) (old_version r) (checksum_ok r) (record_size r) true.

Record SortedCollectionConfigs := mkConfigs {
  comparator_name : string;
  index_with_hashtable : bool
}.

Record SpaceEntry := mkSpaceEntry { space_offset : PMemOffsetType; space_size : N }.

#[global] Instance SpaceEntry_eq_dec : EqDecision SpaceEntry.
Proof. solve_decision. Defined.

(** In-memory skiplist node: the tower of next pointers is indexed from
    level 1; a level never written reads as [nullptr]. *)
Record SkiplistNode := mkNode {
  record : PMemOffsetType;
  node_height : nat;
  node_next : gmap nat NodePtr
}.

Definition Height (n : SkiplistNode) := node_height n.
Definition RelaxedNext (n : SkiplistNode) (level : nat) : NodePtr :=
  default nullptr (node_next n !! level).

Record Skiplist := mkSkiplist {
  header_ : NodePtr;
  name_ : string;
  id_ : CollectionIDType;
  comparator_ : string;
  size_ : N;
  index_with_hashtable_ : bool
}.

Record HashEntry := mkHashEntry {
  entry_type : RecordType.t;
  entry_status : RecordStatus.t;
  index_ptr : N;
  index_type : PointerType.t
}.

#[global] Instance HashEntry_eq_dec : EqDecision HashEntry.
Proof. solve_decision. Defined.

Record RecoverySegment := mkSegment { visited : bool; start_node : NodePtr }.

Record ThreadCache := mkThreadCache {
  visited_skiplists : gmap CollectionIDType N;
  unlinked_records : list PMemOffsetType
}.

(** ** The interface to the rest of the engine

    Constants, macros and codecs that [rebuilder.cpp] uses but does not
    define are parameters of the development. *)
Class Engine := {
  kNullPMemOffset : PMemOffsetType;
  kRestoreSkiplistStride : N;
  kMaxHeight : nat;
  (** [kvdk_assert] checks its condition when [KVDK_DEBUG_LEVEL > 0], and
      [assert] when [NDEBUG] is not defined. *)
  KVDK_DEBUG_LEVEL : N;
  NDEBUG : bool;
  (** The codec behind [Skiplist::FetchID]: the collection ID embedded in
      the payload of a header or in the internal key of an element, read
      from the record type, the key and the value. *)
  ExtractID : RecordType.t → string → string → CollectionIDType;
  (** [Skiplist::DecodeSortedCollectionValue] on a header payload. *)
  DecodeSortedCollectionValue :
    string → Status.t * CollectionIDType * SortedCollectionConfigs;
  (** [DLRecord::HasExpired], which reads the clock. *)
  HasExpired : DLRecord → bool;
  (** [Skiplist::randomHeight] at its n-th draw; 0 builds no node. *)
  randomHeight : N → nat;
  (** [HashTable::Insert]: the status it reports and the table it leaves. *)
  HashTable_Insert :
    gmap string HashEntry → string → RecordType.t → RecordStatus.t →
    N → PointerType.t → Status.t * gmap string HashEntry
}.

(** ** Machine state *)

Record KVEngine := mkKVEngine {
  pmem : gmap PMemOffsetType DLRecord;
  free_list : list SpaceEntry;
  dram : gmap NodePtr SkiplistNode;
  skiplists : gmap NodePtr Skiplist;
  next_addr : NodePtr;
  rng_draws : N;
  hash_table_ : gmap string HashEntry;
  comparators_ : list string;
  this_thread_id : N
}.

Record Rebuilder := mkRebuilder {
  checkpoint_ts : TimeStampType;
  segment_based_rebuild_ : bool;
  num_rebuild_threads_ : N;
  next_tid_ : N;
  linked_headers_ : list PMemOffsetType;
  rebuilder_thread_cache_ : list ThreadCache;
  recovery_segments_ : gmap PMemOffsetType RecoverySegment;
  rebuild_skiplits_ : gmap CollectionIDType NodePtr;
  invalid_skiplists_ : gmap CollectionIDType NodePtr;
  max_recovered_id_ : CollectionIDType
}.

Record State := mkState { kv_engine_ : KVEngine; rb : Rebuilder }.

Definition set_pmem (f : gmap PMemOffsetType DLRecord → gmap PMemOffsetType DLRecord)
    (e : KVEngine) : KVEngine :=
  mkKVEngine (f (pmem e)) (free_list e) (dram e) (skiplists e) (next_addr e)
             (rng_draws e) (hash_table_ e) (comparators_ e) (this_thread_id e).
Definition set_free_list (f : list SpaceEntry → list SpaceEntry) (e : KVEngine) : KVEngine :=
  mkKVEngine (pmem e) (f (free_list e)) (dram e) (skiplists e) (next_addr e)
             (rng_draws e) (hash_table_ e) (comparators_ e) (this_thread_id e).
Definition set_dram (f : gmap NodePtr SkiplistNode → gmap NodePtr SkiplistNode)
    (e : KVEngine) : KVEngine :=
  mkKVEngine (pmem e) (free_list e) (f (dram e)) (skiplists e) (next_addr e)
             (rng_draws e) (hash_table_ e) (comparators_ e) (this_thread_id e).
Definition set_skiplists (f : gmap NodePtr Skiplist → gmap NodePtr Skiplist)
    (e : KVEngine) : KVEngine :=
  mkKVEngine (pmem e) (free_list e) (dram e) (f (skiplists e)) (next_addr e)
             (rng_draws e) (hash_table_ e) (comparators_ e) (this_thread_id e).
Definition set_next_addr (f : NodePtr → NodePtr) (e : KVEngine) : KVEngine :=
  mkKVEngine (pmem e) (free_list e) (dram e) (skiplists e) (f (next_addr e))
             (rng_draws e) (hash_table_ e) (comparators_ e) (this_thread_id e).
Definition set_rng_draws (f : N → N) (e : KVEngine) : KVEngine :=
  mkKVEngine (pmem e) (free_list e) (dram e) (skiplists e) (next_addr e)
             (f (rng_draws e)) (hash_table_ e) (comparators_ e) (this_thread_id e).
Definition set_hash_table (f : gmap string HashEntry → gmap string HashEntry)
    (e : KVEngine) : KVEngine :=
  mkKVEngine (pmem e) (free_list e) (dram e) (skiplists e) (next_addr e)
             (rng_draws e) (f (hash_table_ e)) (comparators_ e) (this_thread_id e).
Definition set_this_thread_id (f : N → N) (e : KVEngine) : KVEngine :=
  mkKVEngine (pmem e) (free_list e) (dram e) (skiplists e) (next_addr e)
             (rng_draws e) (hash_table_ e) (comparators_ e) (f (this_thread_id e)).

Definition set_next_tid (f : N → N) (r : Rebuilder) : Rebuilder :=
  mkRebuilder (checkpoint_ts r) (segment_based_rebuild_ r) (num_rebuild_threads_ r)
              (f (next_tid_ r)) (linked_headers_ r) (rebuilder_thread_cache_ r)
              (recovery_segments_ r) (rebuild_skiplits_ r) (invalid_skiplists_ r)
              (max_recovered_id_ r).
Definition set_linked_headers (f : list PMemOffsetType → list PMemOffsetType)
    (r : Rebuilder) : Rebuilder :=
  mkRebuilder (checkpoint_ts r) (segment_based_rebuild_ r) (num_rebuild_threads_ r)
              (next_tid_ r) (f (linked_headers_ r)) (rebuilder_thread_cache_ r)
              (recovery_segments_ r) (rebuild_skiplits_ r) (invalid_skiplists_ r)
              (max_recovered_id_ r).
Definition set_thread_cache (f : list ThreadCache → list ThreadCache)
    (r : Rebuilder) : Rebuilder :=
  mkRebuilder (checkpoint_ts r) (segment_based_rebuild_ r) (num_rebuild_threads_ r)
              (next_tid_ r) (linked_headers_ r) (f (rebuilder_thread_cache_ r))
              (recovery_segments_ r) (rebuild_skiplits_ r) (invalid_skiplists_ r)
              (max_recovered_id_ r).
Definition set_recovery_segments
    (f : gmap PMemOffsetType RecoverySegment → gmap PMemOffsetType RecoverySegment)
    (r : Rebuilder) : Rebuilder :=
  mkRebuilder (checkpoint_ts r) (segment_based_rebuild_ r) (num_rebuild_threads_ r)
              (next_tid_ r) (linked_headers_ r) (rebuilder_thread_cache_ r)
              (f (recovery_segments_ r)) (rebuild_skiplits_ r) (invalid_skiplists_ r)
              (max_recovered_id_ r).
Definition set_rebuild_skiplits
    (f : gmap CollectionIDType NodePtr → gmap CollectionIDType NodePtr)
    (r : Rebuilder) : Rebuilder :=
  mkRebuilder (checkpoint_ts r) (segment_based_rebuild_ r) (num_rebuild_threads_ r)
              (next_tid_ r) (linked_headers_ r) (rebuilder_thread_cache_ r)
              (recovery_segments_ r) (f (rebuild_skiplits_ r)) (invalid_skiplists_ r)
              (max_recovered_id_ r).
Definition set_invalid_skiplists
    (f : gmap CollectionIDType NodePtr → gmap CollectionIDType NodePtr)
    (r : Rebuilder) : Rebuilder :=
  mkRebuilder (checkpoint_ts r) (segment_based_rebuild_ r) (num_rebuild_threads_ r)
              (next_tid_ r) (linked_headers_ r) (rebuilder_thread_cache_ r)
              (recovery_segments_ r) (rebuild_skiplits_ r) (f (invalid_skiplists_ r))
              (max_recovered_id_ r).
Definition set_max_recovered_id (f : CollectionIDType → CollectionIDType)
    (r : Rebuilder) : Rebuilder :=
  mkRebuilder (checkpoint_ts r) (segment_based_rebuild_ r) (num_rebuild_threads_ r)
              (next_tid_ r) (linked_headers_ r) (rebuilder_thread_cache_ r)
              (recovery_segments_ r) (rebuild_skiplits_ r) (invalid_skiplists_ r)
              (f (max_recovered_id_ r)).

(** The constructor: the number of rebuild threads is capped by the
    [max_access_threads] of the engine, and every thread has its cache. *)
Definition SortedCollectionRebuilder_new (max_access_threads : N)
    (segment_based_rebuild : bool) (num_rebuild_threads : N)
    (checkpoint : TimeStampType) : Rebuilder :=
  let threads := N.min num_rebuild_threads max_access_threads in
  mkRebuilder checkpoint segment_based_rebuild threads 0 []
              (replicate (N.to_nat threads) (mkThreadCache ∅ [])) ∅ ∅ ∅ 0.

Definition on_engine (f : KVEngine → KVEngine) (st : State) : State :=
  mkState (f (kv_engine_ st)) (rb st).
Definition on_rebuilder (f : Rebuilder → Rebuilder) (st : State) : State :=
  mkState (kv_engine_ st) (f (rb st)).

(** ** The state and failure monad

    A computation either finishes with a value and a state, or stops: on a
    failed assertion, on an access outside the mapped memory, on a division
    by zero, or because the fuel given to a loop of the source ran out. *)

Inductive Failure :=
  AssertionFailed | InvalidAccess | DivisionByZero | UninitializedRead | OutOfFuel.

Inductive Result (A : Type) :=
| Done (a : A) (st : State)
| Crash (why : Failure).
Arguments Done {A} a st.
Arguments Crash {A} why.

Definition M (A : Type) : Type := State → Result A.

Definition ret {A} (a : A) : M A := λ st, Done a st.
Definition bind {A B} (m : M A) (f : A → M B) : M B := λ st,
  match m st with
  | Done a st' => f a st'
  | Crash e => Crash e
  end.

Declare Scope rebuilder_scope.
Delimit Scope rebuilder_scope with M.
Notation "x ← y ; z" := (bind y (λ x, z))
  (at level 20, y at level 100, z at level 200, only parsing) : rebuilder_scope.
Notation "' x ← y ; z" := (bind y (λ x, z))
  (at level 20, x pattern, y at level 100, z at level 200, only parsing) : rebuilder_scope.
Notation "x ;; z" := (bind x (λ _, z))
  (at level 100, z at level 200, only parsing, right associativity) : rebuilder_scope.
Open Scope rebuilder_scope.

Definition gets {A} (f : State → A) : M A := λ st, Done (f st) st.
Definition modify (f : State → State) : M unit := λ st, Done () (f st).
Definition crash {A} (why : Failure) : M A := λ _, Crash why.

Definition returned {A} (r : Result A) : option A :=
  match r with Done a _ => Some a | Crash _ => None end.
Definition final {A} (r : Result A) : option State :=
  match r with Done _ st => Some st | Crash _ => None end.

Section Model.
Context `{Engine}.

Definition FetchID (r : DLRecord) : CollectionIDType :=
  ExtractID (GetRecordType r) (Key r) (Value r).

Definition andM (a b : M bool) : M bool :=
  x ← a; if x then b else ret false.
Definition orM (a b : M bool) : M bool :=
  x ← a; if x then ret true else b.

(** [kvdk_assert(cond, msg)] and [assert(cond)]: the condition is evaluated
    only when the check is compiled in. *)
Definition kvdk_assert (cond : M bool) : M unit :=
  if 0 <? KVDK_DEBUG_LEVEL
  then b ← cond; if b then ret () else crash AssertionFailed
  else ret ().
Definition assert (cond : M bool) : M unit :=
  if NDEBUG then ret ()
  else b ← cond; if b then ret () else crash AssertionFailed.

(** *** Persistent memory *)

(** Dereference of a record pointer. *)
Definition load (p : PMemOffsetType) : M DLRecord := λ st,
  if decide (p = kNullPMemOffset) then Crash InvalidAccess
  else match pmem (kv_engine_ st) !! p with
       | Some r => Done r st
       | None => Crash InvalidAccess
       end.
Definition store (p : PMemOffsetType) (r : DLRecord) : M unit :=
  modify (on_engine (set_pmem <[p := r]>)).
Definition update_record (p : PMemOffsetType) (f : DLRecord → DLRecord) : M unit :=
  r ← load p; store p (f r).

Definition PersistPrevNT (p v : PMemOffsetType) : M unit := update_record p (with_prev v).
Definition PersistNextNT (p v : PMemOffsetType) : M unit := update_record p (with_next v).
Definition PersistOldVersion (p v : PMemOffsetType) : M unit :=
  update_record p (with_old_version v).

(** Modelled from the spec: [DLRecord::Destroy] is not in [rebuilder.cpp]; the
    record is logically marked dead and stays where it is. *)
Definition Destroy (p : PMemOffsetType) : M unit := update_record p with_destroyed.

(** Modelled from the spec: the allocator's [offset2addr], [addr2offset] and
    their checked forms are not in [rebuilder.cpp].  A pointer is the offset
    itself, the null offset is the null pointer, and the checked forms assert
    that a record is mapped there. *)
Definition offset2addr (o : PMemOffsetType) : PMemOffsetType := o.
Definition addr2offset (p : PMemOffsetType) : PMemOffsetType := p.
Definition offset2addr_checked (o : PMemOffsetType) : M PMemOffsetType :=
  assert (gets (λ st, bool_decide (o ≠ kNullPMemOffset ∧
                                   is_Some (pmem (kv_engine_ st) !! o))));;
  ret o.
Definition addr2offset_checked (p : PMemOffsetType) : M PMemOffsetType :=
  offset2addr_checked p.

(** Modelled from the spec: [PurgeAndFree] purges the record and returns its
    extent to the allocator; [BatchFree] returns a batch of extents. *)
Definition PurgeAndFree (p : PMemOffsetType) : M unit :=
  r ← load p;
  Destroy p;;
  modify (on_engine (set_free_list (λ l, l ++ [mkSpaceEntry (addr2offset p) (GetRecordSize r)]))).
Definition BatchFree (to_free : list SpaceEntry) : M unit :=
  modify (on_engine (set_free_list (λ l, l ++ to_free))).

(** Modelled from the spec: the recovery utilities are not in
    [rebuilder.cpp].  By invariant I1 a record at [p] has an intact prev
    linkage when its predecessor's [next] is [p], and an intact next linkage
    when its successor's [prev] is [p]. *)
Definition CheckPrevLinkage (p : PMemOffsetType) : M bool :=
  r ← load p; pr ← load (prev r); ret (bool_decide (next pr = addr2offset p)).
Definition CheckNextLinkage (p : PMemOffsetType) : M bool :=
  r ← load p; nr ← load (next r); ret (bool_decide (prev nr = addr2offset p)).
Definition CheckLinkage (p : PMemOffsetType) : M bool :=
  andM (CheckPrevLinkage p) (CheckNextLinkage p).

(** Modelled from the spec: [CheckAndRepairLinkage] repairs at most one torn
    side by consulting the neighbour, and returns true iff both sides point
    back after the repair. *)
Definition CheckAndRepairLinkage (p : PMemOffsetType) : M bool :=
  r ← load p;
  prev_ok ← CheckPrevLinkage p;
  next_ok ← CheckNextLinkage p;
  match prev_ok, next_ok with
  | true, true => ret true
  | true, false => PersistPrevNT (next r) (addr2offset p);; ret true
  | false, true => PersistNextNT (prev r) (addr2offset p);; ret true
  | false, false => ret false
  end.

(** Modelled from the spec: [Skiplist::MatchType] accepts the two record types
    of a sorted collection. *)
Definition Skiplist_MatchType (r : DLRecord) : bool :=
  bool_decide (GetRecordType r = RecordType.SortedRecord) ||
  bool_decide (GetRecordType r = RecordType.SortedElem).

(** Modelled from the spec: [Skiplist::Remove] and [Skiplist::Replace] are not
    in [rebuilder.cpp].  Remove takes the record out of the on-media list;
    Replace swaps the new record into the place of the old one.  Both succeed
    when the prev linkage of the record is intact, which is what [Rollback]
    checks before it asserts their success. *)
Definition Skiplist_Remove (p : PMemOffsetType) : M bool :=
  r ← load p;
  on_list ← CheckPrevLinkage p;
  if on_list then
    PersistPrevNT (next r) (prev r);;
    PersistNextNT (prev r) (next r);;
    ret true
  else ret false.

Definition Skiplist_Replace (old_record new_record : PMemOffsetType) : M bool :=
  r ← load old_record;
  on_list ← CheckPrevLinkage old_record;
  if on_list then
    (if decide (prev r = addr2offset old_record) then
       PersistPrevNT new_record (addr2offset new_record);;
       PersistNextNT new_record (addr2offset new_record)
     else
       PersistPrevNT new_record (prev r);;
       PersistNextNT new_record (next r);;
       PersistNextNT (prev r) (addr2offset new_record);;
       PersistPrevNT (next r) (addr2offset new_record));;
    ret true
  else ret false.

(** *** In-memory nodes and skiplist objects *)

Definition load_node (n : NodePtr) : M SkiplistNode := λ st,
  if decide (n = nullptr) then Crash InvalidAccess
  else match dram (kv_engine_ st) !! n with
       | Some node => Done node st
       | None => Crash InvalidAccess
       end.
Definition RelaxedSetNext (n : NodePtr) (level : nat) (target : NodePtr) : M unit :=
  node ← load_node n;
  modify (on_engine (set_dram
    <[n := mkNode (record node) (node_height node) (<[level := target]> (node_next node))]>)).

Definition alloc_addr : M NodePtr :=
  a ← gets (λ st, N.succ (next_addr (kv_engine_ st)));
  modify (on_engine (set_next_addr (λ _, a)));;
  ret a.

(** Modelled from the spec: [SkiplistNode::NewNode] and
    [Skiplist::NewNodeBuild].  The factory draws a height; it returns null
    when the draw builds no node. *)
Definition SkiplistNode_NewNode (pmem_record : PMemOffsetType) (height : nat) : M NodePtr :=
  a ← alloc_addr;
  modify (on_engine (set_dram <[a := mkNode pmem_record height ∅]>));;
  ret a.
Definition Skiplist_NewNodeBuild (pmem_record : PMemOffsetType) : M NodePtr :=
  n ← gets (λ st, rng_draws (kv_engine_ st));
  modify (on_engine (set_rng_draws N.succ));;
  let height := Nat.min (randomHeight n) kMaxHeight in
  if decide (height = 0%nat) then ret nullptr
  else SkiplistNode_NewNode pmem_record height.

(** Modelled from the spec: the [Skiplist] constructor builds the header node
    of full height over the header record. *)
Definition Skiplist_new (header_record : PMemOffsetType) (name : string)
    (id : CollectionIDType) (comparator : string) (with_hash : bool) : M NodePtr :=
  h ← SkiplistNode_NewNode header_record kMaxHeight;
  a ← alloc_addr;
  modify (on_engine (set_skiplists <[a := mkSkiplist h name id comparator 0 with_hash]>));;
  ret a.

Definition load_skiplist (s : NodePtr) : M Skiplist := λ st,
  if decide (s = nullptr) then Crash InvalidAccess
  else match skiplists (kv_engine_ st) !! s with
       | Some sl => Done sl st
       | None => Crash InvalidAccess
       end.
Definition HeaderNode (s : NodePtr) : M NodePtr := sl ← load_skiplist s; ret (header_ sl).
Definition HeaderRecord (s : NodePtr) : M PMemOffsetType :=
  h ← HeaderNode s; node ← load_node h; ret (record node).
Definition IndexWithHashtable (s : NodePtr) : M bool :=
  sl ← load_skiplist s; ret (index_with_hashtable_ sl).
Definition Name (s : NodePtr) : M string := sl ← load_skiplist s; ret (name_ sl).
Definition UpdateSize (s : NodePtr) (delta : N) : M unit :=
  sl ← load_skiplist s;
  modify (on_engine (set_skiplists
    <[s := mkSkiplist (header_ sl) (name_ sl) (id_ sl) (comparator_ sl)
                      (size_ sl + delta) (index_with_hashtable_ sl)]>)).

(** Modelled from the spec: [GetComparator] looks the name up in the registry. *)
Definition GetComparator (name : string) : M (option string) :=
  gets (λ st, if decide (name ∈ comparators_ (kv_engine_ st)) then Some name else None).

(** *** Thread identity and the per-worker cache *)

Definition ThreadID : M N := gets (λ st, this_thread_id (kv_engine_ st)).

(** [rebuilder_thread_cache_[ThreadManager::ThreadID() % rebuilder_thread_cache_.size()]] *)
Definition thread_cache_index : M nat := λ st,
  let n := length (rebuilder_thread_cache_ (rb st)) in
  if decide (n = 0%nat) then Crash DivisionByZero
  else Done (N.to_nat (this_thread_id (kv_engine_ st)) mod n)%nat st.

(** Modelled from the spec: [addUnlinkedRecord] and [recoverToCheckpoint] are
    declared in the header of the rebuilder.  The record is appended to the
    unlinked list of the calling worker; recovery targets a checkpoint when
    the checkpoint timestamp is greater than zero. *)
Definition addUnlinkedRecord (pmem_record : PMemOffsetType) : M unit :=
  i ← thread_cache_index;
  modify (on_rebuilder (set_thread_cache
    (alter (λ c, mkThreadCache (visited_skiplists c) (unlinked_records c ++ [pmem_record])) i))).
Definition CheckpointTS : M TimeStampType := gets (λ st, checkpoint_ts (rb st)).
Definition recoverToCheckpoint : M bool := ts ← CheckpointTS; ret (0 <? ts).


(** *** [SortedCollectionRebuilder::insertHashIndex] *)

Definition insertHashIndex (key : string) (index_ptr : N)
    (index_type : PointerType.t) : M Status.t :=
  '(record_type, record_status) ←
    match index_type with
    | PointerType.DLRecord =>
        r ← load index_ptr;
        kvdk_assert (ret (bool_decide (GetRecordType r = RecordType.SortedElem)));;
        ret (RecordType.SortedElem, GetRecordStatus r)
    | PointerType.SkiplistNode =>
        node ← load_node index_ptr;
        r ← load (record node);
        kvdk_assert (ret (bool_decide (GetRecordType r = RecordType.SortedElem)));;
        ret (RecordType.SortedElem, GetRecordStatus r)
    | PointerType.Skiplist =>
        hr ← HeaderRecord index_ptr;
        r ← load hr;
        kvdk_assert (ret (bool_decide (GetRecordType r = RecordType.SortedRecord)));;
        ret (RecordType.SortedRecord, GetRecordStatus r)
    | PointerType.Other _ =>
        kvdk_assert (ret false);;
        (* [record_status] is read without having been written *)
        crash UninitializedRead
    end;
  table ← gets (λ st, hash_table_ (kv_engine_ st));
  let lookup_result :=
    HashTable_Insert table key record_type record_status index_ptr index_type in
  modify (on_engine (set_hash_table (λ _, lookup_result.2)));;
  match lookup_result.1 with
  | Status.NotFound => ret Status.Ok
  | Status.Ok => ret Status.Abort
  | s => ret s
  end.

(** *** [SortedCollectionRebuilder::findCheckpointVersion]

    The while loop, with [curr] as its variable; [fuel] bounds the number of
    tests of the loop condition. *)
Fixpoint findCheckpointVersion_walk (fuel : nat) (pmem_record : PMemOffsetType)
    (id : CollectionIDType) (curr : PMemOffsetType) : M PMemOffsetType :=
  match fuel with
  | O => crash OutOfFuel
  | S fuel =>
    continue ← andM (ret (bool_decide (curr ≠ kNullPMemOffset)))
                    (r ← load curr; ts ← CheckpointTS; ret (ts <? GetTimestamp r));
    if continue then
      r ← load curr;
      let curr := offset2addr (old_version r) in
      kvdk_assert (orM (ret (bool_decide (curr = kNullPMemOffset)))
                       (r' ← load curr; ret (Validate r')));;
      kvdk_assert (orM (ret (bool_decide (curr = kNullPMemOffset)))
                       (r' ← load curr; p ← load pmem_record;
                        ret (equal_string_view (Key r') (Key p))));;
      other ← andM (ret (bool_decide (curr ≠ kNullPMemOffset)))
                   (r' ← load curr; ret (bool_decide (FetchID r' ≠ id)));
      findCheckpointVersion_walk fuel pmem_record id
        (if other then kNullPMemOffset else curr)
    else ret curr
  end.

Definition findCheckpointVersion (fuel : nat) (pmem_record : PMemOffsetType)
    : M PMemOffsetType :=
  kvdk_assert (ret (bool_decide (pmem_record ≠ kNullPMemOffset)));;
  to_checkpoint ← recoverToCheckpoint;
  if negb to_checkpoint then ret pmem_record
  else
    r ← load pmem_record;
    let id := FetchID r in
    findCheckpointVersion_walk fuel pmem_record id pmem_record.

(** *** Candidate intake *)

(** [recovery_segments_.insert] keeps an entry already present. *)
Definition addRecoverySegment (start : NodePtr) : M unit :=
  segment_based ← gets (λ st, segment_based_rebuild_ (rb st));
  if segment_based then
    node ← load_node start;
    modify (on_rebuilder (set_recovery_segments (λ m,
      match m !! record node with
      | Some _ => m
      | None => <[record node := mkSegment false start]> m
      end)))
  else ret ().

Definition AddHeader (header_record : PMemOffsetType) : M Status.t :=
  assert (r ← load header_record;
          ret (bool_decide (GetRecordType r = RecordType.SortedRecord)));;
  linked_record ← CheckAndRepairLinkage header_record;
  if negb linked_record then
    to_checkpoint ← recoverToCheckpoint;
    (if negb to_checkpoint then PurgeAndFree header_record
     else addUnlinkedRecord header_record);;
    ret Status.Ok
  else
    modify (on_rebuilder (set_linked_headers (λ l, l ++ [header_record])));;
    ret Status.Ok.

(** [++rebuilder_thread_cache_[...].visited_skiplists[FetchID(record)] %
    kRestoreSkiplistStride == 0] *)
Definition visit_skiplist (record : PMemOffsetType) : M bool :=
  i ← thread_cache_index;
  r ← load record;
  let id := FetchID r in
  cache ← gets (λ st, rebuilder_thread_cache_ (rb st));
  let count := default 0 (c ← cache !! i; visited_skiplists c !! id)%stdpp + 1 in
  modify (on_rebuilder (set_thread_cache
    (alter (λ c, mkThreadCache (<[id := count]> (visited_skiplists c)) (unlinked_records c)) i)));;
  if decide (kRestoreSkiplistStride = 0) then crash DivisionByZero
  else ret (bool_decide (count mod kRestoreSkiplistStride = 0)).

(** [while (start_node == nullptr) start_node = Skiplist::NewNodeBuild(record);] *)
Fixpoint build_start_node (fuel : nat) (record : PMemOffsetType) : M NodePtr :=
  match fuel with
  | O => crash OutOfFuel
  | S fuel =>
    start ← Skiplist_NewNodeBuild record;
    if decide (start = nullptr) then build_start_node fuel record else ret start
  end.

Definition AddElement (fuel : nat) (record : PMemOffsetType) : M Status.t :=
  kvdk_assert (r ← load record;
               ret (bool_decide (GetRecordType r = RecordType.SortedElem)));;
  linked_record ← CheckAndRepairLinkage record;
  (if negb linked_record then
     to_checkpoint ← recoverToCheckpoint;
     if negb to_checkpoint then PurgeAndFree record
     else addUnlinkedRecord record
   else
     segment_start ←
       andM (gets (λ st, segment_based_rebuild_ (rb st)))
      (andM (visit_skiplist record)
      (andM (v ← findCheckpointVersion fuel record; ret (bool_decide (v = record)))
            (r ← load record;
             ret (bool_decide (GetRecordType r = RecordType.SortedElem)))));
     if segment_start then
       start ← build_start_node fuel record;
       addRecoverySegment start
     else ret ());;
  ret Status.Ok.

(** *** [SortedCollectionRebuilder::Rollback] *)

Record SortedLogEntry := mkSortedLogEntry { offset : PMemOffsetType }.

Definition Rollback (log : SortedLogEntry) : M Status.t :=
  elem ← offset2addr_checked (offset log);
  intact ← andM (r ← load elem; ret (Validate r)) (CheckPrevLinkage elem);
  (if intact then
     r ← load elem;
     if decide (old_version r ≠ kNullPMemOffset) then
       old ← offset2addr_checked (old_version r);
       success ← Skiplist_Replace elem old;
       kvdk_assert (ret success)
     else
       success ← Skiplist_Remove elem;
       kvdk_assert (ret success)
   else ret ());;
  Destroy elem;;
  ret Status.Ok.


(** *** Header resolution: [SortedCollectionRebuilder::initRebuildLists] *)

(** The comparison lambda [cmp] of the source. *)
Definition cmp (header1 header2 : DLRecord) : bool :=
  let id1 := FetchID header1 in
  let id2 := FetchID header2 in
  if decide (id1 = id2) then GetTimestamp header1 <? GetTimestamp header2
  else id1 <? id2.

Definition header_le (a b : PMemOffsetType * DLRecord) : Prop := cmp b.2 a.2 = false.
#[global] Instance header_le_dec : RelDecision header_le.
Proof. intros a b. unfold header_le. apply _. Defined.

Fixpoint load_all (ps : list PMemOffsetType) : M (list (PMemOffsetType * DLRecord)) :=
  match ps with
  | [] => ret []
  | p :: ps => r ← load p; rs ← load_all ps; ret ((p, r) :: rs)
  end.

(** [std::sort(linked_headers_.begin(), linked_headers_.end(), cmp)] *)
Definition sort_linked_headers : M unit :=
  hs ← gets (λ st, linked_headers_ (rb st));
  rs ← load_all hs;
  modify (on_rebuilder (set_linked_headers (λ _, (merge_sort header_le rs).*1))).

(** The branch of the loop taken by a header that has a newer version. *)
Definition break_outdated_header (header_record newer : PMemOffsetType) : M unit :=
  kvdk_assert (r ← load header_record;
               ret (bool_decide (prev r = next r) &&
                    bool_decide (prev r = addr2offset header_record)));;
  let newer_offset := addr2offset newer in
  PersistPrevNT header_record newer_offset;;
  kvdk_assert (andM (b ← CheckPrevLinkage header_record; ret (negb b))
                    (b ← CheckNextLinkage header_record; ret (negb b)));;
  addUnlinkedRecord header_record.

(** The rest of the loop body; [Some s] stands for [return s], [None] for
    the end of the iteration. *)
Definition resolve_header (fuel : nat) (header_record : PMemOffsetType)
    : M (option Status.t) :=
  r ← load header_record;
  let collection_name := Key r in
  let '(s, id, s_configs) := DecodeSortedCollectionValue (Value r) in
  if decide (s ≠ Status.Ok) then ret (Some s)
  else
    comparator ← GetComparator (comparator_name s_configs);
    match comparator with
    | None => ret (Some Status.Abort)
    | Some comparator =>
      modify (on_rebuilder (set_max_recovered_id (λ m, N.max m id)));;
      valid_version_record ← findCheckpointVersion fuel header_record;
      no_version ← orM (ret (bool_decide (valid_version_record = kNullPMemOffset)))
                       (v ← load valid_version_record; ret (bool_decide (FetchID v ≠ id)));
      if no_version then
        skiplist ← Skiplist_new header_record collection_name id comparator false;
        modify (on_rebuilder (set_invalid_skiplists <[id := skiplist]>));;
        ret None
      else
        (if decide (valid_version_record ≠ header_record) then
           success ← Skiplist_Replace header_record valid_version_record;
           kvdk_assert (ret success);;
           addUnlinkedRecord header_record
         else ret ());;
        v ← load valid_version_record;
        let outdated :=
          bool_decide (GetRecordStatus v = RecordStatus.Outdated) || HasExpired v in
        if outdated then
          skiplist ← Skiplist_new valid_version_record collection_name id comparator false;
          modify (on_rebuilder (set_invalid_skiplists <[id := skiplist]>));;
          ret None
        else
          skiplist ← Skiplist_new valid_version_record collection_name id comparator
                                  (index_with_hashtable s_configs);
          modify (on_rebuilder (set_rebuild_skiplits <[id := skiplist]>));;
          segment_based ← gets (λ st, segment_based_rebuild_ (rb st));
          (if segment_based then h ← HeaderNode skiplist; addRecoverySegment h
           else ret ());;
          PersistOldVersion valid_version_record kNullPMemOffset;;
          name ← Name skiplist;
          s ← insertHashIndex name skiplist PointerType.Skiplist;
          if decide (s ≠ Status.Ok) then ret (Some s) else ret None
    end.

(** One iteration of the for loop at [header_record = linked_headers_[i]],
    with [next_header = linked_headers_[i + 1]] when [i + 1] is in range. *)
Definition initRebuildLists_body (fuel : nat) (header_record : PMemOffsetType)
    (next_header : option PMemOffsetType) : M (option Status.t) :=
  match next_header with
  | Some newer =>
    r ← load header_record;
    r' ← load newer;
    if decide (FetchID r = FetchID r') then
      break_outdated_header header_record newer;;
      ret None
    else resolve_header fuel header_record
  | None => resolve_header fuel header_record
  end.

Fixpoint initRebuildLists_loop (fuel : nat) (headers : list PMemOffsetType)
    : M Status.t :=
  match headers with
  | [] => ret Status.Ok
  | header_record :: rest =>
    r ← initRebuildLists_body fuel header_record (head rest);
    match r with
    | Some s => ret s
    | None => initRebuildLists_loop fuel rest
    end
  end.

Definition initRebuildLists (fuel : nat) : M Status.t :=
  sort_linked_headers;;
  headers ← gets (λ st, linked_headers_ (rb st));
  s ← initRebuildLists_loop fuel headers;
  if decide (s ≠ Status.Ok) then ret s
  else
    modify (on_rebuilder (set_linked_headers (λ _, [])));;
    ret Status.Ok.


(** *** Index rebuild *)

(** [this_thread.id = next_tid_.fetch_add(1)] at the entry of a worker. *)
Definition assign_thread_id : M unit :=
  tid ← gets (λ st, next_tid_ (rb st));
  modify (on_rebuilder (set_next_tid N.succ));;
  modify (on_engine (set_this_thread_id (λ _, tid))).

(** [std::async(task)]: the task runs on a thread of its own, so the
    identity it assigns to itself does not outlive it. *)
Definition async {A} (task : M A) : M A :=
  caller ← ThreadID;
  a ← task;
  modify (on_engine (set_this_thread_id (λ _, caller)));;
  ret a.

(** [Splice::prevs], an array indexed by level. *)
Definition prevs_at (prevs : gmap nat NodePtr) (level : nat) : NodePtr :=
  default nullptr (prevs !! level).

(** [for (i = 1; i <= height; i++) { splice.prevs[i]->RelaxedSetNext(i, dram_node);
    dram_node->RelaxedSetNext(i, nullptr); splice.prevs[i] = dram_node; }] *)
Fixpoint splice_node (levels : list nat) (dram_node : NodePtr)
    (prevs : gmap nat NodePtr) : M (gmap nat NodePtr) :=
  match levels with
  | [] => ret prevs
  | i :: levels =>
    RelaxedSetNext (prevs_at prevs i) i dram_node;;
    RelaxedSetNext dram_node i nullptr;;
    splice_node levels dram_node (<[i := dram_node]> prevs)
  end.

(** The while loop of [rebuildSkiplistIndex]; the result carries the status
    and [num_elems]. *)
Fixpoint rebuildSkiplistIndex_walk (fuel : nat) (skiplist : NodePtr)
    (prevs : gmap nat NodePtr) (prev_pmem_record : PMemOffsetType)
    (num_elems : N) : M (Status.t * N) :=
  match fuel with
  | O => crash OutOfFuel
  | S fuel =>
    p ← load prev_pmem_record;
    let next_offset := next p in
    next_record ← offset2addr_checked next_offset;
    header ← HeaderRecord skiplist;
    if decide (next_record = header) then ret (Status.Ok, num_elems)
    else
      n ← load next_record;
      let internal_key := Key n in
      valid_version_record ← findCheckpointVersion (S fuel) next_record;
      invalid ← orM (ret (bool_decide (valid_version_record = kNullPMemOffset)))
                    (v ← load valid_version_record;
                     ret (bool_decide (GetRecordStatus v = RecordStatus.Outdated)));
      if invalid then
        success ← Skiplist_Remove next_record;
        kvdk_assert (ret success);;
        addUnlinkedRecord next_record;;
        rebuildSkiplistIndex_walk fuel skiplist prevs prev_pmem_record num_elems
      else
        (if decide (valid_version_record ≠ next_record) then
           success ← Skiplist_Replace next_record valid_version_record;
           kvdk_assert (ret success);;
           addUnlinkedRecord next_record
         else ret ());;
        let num_elems := num_elems + 1 in
        assert (ret (bool_decide (valid_version_record ≠ kNullPMemOffset)));;
        dram_node ← Skiplist_NewNodeBuild valid_version_record;
        prevs ← (if decide (dram_node ≠ nullptr) then
                   node ← load_node dram_node;
                   splice_node (seq 1 (Height node)) dram_node prevs
                 else ret prevs);
        with_hash ← IndexWithHashtable skiplist;
        s ← (if with_hash then
               if decide (dram_node ≠ nullptr)
               then insertHashIndex internal_key dram_node PointerType.SkiplistNode
               else insertHashIndex internal_key valid_version_record PointerType.DLRecord
             else ret Status.Ok);
        if decide (s ≠ Status.Ok) then ret (s, num_elems)
        else
          PersistOldVersion valid_version_record kNullPMemOffset;;
          rebuildSkiplistIndex_walk fuel skiplist prevs valid_version_record num_elems
  end.

Definition rebuildSkiplistIndex (fuel : nat) (skiplist : NodePtr) : M Status.t :=
  assign_thread_id;;
  header_node ← HeaderNode skiplist;
  header_record ← HeaderRecord skiplist;
  let prevs : gmap nat NodePtr :=
    list_to_map ((λ i, (i, header_node)) <$> seq 1 kMaxHeight) in
  '(s, num_elems) ← rebuildSkiplistIndex_walk fuel skiplist prevs header_record 0;
  if decide (s ≠ Status.Ok) then ret s
  else UpdateSize skiplist num_elems;; ret Status.Ok.

(** The while loop of [rebuildSegmentIndex]. *)
Fixpoint rebuildSegmentIndex_walk (fuel : nat) (segment_owner : NodePtr)
    (build_hash_index : bool) (cur_node : NodePtr) (cur_record : PMemOffsetType)
    (num_elems : N) : M (Status.t * N) :=
  match fuel with
  | O => crash OutOfFuel
  | S fuel =>
    c ← load cur_record;
    next_record ← offset2addr_checked (next c);
    header ← HeaderRecord segment_owner;
    if decide (next_record = header) then
      RelaxedSetNext cur_node 1 nullptr;;
      ret (Status.Ok, num_elems)
    else
      segments ← gets (λ st, recovery_segments_ (rb st));
      match segments !! next_record with
      | None =>
        n ← load next_record;
        let internal_key := Key n in
        valid_version_record ← findCheckpointVersion (S fuel) next_record;
        invalid ← orM (ret (bool_decide (valid_version_record = kNullPMemOffset)))
                      (v ← load valid_version_record;
                       ret (bool_decide (GetRecordStatus v = RecordStatus.Outdated)));
        if invalid then
          success ← Skiplist_Remove next_record;
          kvdk_assert (ret success);;
          addUnlinkedRecord next_record;;
          rebuildSegmentIndex_walk fuel segment_owner build_hash_index
                                   cur_node cur_record num_elems
        else
          (if decide (valid_version_record ≠ next_record) then
             success ← Skiplist_Replace next_record valid_version_record;
             kvdk_assert (ret success);;
             addUnlinkedRecord next_record
           else ret ());;
          let num_elems := num_elems + 1 in
          assert (ret (bool_decide (valid_version_record ≠ kNullPMemOffset)));;
          dram_node ← Skiplist_NewNodeBuild valid_version_record;
          cur_node ← (if decide (dram_node ≠ nullptr) then
                        RelaxedSetNext cur_node 1 dram_node;;
                        RelaxedSetNext dram_node 1 nullptr;;
                        ret dram_node
                      else ret cur_node);
          s ← (if build_hash_index then
                 if decide (dram_node ≠ nullptr)
                 then insertHashIndex internal_key dram_node PointerType.SkiplistNode
                 else insertHashIndex internal_key valid_version_record PointerType.DLRecord
               else ret Status.Ok);
          if decide (s ≠ Status.Ok) then ret (s, num_elems)
          else
            PersistOldVersion valid_version_record kNullPMemOffset;;
            rebuildSegmentIndex_walk fuel segment_owner build_hash_index
                                     cur_node valid_version_record num_elems
      | Some segment =>
        start ← load_node (start_node segment);
        r ← load (record start);
        (if decide (GetRecordType r = RecordType.SortedElem)
         then RelaxedSetNext cur_node 1 (start_node segment)
         else RelaxedSetNext cur_node 1 nullptr);;
        ret (Status.Ok, num_elems)
      end
  end.

Definition rebuildSegmentIndex (fuel : nat) (start : NodePtr)
    (segment_owner : NodePtr) : M Status.t :=
  build_hash_index ← IndexWithHashtable segment_owner;
  node ← load_node start;
  header ← HeaderRecord segment_owner;
  '(s, num_elems) ←
    (if decide (record node ≠ header) then
       kvdk_assert (r ← load (record node);
                    ret (bool_decide (GetRecordType r = RecordType.SortedElem)));;
       r ← load (record node);
       s ← (if build_hash_index
            then insertHashIndex (Key r) start PointerType.SkiplistNode
            else ret Status.Ok);
       ret (s, 1)
     else ret (Status.Ok, 0));
  if decide (s ≠ Status.Ok) then ret s
  else
    kvdk_assert (v ← findCheckpointVersion fuel (record node);
                 ret (bool_decide (v = record node)));;
    PersistOldVersion (record node) kNullPMemOffset;;
    '(s, num_elems) ← rebuildSegmentIndex_walk fuel segment_owner build_hash_index
                                               start (record node) num_elems;
    if decide (s ≠ Status.Ok) then ret s
    else UpdateSize segment_owner num_elems;; ret Status.Ok.

(** The while loop of [linkHighDramNodes]. *)
Fixpoint linkHighDramNodes_walk (fuel : nat) (prevs : gmap nat NodePtr)
    (next_node : NodePtr) : M (gmap nat NodePtr) :=
  match fuel with
  | O => crash OutOfFuel
  | S fuel =>
    if decide (next_node ≠ nullptr) then
      assert (p ← load_node (prevs_at prevs 1);
              ret (bool_decide (RelaxedNext p 1 = next_node)));;
      let prevs := <[1%nat := next_node]> prevs in
      node ← load_node next_node;
      prevs ← (if decide (1 < Height node)%nat then
                 (fix link (levels : list nat) (prevs : gmap nat NodePtr) :=
                    match levels with
                    | [] => ret prevs
                    | i :: levels =>
                      RelaxedSetNext (prevs_at prevs i) i next_node;;
                      link levels (<[i := next_node]> prevs)
                    end) (seq 2 (Height node - 1)) prevs
               else ret prevs);
      node ← load_node next_node;
      linkHighDramNodes_walk fuel prevs (RelaxedNext node 1)
    else ret prevs
  end.

Fixpoint terminate_levels (levels : list nat) (prevs : gmap nat NodePtr) : M unit :=
  match levels with
  | [] => ret ()
  | i :: levels => RelaxedSetNext (prevs_at prevs i) i nullptr;; terminate_levels levels prevs
  end.

Definition linkHighDramNodes (fuel : nat) (skiplist : NodePtr) : M Status.t :=
  assign_thread_id;;
  header_node ← HeaderNode skiplist;
  let prevs : gmap nat NodePtr :=
    list_to_map ((λ i, (i, header_node)) <$> seq 1 kMaxHeight) in
  first ← load_node (prevs_at prevs 1);
  prevs ← linkHighDramNodes_walk fuel prevs (RelaxedNext first 1);
  terminate_levels (seq 1 kMaxHeight) prevs;;
  ret Status.Ok.


(** [for (auto& f : fs) { Status s = f.get(); if (s != Status::Ok) return s; }] *)
Definition first_failure (fs : list Status.t) : option Status.t :=
  head (filter (λ s, s ≠ Status.Ok) fs).

(** The body of the lambda [rebuild_segments_index] for one entry of
    [recovery_segments_]; [Some s] stands for [return s]. *)
Definition claim_segment (fuel : nat) (key : PMemOffsetType) : M (option Status.t) :=
  segments ← gets (λ st, recovery_segments_ (rb st));
  match segments !! key with
  | None => crash InvalidAccess
  | Some segment =>
    if visited segment then ret None
    else
      modify (on_rebuilder (set_recovery_segments
        <[key := mkSegment true (start_node segment)]>));;
      start ← load_node (start_node segment);
      r ← load (record start);
      rebuild ← gets (λ st, rebuild_skiplits_ (rb st) !! FetchID r);
      match rebuild with
      | None =>
        kvdk_assert (gets (λ st, bool_decide
          (is_Some (invalid_skiplists_ (rb st) !! FetchID r))));;
        ret None
      | Some skiplist =>
        s ← rebuildSegmentIndex fuel (start_node segment) skiplist;
        if decide (s ≠ Status.Ok) then ret (Some s) else ret None
      end
  end.

Fixpoint claim_segments (fuel : nat) (keys : list PMemOffsetType) : M Status.t :=
  match keys with
  | [] => ret Status.Ok
  | key :: keys =>
    r ← claim_segment fuel key;
    match r with
    | Some s => ret s
    | None => claim_segments fuel keys
    end
  end.

Definition rebuild_segments_index (fuel : nat) : M Status.t :=
  assign_thread_id;;
  segments ← gets (λ st, recovery_segments_ (rb st));
  claim_segments fuel (map_to_list segments).*1.

(** Tasks pushed one by one and joined after every [num_rebuild_threads_]
    of them and after the last; [i] counts the tasks pushed so far and [fs]
    holds the results not yet joined. *)
Fixpoint run_in_batches (tasks : list (M Status.t)) (i total : N)
    (fs : list Status.t) : M Status.t :=
  match tasks with
  | [] => ret Status.Ok
  | task :: tasks =>
    let i := i + 1 in
    s ← async task;
    let fs := fs ++ [s] in
    threads ← gets (λ st, num_rebuild_threads_ (rb st));
    if decide (threads = 0) then crash DivisionByZero
    else if bool_decide (i mod threads = 0) || bool_decide (i = total) then
      match first_failure fs with
      | Some s => ret s
      | None => run_in_batches tasks i total []
      end
    else run_in_batches tasks i total fs
  end.

Fixpoint run_all (tasks : list (M Status.t)) : M (list Status.t) :=
  match tasks with
  | [] => ret []
  | task :: tasks => s ← async task; fs ← run_all tasks; ret (s :: fs)
  end.

Definition segmentBasedIndexRebuild (fuel : nat) : M Status.t :=
  threads ← gets (λ st, num_rebuild_threads_ (rb st));
  fs ← run_all (replicate (N.to_nat threads) (rebuild_segments_index fuel));
  match first_failure fs with
  | Some s => ret s
  | None =>
    rebuild ← gets (λ st, rebuild_skiplits_ (rb st));
    s ← run_in_batches ((λ e, linkHighDramNodes fuel e.2) <$> map_to_list rebuild)
                       0 (N.of_nat (size rebuild)) [];
    if decide (s ≠ Status.Ok) then ret s
    else
      modify (on_rebuilder (set_recovery_segments (λ _, ∅)));;
      ret Status.Ok
  end.

Definition listBasedIndexRebuild (fuel : nat) : M Status.t :=
  rebuild ← gets (λ st, rebuild_skiplits_ (rb st));
  run_in_batches ((λ e, rebuildSkiplistIndex fuel e.2) <$> map_to_list rebuild)
                 0 (N.of_nat (size rebuild)) [].

(** *** Reclamation: [SortedCollectionRebuilder::cleanInvalidRecords] *)

(** The inner loop over the unlinked records of one thread cache; the result
    is [to_free]. *)
Fixpoint clean_unlinked_records (records : list PMemOffsetType)
    (to_free : list SpaceEntry) : M (list SpaceEntry) :=
  match records with
  | [] => ret to_free
  | pmem_record :: records =>
    invalid ← orM (r ← load pmem_record; ret (negb (Skiplist_MatchType r)))
                  (b ← CheckLinkage pmem_record; ret (negb b));
    if invalid then
      Destroy pmem_record;;
      o ← addr2offset_checked pmem_record;
      r ← load pmem_record;
      clean_unlinked_records records (to_free ++ [mkSpaceEntry o (GetRecordSize r)])
    else clean_unlinked_records records to_free
  end.

(** The loop [for (auto& thread_cache : rebuilder_thread_cache_)], at the
    caches from index [i] on. *)
Fixpoint clean_thread_caches (i : nat) (n : nat) : M unit :=
  match n with
  | O => ret ()
  | S n =>
    cache ← gets (λ st, rebuilder_thread_cache_ (rb st));
    match cache !! i with
    | None => crash InvalidAccess
    | Some thread_cache =>
      to_free ← clean_unlinked_records (unlinked_records thread_cache) [];
      BatchFree to_free;;
      modify (on_rebuilder (set_thread_cache
        (alter (λ c, mkThreadCache (visited_skiplists c) []) i)));;
      clean_thread_caches (S i) n
    end
  end.

Definition clean_unlinked : M unit :=
  n ← gets (λ st, length (rebuilder_thread_cache_ (rb st)));
  clean_thread_caches 0 n.

(** Modelled from the spec: [Skiplist::Destroy] walks the on-media list of the
    collection from its header and frees each record. *)
Fixpoint Skiplist_Destroy_walk (fuel : nat) (header cur : PMemOffsetType)
    (to_free : list SpaceEntry) : M (list SpaceEntry) :=
  match fuel with
  | O => crash OutOfFuel
  | S fuel =>
    r ← load cur;
    Destroy cur;;
    let to_free := to_free ++ [mkSpaceEntry (addr2offset cur) (GetRecordSize r)] in
    if decide (next r = header) then ret to_free
    else Skiplist_Destroy_walk fuel header (next r) to_free
  end.
Definition Skiplist_Destroy (fuel : nat) (skiplist : NodePtr) : M unit :=
  header ← HeaderRecord skiplist;
  to_free ← Skiplist_Destroy_walk fuel header header [];
  BatchFree to_free.

Fixpoint destroy_skiplists (fuel : nat) (l : list NodePtr) : M unit :=
  match l with
  | [] => ret ()
  | s :: l => Skiplist_Destroy fuel s;; destroy_skiplists fuel l
  end.

Definition clean_invalid_skiplists (fuel : nat) : M unit :=
  invalid ← gets (λ st, invalid_skiplists_ (rb st));
  destroy_skiplists fuel (map_to_list invalid).*2;;
  modify (on_rebuilder (set_invalid_skiplists (λ _, ∅))).

Definition cleanInvalidRecords (fuel : nat) : M unit :=
  clean_unlinked;;
  clean_invalid_skiplists fuel.

(** *** [SortedCollectionRebuilder::Rebuild] *)

Record RebuildResult := mkRebuildResult {
  s : Status.t;
  max_id : CollectionIDType;
  rebuild_skiplits : gmap CollectionIDType NodePtr
}.

Definition Rebuild (fuel : nat) : M RebuildResult :=
  s ← initRebuildLists fuel;
  rebuild ← gets (λ st, rebuild_skiplits_ (rb st));
  s ← (if bool_decide (s = Status.Ok) && bool_decide (0 < size rebuild)%nat then
         segment_based ← gets (λ st, segment_based_rebuild_ (rb st));
         if segment_based then segmentBasedIndexRebuild fuel
         else listBasedIndexRebuild fuel
       else ret s);
  if decide (s = Status.Ok) then
    max ← gets (λ st, max_recovered_id_ (rb st));
    rebuild ← gets (λ st, rebuild_skiplits_ (rb st));
    modify (on_rebuilder (set_rebuild_skiplits (λ _, ∅)));;
    cleanInvalidRecords fuel;;
    ret (mkRebuildResult s max rebuild)
  else ret (mkRebuildResult s 0 ∅).

End Model.

(** ** A small engine for examples

    One-byte codecs: the collection ID is the code of the first character of
    an element's internal key, and of a header's payload; the second
    character of the payload is [h] when the collection is indexed by the
    hash table, and the rest is the comparator name. *)

Definition byte_id (s : string) : CollectionIDType :=
  match s with
  | String c _ => Ascii.N_of_ascii c
  | EmptyString => 0
  end.

Definition example_ExtractID (t : RecordType.t) (key value : string)
    : CollectionIDType :=
  match t with
  | RecordType.SortedElem => byte_id key
  | RecordType.SortedRecord => byte_id value
  | _ => 0
  end.

Definition example_Decode (v : string)
    : Status.t * CollectionIDType * SortedCollectionConfigs :=
  match v with
  | String c (String f name) =>
      (Status.Ok, Ascii.N_of_ascii c, mkConfigs name (bool_decide (f = Ascii.ascii_of_N 104)))
  | _ => (Status.Abort, 0, mkConfigs "" false)
  end.

(** Insert reports [NotFound] on an empty slot and [Ok] on an existing
    entry, which it overwrites. *)
Definition example_Insert (table : gmap string HashEntry) (key : string)
    (t : RecordType.t) (s : RecordStatus.t) (p : N) (pt : PointerType.t)
    : Status.t * gmap string HashEntry :=
  (match table !! key with Some _ => Status.Ok | None => Status.NotFound end,
   <[key := mkHashEntry t s p pt]> table).

(** A debug build: every assertion is checked. *)
Definition debug_engine (stride : N) : Engine := {|
  kNullPMemOffset := 2 ^ 64 - 1;
  kRestoreSkiplistStride := stride;
  kMaxHeight := 4;
  KVDK_DEBUG_LEVEL := 1;
  NDEBUG := false;
  ExtractID := example_ExtractID;
  DecodeSortedCollectionValue := example_Decode;
  HasExpired := λ _, false;
  randomHeight := λ _, 1%nat;
  HashTable_Insert := example_Insert
|}.

(** A release build: no assertion is checked. *)
Definition release_engine (stride : N) : Engine := {|
  kNullPMemOffset := 2 ^ 64 - 1;
  kRestoreSkiplistStride := stride;
  kMaxHeight := 4;
  KVDK_DEBUG_LEVEL := 0;
  NDEBUG := true;
  ExtractID := example_ExtractID;
  DecodeSortedCollectionValue := example_Decode;
  HasExpired := λ _, false;
  randomHeight := λ _, 1%nat;
  HashTable_Insert := example_Insert
|}.

Definition null : PMemOffsetType := 2 ^ 64 - 1.

Definition header (value : string) (ts : TimeStampType)
    (prev next old : PMemOffsetType) : DLRecord :=
  mkDLRecord RecordType.SortedRecord RecordStatus.Normal "list" value ts
             prev next old true 64 false.
Definition elem (status : RecordStatus.t) (key : string) (ts : TimeStampType)
    (prev next old : PMemOffsetType) : DLRecord :=
  mkDLRecord RecordType.SortedElem status key "v" ts prev next old true 64 false.

(** An engine that maps [records], allows 64 access threads and registers
    the comparator "default", with a rebuilder newly constructed over it. *)
Definition fresh_state (records : list (PMemOffsetType * DLRecord))
    (checkpoint : TimeStampType) (segment_based : bool) (threads : N) : State :=
  mkState
    (mkKVEngine (list_to_map records) [] ∅ ∅ 0 0 ∅ ["default"] 0)
    (SortedCollectionRebuilder_new 64 segment_based threads checkpoint).

(** The scan hands every record to the rebuilder, which then rebuilds. *)
Fixpoint intake `{Engine} (fuel : nat) (records : list PMemOffsetType) : M unit :=
  match records with
  | [] => ret ()
  | p :: records =>
    r ← load p;
    (if decide (GetRecordType r = RecordType.SortedRecord)
     then AddHeader p else AddElement fuel p);;
    intake fuel records
  end.

Definition recover `{Engine} (fuel : nat) (records : list PMemOffsetType)
    : M RebuildResult :=
  intake fuel records;;
  Rebuild fuel.

(** A collection with header at 100 and elements a, b, c at 200, 300, 400;
    b is a tombstone (status [Outdated]). *)
Definition tombstone_records : list (PMemOffsetType * DLRecord) :=
  [ (100, header "1hdefault" 10 400 200 null);
    (200, elem RecordStatus.Normal "1a" 11 100 300 null);
    (300, elem RecordStatus.Outdated "1b" 12 200 400 null);
    (400, elem RecordStatus.Normal "1c" 13 300 100 null) ].


(** Two versions of the element "1a": the one at 200 written at time 150 on
    top of the one at 300 written at time 50, which [valid] says validates;
    the checkpoint is at time 100. *)
Definition version_records (valid : bool) : list (PMemOffsetType * DLRecord) :=
  [ (100, header "1hdefault" 10 200 200 null);
    (200, elem RecordStatus.Normal "1a" 150 100 100 300);
    (300, mkDLRecord RecordType.SortedElem RecordStatus.Normal "1a" "v" 50
                     100 100 null valid 64 false) ].
Definition version_state (valid : bool) : State :=
  fresh_state (version_records valid) 100 false 1.

(** Two self-linked headers of collection 1, at times 100 and 200, taken in
    by [AddHeader] in the order 110, 100. *)
Definition duplicate_header_records : list (PMemOffsetType * DLRecord) :=
  [ (100, header "1hdefault" 100 100 100 null);
    (110, header "1hdefault" 200 110 110 null) ].
Definition with_linked_headers (hs : list PMemOffsetType) (st : State) : State :=
  on_rebuilder (set_linked_headers (λ _, hs)) st.
Definition duplicate_header_state : State :=
  with_linked_headers [110; 100] (fresh_state duplicate_header_records 0 false 1).

(** A collection header -> a -> c with an element b at 300 that points to a
    and c; [torn] says whether a already points to b (a half-done insert) or
    no neighbour does (an unlinked record). *)
Definition torn_records (torn : bool) : list (PMemOffsetType * DLRecord) :=
  [ (100, header "1hdefault" 10 400 200 null);
    (200, elem RecordStatus.Normal "1a" 11 100 (if torn then 300 else 400) null);
    (300, elem RecordStatus.Normal "1b" 12 200 400 null);
    (400, elem RecordStatus.Normal "1c" 13 200 100 null) ].
Definition torn_state (torn : bool) : State :=
  fresh_state (torn_records torn) 0 false 1.

(** The same with b in the unlinked queue of the only worker. *)
Definition reclaim_state : State :=
  on_rebuilder (set_thread_cache (λ _, [mkThreadCache ∅ [300]])) (torn_state false).

(** * Groups of volatile hash tables: [engine/experimental/vhash_group.cpp]

    A group maps names to tables.  The map [hpmap] is read through an
    accessor: [pointer()] is null when the name has no table, [set_pointer]
    stores one and [erase] drops the entry.  The accessor taken with
    [acquire_lock] holds the lock of its slot for the length of the call,
    so a call is one step on the map.  The builder [vhb] of the tables is
    defined elsewhere in the engine and is a parameter. *)

Module VHashGroup.

Definition VHashPtr := N.

Class Builder (B : Type) := {
  (** [vhb.NewVHash(name, kvb)]: the new table and the builder after it. *)
  NewVHash : B → string → VHashPtr * B;
  (** [vhb.Recycle(vhash)] *)
  Recycle : B → VHashPtr → B
}.

Record t (B : Type) := mk {
  hpmap : gmap string VHashPtr;
  vhb : B
}.
Arguments mk {B} _ _.
Arguments hpmap {B} _.
Arguments vhb {B} _.

Section Group.
Context {B : Type} `{Builder B}.

(** [hpmap.lookup(name, ...)] followed by [pointer()]. *)
Definition pointer (m : gmap string VHashPtr) (name : string) : VHashPtr :=
  default nullptr (m !! name).

Definition Create (name : string) (g : t B) : bool * t B :=
  if decide (pointer (hpmap g) name ≠ nullptr) then (false, g)
  else
    let '(vhash, b) := NewVHash (vhb g) name in
    (true, mk (<[name := vhash]> (hpmap g)) b).

Definition Destroy (name : string) (g : t B) : bool * t B :=
  let vhash := pointer (hpmap g) name in
  if decide (vhash = nullptr) then (false, g)
  else (true, mk (delete name (hpmap g)) (Recycle (vhb g) vhash)).

Definition Get (name : string) (g : t B) : VHashPtr :=
  pointer (hpmap g) name.

End Group.

(** A builder for examples: tables are numbered from 1 and the recycled
    ones are kept in a list. *)
#[global] Instance counting_builder : Builder (N * list VHashPtr) := {|
  NewVHash := λ b _, (N.succ b.1, (N.succ b.1, b.2));
  Recycle := λ b p, (b.1, p :: b.2)
|}.

End VHashGroup.
(** ** Definitions used to state the properties *)

Section Statements.
Context `{Engine}.

(** The record whose type and status [insertHashIndex] reads through the
    index pointer, and the record type it passes to the hash table. *)
Definition index_target (index_ptr : N) (index_type : PointerType.t) : M DLRecord :=
  match index_type with
  | PointerType.DLRecord => load index_ptr
  | PointerType.SkiplistNode => node ← load_node index_ptr; load (record node)
  | PointerType.Skiplist => hr ← HeaderRecord index_ptr; load hr
  | PointerType.Other _ => crash InvalidAccess
  end.
Definition index_record_type (index_type : PointerType.t) : RecordType.t :=
  match index_type with
  | PointerType.Skiplist => RecordType.SortedRecord
  | _ => RecordType.SortedElem
  end.

(** The state after the calling worker has queued [p] as unlinked, and the
    state after the record [r] at [p] has been purged and its extent freed. *)
Definition queue_unlinked (p : PMemOffsetType) (st : State) : State :=
  on_rebuilder (set_thread_cache
    (alter (λ c, mkThreadCache (visited_skiplists c) (unlinked_records c ++ [p]))
           (N.to_nat (this_thread_id (kv_engine_ st))
              mod length (rebuilder_thread_cache_ (rb st)))%nat)) st.
Definition purged (p : PMemOffsetType) (r : DLRecord) (st : State) : State :=
  on_engine (set_free_list (λ l, l ++ [mkSpaceEntry p (record_size r)]))
    (on_engine (set_pmem <[p := with_destroyed r]>) st).

(** A record is mapped at [p]. *)
Definition mapped (st : State) (p : PMemOffsetType) : Prop :=
  p ≠ kNullPMemOffset ∧ is_Some (pmem (kv_engine_ st) !! p).

(** Every record mapped in [st] is mapped in [st']. *)
Definition keeps_mapped (st st' : State) : Prop := ∀ q, mapped st q → mapped st' q.

(** The record mapped at a pointer that is not null. *)
Definition record_at (st : State) (p : PMemOffsetType) : option DLRecord :=
  if decide (p = kNullPMemOffset) then None else pmem (kv_engine_ st) !! p.

(** The i-th ancestor of [p]: i hops along [old_version], and the null
    pointer once the chain has ended. *)
Fixpoint ancestor (st : State) (p : PMemOffsetType) (i : nat) : PMemOffsetType :=
  match i with
  | O => p
  | S i =>
    match record_at st p with
    | Some r => ancestor st (offset2addr (old_version r)) i
    | None => kNullPMemOffset
    end
  end.

(** What the assertions of the walk require of a visited older version. *)
Definition older_version_checked (input r : DLRecord) : Prop :=
  0 < KVDK_DEBUG_LEVEL → Validate r = true ∧ Key r = Key input.

(** The walk goes past the i-th ancestor: its timestamp exceeds the
    checkpoint, and as an older version it carries the ID of the input. *)
Definition walks_past (st : State) (p : PMemOffsetType) (input : DLRecord) (i : nat) : Prop :=
  ∃ r, record_at st (ancestor st p i) = Some r ∧
       checkpoint_ts (rb st) < GetTimestamp r ∧
       ((0 < i)%nat → FetchID r = FetchID input ∧ older_version_checked input r).

(** The status [insertHashIndex] returns for a status reported by Insert. *)
Definition insert_status (s : Status.t) : Status.t :=
  match s with
  | Status.NotFound => Status.Ok
  | Status.Ok => Status.Abort
  | s => s
  end.

(** The state after [Skiplist_new]: the header node and the skiplist object
    take the next two addresses. *)
Definition with_new_skiplist (header_record : PMemOffsetType) (name : string)
    (id : CollectionIDType) (comparator : string) (with_hash : bool) (st : State) : State :=
  let node := N.succ (next_addr (kv_engine_ st)) in
  let skiplist := N.succ node in
  on_engine (set_skiplists <[skiplist := mkSkiplist node name id comparator 0 with_hash]>)
    (on_engine (set_next_addr (λ _, skiplist))
      (on_engine (set_dram <[node := mkNode header_record kMaxHeight ∅]>)
        (on_engine (set_next_addr (λ _, node)) st))).

(** The state in which the visible version [v] stands in the list for the
    header [h]: nothing to do when it is the header itself; otherwise the
    header has been replaced on media and queued as unlinked. *)
Definition swapped_in (h v : PMemOffsetType) (st1 st2 : State) : Prop :=
  (v = h ∧ st2 = st1) ∨
  (v ≠ h ∧ ∃ success st',
     Skiplist_Replace h v st1 = Done success st' ∧
     (0 < KVDK_DEBUG_LEVEL → success = true) ∧
     rebuilder_thread_cache_ (rb st') ≠ [] ∧
     st2 = queue_unlinked h st').

(** Only the persistent memory differs between [st] and [st']. *)
Definition only_pmem (st st' : State) : Prop :=
  ∃ m, st' = on_engine (set_pmem (λ _, m)) st.

(** The two re-checks of the Reclaimer, read off a state. *)
Definition type_matches (st : State) (p : PMemOffsetType) : bool :=
  match record_at st p with
  | Some r => Skiplist_MatchType r
  | None => false
  end.
Definition linkage_intact (st : State) (p : PMemOffsetType) : bool :=
  match record_at st p with
  | Some r =>
    match record_at st (prev r), record_at st (next r) with
    | Some pr, Some nr => bool_decide (next pr = p) && bool_decide (prev nr = p)
    | _, _ => false
    end
  | None => false
  end.

(** A queued record is reclaimed when it fails at least one of them. *)
Definition reclaimed (st : State) (p : PMemOffsetType) : bool :=
  negb (type_matches st p) || negb (linkage_intact st p).

(** The record and both its neighbours are mapped. *)
Definition neighbours_mapped (st : State) (p : PMemOffsetType) : Prop :=
  ∃ r, record_at st p = Some r ∧ mapped st (prev r) ∧ mapped st (next r).

Definition destroy_all (ps : list PMemOffsetType) (m : gmap PMemOffsetType DLRecord)
    : gmap PMemOffsetType DLRecord :=
  foldl (λ m p, alter with_destroyed p m) m ps.

Definition extent_of (st : State) (p : PMemOffsetType) : SpaceEntry :=
  mkSpaceEntry p (default 0 (GetRecordSize <$> record_at st p)).

Definition queued (st : State) : list PMemOffsetType :=
  concat (unlinked_records <$> rebuilder_thread_cache_ (rb st)).

Definition cleared (c : ThreadCache) : ThreadCache :=
  mkThreadCache (visited_skiplists c) [].

(** What [FetchID] reads of a record, and the map of it over the memory. *)
Definition identity (r : DLRecord) : RecordType.t * string * string :=
  (GetRecordType r, Key r, Value r).
Definition identities (st : State) : gmap PMemOffsetType (RecordType.t * string * string) :=
  identity <$> pmem (kv_engine_ st).

(** Header resolution neither changes the identity of a record nor takes a
    record out of an unlinked queue. *)
Definition stable (st st' : State) : Prop :=
  identities st' = identities st ∧ ∀ p, p ∈ queued st → p ∈ queued st'.

Definition preserves {A} (m : M A) : Prop :=
  ∀ st a st', m st = Done a st' → stable st st'.

(** Every value a computation returns satisfies [P]. *)
Definition returns {A} (P : A → Prop) (m : M A) : Prop :=
  ∀ st a st', m st = Done a st' → P a.

End Statements.


(** ** Definitions used to state the further properties *)

(** Every run of [m] that returns relates the state it started in to the
    state it returns in by [R]. *)
Definition keeps (R : relation State) {A} (m : M A) : Prop :=
  ∀ st a st', m st = Done a st' → R st st'.

(** What a worker of the index rebuild leaves alone in the rebuilder: all
    but the thread caches, whose number stays, and the thread counter. *)
Definition task_frame (st st' : State) : Prop :=
  checkpoint_ts (rb st') = checkpoint_ts (rb st) ∧
  segment_based_rebuild_ (rb st') = segment_based_rebuild_ (rb st) ∧
  num_rebuild_threads_ (rb st') = num_rebuild_threads_ (rb st) ∧
  linked_headers_ (rb st') = linked_headers_ (rb st) ∧
  recovery_segments_ (rb st') = recovery_segments_ (rb st) ∧
  rebuild_skiplits_ (rb st') = rebuild_skiplits_ (rb st) ∧
  invalid_skiplists_ (rb st') = invalid_skiplists_ (rb st) ∧
  max_recovered_id_ (rb st') = max_recovered_id_ (rb st) ∧
  length (rebuilder_thread_cache_ (rb st')) = length (rebuilder_thread_cache_ (rb st)).

(** The configuration of the rebuilder, fixed by its constructor. *)
Definition config_frame (st st' : State) : Prop :=
  checkpoint_ts (rb st') = checkpoint_ts (rb st) ∧
  segment_based_rebuild_ (rb st') = segment_based_rebuild_ (rb st) ∧
  num_rebuild_threads_ (rb st') = num_rebuild_threads_ (rb st) ∧
  length (rebuilder_thread_cache_ (rb st')) = length (rebuilder_thread_cache_ (rb st)).

(** The rebuilder is as it was: only the engine has changed. *)
Definition engine_frame (st st' : State) : Prop := rb st' = rb st.

(** What the whole index rebuild leaves alone in the rebuilder: the
    configuration, the headers taken in and the skiplists made of them. *)
Definition rebuild_frame (st st' : State) : Prop :=
  checkpoint_ts (rb st') = checkpoint_ts (rb st) ∧
  segment_based_rebuild_ (rb st') = segment_based_rebuild_ (rb st) ∧
  num_rebuild_threads_ (rb st') = num_rebuild_threads_ (rb st) ∧
  linked_headers_ (rb st') = linked_headers_ (rb st) ∧
  rebuild_skiplits_ (rb st') = rebuild_skiplits_ (rb st) ∧
  invalid_skiplists_ (rb st') = invalid_skiplists_ (rb st) ∧
  max_recovered_id_ (rb st') = max_recovered_id_ (rb st) ∧
  length (rebuilder_thread_cache_ (rb st')) = length (rebuilder_thread_cache_ (rb st)).

(** The largest collection ID seen does not decrease, and a collection
    that has joined [rebuild_skiplits_] has an ID that is not above it. *)
Definition grows (st st' : State) : Prop :=
  max_recovered_id_ (rb st) ≤ max_recovered_id_ (rb st') ∧
  ∀ k, is_Some (rebuild_skiplits_ (rb st') !! k) →
       is_Some (rebuild_skiplits_ (rb st) !! k) ∨ k ≤ max_recovered_id_ (rb st').

(** Only the collection [id] may have joined [rebuild_skiplits_]. *)
Definition inserts (id : CollectionIDType) (st st' : State) : Prop :=
  max_recovered_id_ (rb st') = max_recovered_id_ (rb st) ∧
  ∀ k, is_Some (rebuild_skiplits_ (rb st') !! k) →
       is_Some (rebuild_skiplits_ (rb st) !! k) ∨ k = id.

(** No collection to rebuild has an ID above the largest ID seen. *)
Definition ids_bounded (st : State) : Prop :=
  ∀ k, is_Some (rebuild_skiplits_ (rb st) !! k) → k ≤ max_recovered_id_ (rb st).

(** Recovery segments are neither added nor dropped, and a segment that a
    worker has claimed stays claimed. *)
Definition claims (st st' : State) : Prop :=
  ∀ k,
    match recovery_segments_ (rb st) !! k with
    | Some seg =>
      ∃ seg', recovery_segments_ (rb st') !! k = Some seg' ∧
              (visited seg = true → visited seg' = true)
    | None => recovery_segments_ (rb st') !! k = None
    end.

(** The state in which a worker has taken its thread identity. *)
Definition with_thread_id (st : State) : State :=
  on_engine (set_this_thread_id (λ _, next_tid_ (rb st)))
    (on_rebuilder (set_next_tid N.succ) st).

(** *** States for examples *)

(** The state in which [m] returns from [st], and [st] itself when it does
    not return. *)
Definition after {A} (m : M A) (st : State) : State := default st (final (m st)).

(** The collection of [tombstone_records] after the scan has handed its
    records to the rebuilder in the order of their offsets, and after header
    resolution. *)
Definition scanned_state (segment_based : bool) (threads : N) : State :=
  after (intake (H := debug_engine 2) 8 [100; 200; 300; 400])
        (fresh_state tombstone_records 0 segment_based threads).
Definition resolved_state (segment_based : bool) (threads : N) : State :=
  after (initRebuildLists (H := debug_engine 2) 8) (scanned_state segment_based threads).

(** The element "1a" at 200, written at time 150, whose old version at 300
    is an element of another collection, with the checkpoint at time 100;
    and the same once header resolution has made the skiplist of the
    collection in a release build. *)
Definition foreign_version_records : list (PMemOffsetType * DLRecord) :=
  [ (100, header "1hdefault" 10 200 200 null);
    (200, elem RecordStatus.Normal "1a" 150 100 100 300);
    (300, elem RecordStatus.Normal "2a" 50 100 100 null) ].
Definition foreign_version_state : State :=
  fresh_state foreign_version_records 100 false 1.
Definition foreign_list_state : State :=
  after (initRebuildLists (H := release_engine 2) 8)
        (with_linked_headers [100] foreign_version_state).

(** A linked header whose payload does not decode. *)
Definition undecodable_state : State :=
  with_linked_headers [100]
    (fresh_state [(100, header "" 10 100 100 null)] 0 false 1).

(** The scanned collection with one rebuild thread, when the hash table
    already holds an entry under the key of the element a. *)
Definition occupied_state : State :=
  on_engine (set_hash_table
    <["1a" := mkHashEntry RecordType.SortedElem RecordStatus.Normal 200
                          PointerType.DLRecord]>)
    (scanned_state false 1).

(** The cache index of the calling worker, and the number of linked
    elements of the collection [id] that the worker with cache index [i]
    has taken in. *)
Definition worker (st : State) : nat :=
  (N.to_nat (this_thread_id (kv_engine_ st))
     mod length (rebuilder_thread_cache_ (rb st)))%nat.
Definition visits (st : State) (i : nat) (id : CollectionIDType) : N :=
  default 0 (rebuilder_thread_cache_ (rb st) !! i ≫= λ c, visited_skiplists c !! id).

(** The state in which the calling worker has counted one more element of
    the collection [id]. *)
Definition counted (id : CollectionIDType) (st : State) : State :=
  on_rebuilder (set_thread_cache
    (alter (λ c, mkThreadCache (<[id := visits st (worker st) id + 1]> (visited_skiplists c))
                               (unlinked_records c))
           (worker st))) st.

(** The registry of comparators is as it was. *)
Definition registry_frame (st st' : State) : Prop :=
  comparators_ (kv_engine_ st') = comparators_ (kv_engine_ st).

(** *** The list of a collection on persistent memory *)

Section ListStatements.
Context `{Engine}.

Definition next_at (st : State) (p : PMemOffsetType) : option PMemOffsetType :=
  next <$> record_at st p.
Definition prev_at (st : State) (p : PMemOffsetType) : option PMemOffsetType :=
  prev <$> record_at st p.
Definition status_at (st : State) (p : PMemOffsetType) : option RecordStatus.t :=
  GetRecordStatus <$> record_at st p.
Definition old_version_at (st : State) (p : PMemOffsetType) : option PMemOffsetType :=
  old_version <$> record_at st p.

(** From the record at [p] the [next] pointers lead through the records
    [es], in this order, to the record at [q], and the [prev] pointers lead
    back. *)
Fixpoint dl_segment (st : State) (p : PMemOffsetType) (es : list PMemOffsetType)
    (q : PMemOffsetType) : Prop :=
  match es with
  | [] => next_at st p = Some q ∧ prev_at st q = Some p
  | e :: es => next_at st p = Some e ∧ prev_at st e = Some p ∧ dl_segment st e es q
  end.

(** The elements that are not tombstones. *)
Definition outdated (st : State) (e : PMemOffsetType) : bool :=
  bool_decide (status_at st e = Some RecordStatus.Outdated).
Definition live (st : State) (es : list PMemOffsetType) : list PMemOffsetType :=
  filter (λ e, outdated st e = false) es.

(** What a record says apart from its links, and the memory seen through
    it: relinking records and clearing old versions leaves it alone. *)
Definition payload (r : DLRecord)
    : RecordType.t * RecordStatus.t * string * string * TimeStampType * bool * N * bool :=
  (record_type r, record_status r, Key r, Value r, timestamp r, checksum_ok r,
   record_size r, destroyed r).
Definition payload_frame (st st' : State) : Prop :=
  payload <$> pmem (kv_engine_ st') = payload <$> pmem (kv_engine_ st).

(** The heap of in-memory nodes: a node pointer that can be dereferenced,
    addresses handed out in increasing order, and a splice whose every
    level points to a node. *)
Definition valid_node (st : State) (n : NodePtr) : Prop :=
  n ≠ nullptr ∧ is_Some (dram (kv_engine_ st) !! n).
Definition heap_fresh (st : State) : Prop :=
  ∀ n, is_Some (dram (kv_engine_ st) !! n) → n ≤ next_addr (kv_engine_ st).
Definition prevs_ok (st : State) (prevs : gmap nat NodePtr) : Prop :=
  ∀ i, (1 ≤ i ≤ kMaxHeight)%nat → valid_node st (prevs_at prevs i).

(** The record and the height of the node at an address. *)
Definition node_at (st : State) (n : NodePtr) : option (PMemOffsetType * nat) :=
  (λ node, (record node, node_height node)) <$> dram (kv_engine_ st) !! n.

(** Only the in-memory heap may differ, and there only by what links and
    new nodes change: no node is dropped or changes its record. *)
Definition heap_frame (st st' : State) : Prop :=
  pmem (kv_engine_ st') = pmem (kv_engine_ st) ∧
  skiplists (kv_engine_ st') = skiplists (kv_engine_ st) ∧
  hash_table_ (kv_engine_ st') = hash_table_ (kv_engine_ st) ∧
  free_list (kv_engine_ st') = free_list (kv_engine_ st) ∧
  rb st' = rb st ∧
  (∀ n x, node_at st n = Some x → node_at st' n = Some x).

(** The skiplist object at [s] stands over the header record [hd], indexes
    by hash as [with_hash] says and counts [size] elements. *)
Definition skiplist_over (st : State) (s : NodePtr) (hd : PMemOffsetType)
    (with_hash : bool) (size : N) : Prop :=
  ∃ sl, s ≠ nullptr ∧ skiplists (kv_engine_ st) !! s = Some sl ∧
        header_ sl ≠ nullptr ∧
        (fst <$> node_at st (header_ sl)) = Some hd ∧
        index_with_hashtable_ sl = with_hash ∧ size_ sl = size.

End ListStatements.

(** *** The links of the headers *)

Section LinkStatements.
Context `{Engine}.

(** The persistent memory is as it was; and, weaker, every record has the
    links it had. *)
Definition memory_frame (st st' : State) : Prop :=
  pmem (kv_engine_ st') = pmem (kv_engine_ st).
Definition links_frame (st st' : State) : Prop :=
  (∀ q, next_at st' q = next_at st q) ∧ (∀ q, prev_at st' q = prev_at st q).

End LinkStatements.

(** Two self-linked headers of collection 1, the one at 110 written at time
    200 on top of the one at 100 written at time 100, in recovery to the
    checkpoint at time 150. *)
Definition checkpoint_header_records : list (PMemOffsetType * DLRecord) :=
  [ (100, header "1hdefault" 100 100 100 null);
    (110, header "1hdefault" 200 110 110 100) ].
Definition checkpoint_header_state : State :=
  with_linked_headers [110; 100] (fresh_state checkpoint_header_records 150 false 1).

(** *** The versions of a record *)

Section VersionStatements.
Context `{Engine}.

(** What a record says apart from its two links, and the memory seen
    through it: repairing a linkage leaves it alone. *)
Definition version (r : DLRecord) := (payload r, old_version r).
Definition versions (st : State) := version <$> pmem (kv_engine_ st).

(** The walk of [findCheckpointVersion] from [p] ends after [n] hops: it
    goes past the first n records of the chain, and there the chain ends or
    the n-th ancestor, which passes the assertions of the walk, carries
    another collection ID or is not newer than the checkpoint. *)
Definition chain_ends (st : State) (p : PMemOffsetType) (input : DLRecord) (n : nat) : Prop :=
  (∀ i, (i < n)%nat → walks_past st p input i) ∧
  (ancestor st p n = kNullPMemOffset ∨
   ∃ r, record_at st (ancestor st p n) = Some r ∧
        ((0 < n)%nat → older_version_checked input r) ∧
        (((0 < n)%nat ∧ FetchID r ≠ FetchID input) ∨
         GetTimestamp r ≤ checkpoint_ts (rb st))).

End VersionStatements.

(** Two versions of the element "1a" that name each other as their old
    version, both written after the checkpoint at time 100, in
    segment-based recovery. *)
Definition cyclic_version_records : list (PMemOffsetType * DLRecord) :=
  [ (100, header "1hdefault" 10 200 200 null);
    (200, elem RecordStatus.Normal "1a" 150 100 100 300);
    (300, elem RecordStatus.Normal "1a" 160 100 100 200) ].
Definition cyclic_version_state : State :=
  fresh_state cyclic_version_records 100 true 1.

(** The two versions of [version_records] in segment-based recovery. *)
Definition segment_version_state : State :=
  fresh_state (version_records true) 100 true 1.

(** *** Failures on the way up to [Rebuild] *)

Section AbortStatements.
Context `{Engine}.

(** Each task of a list, run as the source runs it and one after the other
    from [st], returned Ok, the last one in [st']. *)
Fixpoint all_ok (tasks : list (M Status.t)) (st st' : State) : Prop :=
  match tasks with
  | [] => st' = st
  | task :: tasks => ∃ st1, async task st = Done Status.Ok st1 ∧ all_ok tasks st1 st'
  end.

(** Each turn of the loop of [initRebuildLists] over the headers [hs], from
    [st], came to its end without a status to return, the last in [st']. *)
Fixpoint headers_ok (fuel : nat) (hs : list PMemOffsetType) (st st' : State) : Prop :=
  match hs with
  | [] => st' = st
  | h :: rest =>
    ∃ st1, initRebuildLists_body fuel h (head rest) st = Done None st1 ∧
           headers_ok fuel rest st1 st'
  end.

(** Each turn of the loop of a worker over the recovery segments [keys],
    from [st], came to its end without a status to return. *)
Fixpoint segments_ok (fuel : nat) (keys : list PMemOffsetType) (st st' : State) : Prop :=
  match keys with
  | [] => st' = st
  | key :: keys =>
    ∃ st1, claim_segment fuel key st = Done None st1 ∧ segments_ok fuel keys st1 st'
  end.

(** The index rebuild in the mode of the rebuilder. *)
Definition index_rebuild (fuel : nat) : M Status.t :=
  segment_based ← gets (λ st, segment_based_rebuild_ (rb st));
  if segment_based then segmentBasedIndexRebuild fuel else listBasedIndexRebuild fuel.

End AbortStatements.
(** ** Reasoning about computations *)

Section MonadFacts.
Context {A B : Type}.

Lemma bind_eq (m : M A) (f : A → M B) st a st' :
  m st = Done a st' → bind m f st = f a st'.
Proof. intros Hm. unfold bind. by rewrite Hm. Qed.

Lemma bind_crash (m : M A) (f : A → M B) st e :
  m st = Crash e → bind m f st = Crash e.
Proof. intros Hm. unfold bind. by rewrite Hm. Qed.

Lemma bind_done_inv (m : M A) (f : A → M B) st b st'' :
  bind m f st = Done b st'' →
  ∃ a st', m st = Done a st' ∧ f a st' = Done b st''.
Proof.
  unfold bind. destruct (m st) as [a st'|e]; [|done].
  intros Hf. by exists a, st'.
Qed.

End MonadFacts.

(** Inverts hypotheses of the form [bind m f st = Done b st']. *)
Ltac inv_bind :=
  repeat match goal with
  | Hb : bind _ _ _ = Done _ _ |- _ =>
      let a := fresh "a" in let st := fresh "st" in
      let H1 := fresh "Hm" in let H2 := fresh "Hk" in
      apply bind_done_inv in Hb as (a & st & H1 & H2)
  | Hr : ret _ _ = Done _ _ |- _ => unfold ret in Hr; simplify_eq
  | Hr : gets _ _ = Done _ _ |- _ => unfold gets in Hr; simplify_eq
  | Hr : modify _ _ = Done _ _ |- _ => unfold modify in Hr; simplify_eq
  | Hr : crash _ _ = Done _ _ |- _ => by unfold crash in Hr
  end.

Section Proofs.
Context `{Engine}.

Lemma load_state p st r st' : load p st = Done r st' → st' = st.
Proof. unfold load. repeat case_match; naive_solver. Qed.

Lemma load_node_state p st r st' : load_node p st = Done r st' → st' = st.
Proof. unfold load_node. repeat case_match; naive_solver. Qed.

Lemma load_skiplist_state p st r st' : load_skiplist p st = Done r st' → st' = st.
Proof. unfold load_skiplist. repeat case_match; naive_solver. Qed.

Lemma kvdk_assert_true (c : M bool) st :
  (0 < KVDK_DEBUG_LEVEL → c st = Done true st) → kvdk_assert c st = Done () st.
Proof.
  intros Hc. unfold kvdk_assert. destruct (0 <? KVDK_DEBUG_LEVEL) eqn:E; [|done].
  apply N.ltb_lt in E. by rewrite (bind_eq _ _ _ _ _ (Hc E)).
Qed.

Lemma assert_true (c : M bool) st :
  (NDEBUG = false → c st = Done true st) → assert c st = Done () st.
Proof.
  intros Hc. unfold assert. destruct NDEBUG; [done|].
  by rewrite (bind_eq _ _ _ _ _ (Hc eq_refl)).
Qed.

Lemma list_alter_as_insert {A} (f : A → A) (l : list A) i x :
  l !! i = Some x → alter f i l = <[i := f x]> l.
Proof.
  revert i. induction l as [|y l IH]; intros [|i] Hi; simplify_eq/=; try done.
  f_equal. by apply IH.
Qed.

Lemma load_eq p st r :
  p ≠ kNullPMemOffset → pmem (kv_engine_ st) !! p = Some r → load p st = Done r st.
Proof. intros Hp Hr. unfold load. rewrite decide_False by done. by rewrite Hr. Qed.

Lemma load_done p st r st' :
  load p st = Done r st' →
  st' = st ∧ p ≠ kNullPMemOffset ∧ pmem (kv_engine_ st) !! p = Some r.
Proof. unfold load. repeat case_match; naive_solver. Qed.

Lemma CheckPrevLinkage_state p st b st' : CheckPrevLinkage p st = Done b st' → st' = st.
Proof.
  unfold CheckPrevLinkage. intros Hc. inv_bind.
  apply load_state in Hm as ->. by apply load_state in Hm0 as ->.
Qed.
Lemma CheckNextLinkage_state p st b st' : CheckNextLinkage p st = Done b st' → st' = st.
Proof.
  unfold CheckNextLinkage. intros Hc. inv_bind.
  apply load_state in Hm as ->. by apply load_state in Hm0 as ->.
Qed.

Lemma CheckAndRepairLinkage_false p st st1 :
  CheckAndRepairLinkage p st = Done false st1 →
  st1 = st ∧ ∃ r, load p st = Done r st.
Proof.
  unfold CheckAndRepairLinkage. intros Hc. inv_bind.
  pose proof Hm as Hl.
  apply load_state in Hm as ->.
  apply CheckPrevLinkage_state in Hm0 as ->.
  apply CheckNextLinkage_state in Hm1 as ->.
  destruct a0, a1; inv_bind; eauto.
Qed.

Lemma addUnlinkedRecord_eq p st :
  rebuilder_thread_cache_ (rb st) ≠ [] →
  addUnlinkedRecord p st = Done () (queue_unlinked p st).
Proof.
  intros Hc. unfold addUnlinkedRecord, bind, thread_cache_index.
  rewrite decide_False; [done|]. by destruct (rebuilder_thread_cache_ (rb st)).
Qed.

Lemma PurgeAndFree_eq p st r :
  load p st = Done r st → PurgeAndFree p st = Done () (purged p r st).
Proof.
  intros Hl. unfold PurgeAndFree, Destroy, update_record, store.
  rewrite (bind_eq _ _ _ _ _ Hl). unfold bind at 1. unfold bind at 1. rewrite Hl.
  done.
Qed.

Lemma keeps_mapped_refl st : keeps_mapped st st.
Proof. by intros q. Qed.
Lemma keeps_mapped_trans st1 st2 st3 :
  keeps_mapped st1 st2 → keeps_mapped st2 st3 → keeps_mapped st1 st3.
Proof. intros H12 H23 q Hq. by apply H23, H12. Qed.

Lemma load_mapped st p : mapped st p → ∃ r, load p st = Done r st.
Proof. intros [Hp [r Hr]]. exists r. by apply load_eq. Qed.
Lemma mapped_load st p r st' : load p st = Done r st' → mapped st p.
Proof. intros Hl. apply load_done in Hl as (_ & Hp & Hr). by split. Qed.

Lemma update_record_eq p f st r :
  load p st = Done r st →
  update_record p f st = Done () (on_engine (set_pmem <[p := f r]>) st).
Proof. intros Hl. unfold update_record. by rewrite (bind_eq _ _ _ _ _ Hl). Qed.

Lemma keeps_mapped_store st p x : keeps_mapped st (on_engine (set_pmem <[p := x]>) st).
Proof.
  intros q [Hq Hs]. split; [done|]. simpl.
  destruct (decide (p = q)) as [->|Hne].
  - rewrite lookup_insert_eq. eauto.
  - by rewrite lookup_insert_ne.
Qed.

Lemma update_record_mapped p f st :
  mapped st p →
  ∃ st', update_record p f st = Done () st' ∧ keeps_mapped st st' ∧ rb st' = rb st.
Proof.
  intros Hp. destruct (load_mapped _ _ Hp) as [r Hr].
  eexists. split; [by apply update_record_eq|]. split; [apply keeps_mapped_store|done].
Qed.

Lemma CheckPrevLinkage_true_mapped p st : 
  CheckPrevLinkage p st = Done true st → ∃ r, load p st = Done r st ∧ mapped st (prev r).
Proof.
  unfold CheckPrevLinkage. intros Hc. inv_bind.
  pose proof (load_state _ _ _ _ Hm) as ->.
  exists a. split; [done|]. by eapply mapped_load.
Qed.

Lemma Skiplist_Remove_linked p st r :
  load p st = Done r st → CheckPrevLinkage p st = Done true st → mapped st (next r) →
  ∃ st1, Skiplist_Remove p st = Done true st1 ∧ keeps_mapped st st1 ∧ rb st1 = rb st.
Proof.
  intros Hl Hc Hn. unfold Skiplist_Remove.
  rewrite (bind_eq _ _ _ _ _ Hl), (bind_eq _ _ _ _ _ Hc). cbv beta iota.
  destruct (CheckPrevLinkage_true_mapped _ _ Hc) as (r' & Hl' & Hp).
  assert (r' = r) as -> by congruence.
  unfold PersistPrevNT, PersistNextNT.
  destruct (update_record_mapped (next r) (with_prev (prev r)) st Hn) as (st1 & Hu1 & Hk1 & Hrb1).
  rewrite (bind_eq _ _ _ _ _ Hu1).
  destruct (update_record_mapped (prev r) (with_next (next r)) st1 (Hk1 _ Hp)) as (st2 & Hu2 & Hk2 & Hrb2).
  rewrite (bind_eq _ _ _ _ _ Hu2).
  exists st2. split; [done|]. split; [by eapply keeps_mapped_trans|congruence].
Qed.

Lemma Skiplist_Replace_linked p q st r :
  load p st = Done r st → CheckPrevLinkage p st = Done true st →
  mapped st (next r) → mapped st q →
  ∃ st1, Skiplist_Replace p q st = Done true st1 ∧ keeps_mapped st st1 ∧ rb st1 = rb st.
Proof.
  intros Hl Hc Hn Hq. unfold Skiplist_Replace.
  rewrite (bind_eq _ _ _ _ _ Hl), (bind_eq _ _ _ _ _ Hc). cbv beta iota.
  destruct (CheckPrevLinkage_true_mapped _ _ Hc) as (r' & Hl' & Hp).
  assert (r' = r) as -> by congruence.
  unfold PersistPrevNT, PersistNextNT, addr2offset.
  destruct (decide (prev r = p)) as [Hself|Hself].
  - destruct (update_record_mapped q (with_prev q) st Hq) as (st1 & Hu1 & Hk1 & Hrb1).
    destruct (update_record_mapped q (with_next q) st1 (Hk1 _ Hq)) as (st2 & Hu2 & Hk2 & Hrb2).
    exists st2. split; [|split; [by eapply keeps_mapped_trans|congruence]].
    erewrite bind_eq; [reflexivity|].
    rewrite (bind_eq _ _ _ _ _ Hu1). exact Hu2.
  - destruct (update_record_mapped q (with_prev (prev r)) st Hq) as (st1 & Hu1 & Hk1 & Hrb1).
    destruct (update_record_mapped q (with_next (next r)) st1 (Hk1 _ Hq)) as (st2 & Hu2 & Hk2 & Hrb2).
    destruct (update_record_mapped (prev r) (with_next q) st2 (Hk2 _ (Hk1 _ Hp))) as (st3 & Hu3 & Hk3 & Hrb3).
    destruct (update_record_mapped (next r) (with_prev q) st3 (Hk3 _ (Hk2 _ (Hk1 _ Hn)))) as (st4 & Hu4 & Hk4 & Hrb4).
    exists st4. split; [|split; [|congruence]].
    + erewrite bind_eq; [reflexivity|].
      rewrite (bind_eq _ _ _ _ _ Hu1), (bind_eq _ _ _ _ _ Hu2), (bind_eq _ _ _ _ _ Hu3). exact Hu4.
    + intros x Hx. auto.
Qed.

Lemma CheckPrevLinkage_mapped p st r :
  load p st = Done r st → mapped st (prev r) →
  ∃ b, CheckPrevLinkage p st = Done b st.
Proof.
  intros Hl Hp. destruct (load_mapped _ _ Hp) as [pr Hpr].
  unfold CheckPrevLinkage. rewrite (bind_eq _ _ _ _ _ Hl), (bind_eq _ _ _ _ _ Hpr). eauto.
Qed.
Lemma CheckNextLinkage_mapped p st r :
  load p st = Done r st → mapped st (next r) →
  ∃ b, CheckNextLinkage p st = Done b st.
Proof.
  intros Hl Hp. destruct (load_mapped _ _ Hp) as [pr Hpr].
  unfold CheckNextLinkage. rewrite (bind_eq _ _ _ _ _ Hl), (bind_eq _ _ _ _ _ Hpr). eauto.
Qed.

Lemma Destroy_mapped p st :
  mapped st p →
  ∃ st' r, Destroy p st = Done () st' ∧ load p st = Done r st ∧
           pmem (kv_engine_ st') = <[p := with_destroyed r]> (pmem (kv_engine_ st)) ∧
           rb st' = rb st.
Proof.
  intros Hp. destruct (load_mapped _ _ Hp) as [r Hr].
  exists (on_engine (set_pmem <[p := with_destroyed r]>) st), r.
  split; [by apply update_record_eq|done].
Qed.

Lemma offset2addr_checked_mapped o st :
  mapped st o → offset2addr_checked o st = Done o st.
Proof.
  intros Ho. unfold offset2addr_checked.
  rewrite (bind_eq _ _ _ () st); [done|].
  apply assert_true. intros _. unfold gets. by rewrite bool_decide_eq_true_2.
Qed.

Lemma load_record_at st p r : record_at st p = Some r → load p st = Done r st.
Proof. unfold record_at, load. case_decide; [done|]. by intros ->. Qed.

Lemma record_at_null st : record_at st kNullPMemOffset = None.
Proof. unfold record_at. by rewrite decide_True. Qed.

Lemma walk_at_null fuel p id st :
  findCheckpointVersion_walk (S fuel) p id kNullPMemOffset st = Done kNullPMemOffset st.
Proof. simpl. unfold andM, bind, ret. by rewrite bool_decide_eq_false_2 by naive_solver. Qed.

Lemma walk_stop fuel p id curr r st :
  record_at st curr = Some r → GetTimestamp r ≤ checkpoint_ts (rb st) →
  findCheckpointVersion_walk (S fuel) p id curr st = Done curr st.
Proof.
  intros Hr Hts. simpl. unfold andM, bind, ret.
  assert (curr ≠ kNullPMemOffset) by (intros ->; by rewrite record_at_null in Hr).
  rewrite bool_decide_eq_true_2 by done.
  rewrite (load_record_at _ _ _ Hr). unfold CheckpointTS, gets.
  by rewrite (proj2 (N.ltb_ge _ _) Hts).
Qed.

Lemma walk_step fuel p input id curr r st :
  record_at st p = Some input →
  record_at st curr = Some r → checkpoint_ts (rb st) < GetTimestamp r →
  (old_version r ≠ kNullPMemOffset →
     ∃ r', record_at st (old_version r) = Some r' ∧ older_version_checked input r') →
  findCheckpointVersion_walk (S fuel) p id curr st =
  findCheckpointVersion_walk fuel p id
    (match record_at st (old_version r) with
     | Some r' => if decide (FetchID r' ≠ id) then kNullPMemOffset else old_version r
     | None => old_version r
     end) st.
Proof.
  intros Hin Hr Hts Hold. simpl.
  assert (curr ≠ kNullPMemOffset) by (intros ->; by rewrite record_at_null in Hr).
  erewrite bind_eq with (a := true) (st' := st); last first.
  { unfold andM, bind, ret. rewrite bool_decide_eq_true_2 by done.
    rewrite (load_record_at _ _ _ Hr). unfold CheckpointTS, gets.
    by rewrite (proj2 (N.ltb_lt _ _) Hts). }
  cbv beta iota. rewrite (bind_eq _ _ _ _ _ (load_record_at _ _ _ Hr)). cbv beta zeta.
  unfold offset2addr.
  destruct (decide (old_version r = kNullPMemOffset)) as [Hnull|Hnn].
  - rewrite Hnull, record_at_null.
    erewrite bind_eq with (st' := st); last first.
    { apply kvdk_assert_true. intros _. unfold orM, bind, ret.
      by rewrite bool_decide_eq_true_2. }
    erewrite bind_eq with (st' := st); last first.
    { apply kvdk_assert_true. intros _. unfold orM, bind, ret.
      by rewrite bool_decide_eq_true_2. }
    erewrite bind_eq with (a := false) (st' := st); [done|].
    unfold andM, bind, ret. by rewrite bool_decide_eq_false_2 by naive_solver.
  - destruct (Hold Hnn) as (r' & Hr' & Hchk). rewrite Hr'.
    pose proof (load_record_at _ _ _ Hr') as Hl'.
    erewrite bind_eq with (st' := st); last first.
    { apply kvdk_assert_true. intros Hd. unfold orM, bind, ret.
      rewrite bool_decide_eq_false_2 by done. rewrite Hl'.
      by rewrite (proj1 (Hchk Hd)). }
    erewrite bind_eq with (st' := st); last first.
    { apply kvdk_assert_true. intros Hd. unfold orM, bind, ret.
      rewrite bool_decide_eq_false_2 by done. rewrite Hl'.
      rewrite (load_record_at _ _ _ Hin). unfold equal_string_view.
      by rewrite bool_decide_eq_true_2 by apply (Hchk Hd). }
    erewrite bind_eq with (a := bool_decide (FetchID r' ≠ id)) (st' := st); last first.
    { unfold andM, bind, ret. rewrite bool_decide_eq_true_2 by done. by rewrite Hl'. }
    cbv beta. by case_bool_decide; case_decide.
Qed.

Lemma walk_spec p input st n :
  record_at st p = Some input →
  ∀ fuel curr, (n < fuel)%nat →
  (∀ i, (i < n)%nat →
     ∃ r, record_at st (ancestor st curr i) = Some r ∧
          checkpoint_ts (rb st) < GetTimestamp r ∧
          ((0 < i)%nat → FetchID r = FetchID input ∧ older_version_checked input r)) →
  let q := ancestor st curr n in
  let result := findCheckpointVersion_walk fuel p (FetchID input) curr st in
  (q = kNullPMemOffset → result = Done kNullPMemOffset st) ∧
  (∀ r, record_at st q = Some r →
     ((0 < n)%nat → older_version_checked input r) →
     ((0 < n)%nat ∧ FetchID r ≠ FetchID input → result = Done kNullPMemOffset st) ∧
     ((n = 0%nat ∨ FetchID r = FetchID input) →
        GetTimestamp r ≤ checkpoint_ts (rb st) → result = Done q st)).
Proof.
  intros Hin. induction n as [|n IH]; intros fuel curr Hfuel Hpast q result.
  - destruct fuel as [|fuel]; [lia|]. subst q result. simpl. split.
    + intros ->. apply walk_at_null.
    + intros r Hr _. split; [lia|]. intros _ Hts. by eapply walk_stop.
  - destruct fuel as [|fuel]; [lia|].
    destruct (Hpast 0%nat ltac:(lia)) as (r0 & Hr0 & Hts0 & _). simpl in Hr0.
    subst q result. simpl ancestor. rewrite Hr0. unfold offset2addr.
    destruct n as [|n].
    + (* the next hop is the last one *)
      simpl ancestor. split.
      * intros Hnull.
        rewrite (walk_step fuel p input _ curr r0 st Hin Hr0 Hts0); [|by intros ?].
        rewrite Hnull, record_at_null.
        destruct fuel as [|fuel]; [lia|]. apply walk_at_null.
      * intros r Hr Hchk.
        rewrite (walk_step fuel p input _ curr r0 st Hin Hr0 Hts0); last first.
        { intros _. exists r. split; [done|]. apply Hchk. lia. }
        rewrite Hr. destruct fuel as [|fuel]; [lia|]. split.
        -- intros [_ Hid]. rewrite decide_True by done. apply walk_at_null.
        -- intros [?|Hid] Hts; [lia|]. rewrite decide_False by (intros ?; contradiction).
           by eapply walk_stop.
    + (* the next hop is passed over as well *)
      destruct (Hpast 1%nat ltac:(lia)) as (r1 & Hr1 & Hts1 & Hchk1).
      destruct (Hchk1 ltac:(lia)) as [Hid1 Hchk1'].
      simpl in Hr1. rewrite Hr0 in Hr1. unfold offset2addr in Hr1.
      rewrite (walk_step fuel p input _ curr r0 st Hin Hr0 Hts0); last first.
      { intros _. by exists r1. }
      rewrite Hr1. rewrite decide_False by (intros ?; contradiction).
      destruct (IH fuel (old_version r0)) as [IH1 IH2]; [lia| |].
      { intros i Hi. destruct (Hpast (S i) ltac:(lia)) as (r & Hr & Hts & Hchk).
        simpl in Hr. rewrite Hr0 in Hr. exists r. split_and!; [done..|].
        intros _. apply Hchk. lia. }
      split; [exact IH1|].
      intros r Hr Hchk. destruct (IH2 r Hr) as [IH3 IH4]; [by intros; apply Hchk; lia|].
      split.
      * intros [_ Hid]. apply IH3. split; [lia|done].
      * intros [?|Hid] Hts; [lia|]. apply IH4; [by right|done].
Qed.

Lemma CheckAndRepairLinkage_mapped p st r :
  load p st = Done r st → mapped st (prev r) → mapped st (next r) →
  ∃ b st1, CheckAndRepairLinkage p st = Done b st1 ∧ keeps_mapped st st1 ∧
           rb st1 = rb st ∧ this_thread_id (kv_engine_ st1) = this_thread_id (kv_engine_ st).
Proof.
  intros Hl Hp Hn.
  destruct (CheckPrevLinkage_mapped _ _ _ Hl Hp) as [b1 Hc1].
  destruct (CheckNextLinkage_mapped _ _ _ Hl Hn) as [b2 Hc2].
  unfold CheckAndRepairLinkage.
  rewrite (bind_eq _ _ _ _ _ Hl), (bind_eq _ _ _ _ _ Hc1), (bind_eq _ _ _ _ _ Hc2).
  cbv beta. unfold PersistPrevNT, PersistNextNT.
  destruct b1, b2.
  - exists true, st. split_and!; [done|apply keeps_mapped_refl|done..].
  - destruct (load_mapped _ _ Hn) as [rn Hrn].
    rewrite (bind_eq _ _ _ _ _ (update_record_eq _ _ _ _ Hrn)).
    eexists _, _. split_and!; [done|apply keeps_mapped_store|done..].
  - destruct (load_mapped _ _ Hp) as [rn Hrn].
    rewrite (bind_eq _ _ _ _ _ (update_record_eq _ _ _ _ Hrn)).
    eexists _, _. split_and!; [done|apply keeps_mapped_store|done..].
  - exists false, st. split_and!; [done|apply keeps_mapped_refl|done..].
Qed.

Lemma intake_unlinked_returns record st :
  mapped st record → rebuilder_thread_cache_ (rb st) ≠ [] →
  ∃ st', (to_checkpoint ← recoverToCheckpoint;
          if negb to_checkpoint then PurgeAndFree record
          else addUnlinkedRecord record) st = Done () st'.
Proof.
  intros Hm Hc. destruct (load_mapped _ _ Hm) as [r Hl].
  unfold recoverToCheckpoint, CheckpointTS, gets, ret, bind at 1, bind at 1.
  destruct (0 <? checkpoint_ts (rb st)); simpl.
  - rewrite addUnlinkedRecord_eq by done. eauto.
  - rewrite (PurgeAndFree_eq _ _ _ Hl). eauto.
Qed.

Lemma orM_ret (b : bool) (m : M bool) st :
  orM (ret b) m st = if b then Done true st else m st.
Proof. by destruct b. Qed.
Lemma andM_ret (b : bool) (m : M bool) st :
  andM (ret b) m st = if b then m st else Done false st.
Proof. by destruct b. Qed.

Lemma insertHashIndex_eval key index_ptr index_type st r :
  index_target index_ptr index_type st = Done r st →
  (0 < KVDK_DEBUG_LEVEL → GetRecordType r = index_record_type index_type) →
  let result := HashTable_Insert (hash_table_ (kv_engine_ st)) key
                  (index_record_type index_type) (GetRecordStatus r)
                  index_ptr index_type in
  insertHashIndex key index_ptr index_type st
    = Done (insert_status result.1) (on_engine (set_hash_table (λ _, result.2)) st).
Proof.
  intros Ht Hty result.
  unfold insertHashIndex.
  erewrite bind_eq with (a := (index_record_type index_type, GetRecordStatus r)) (st' := st).
  - unfold bind, gets, modify; simpl. fold result. by destruct (result.1).
  - destruct index_type; simpl in *.
    + rewrite (bind_eq _ _ _ _ _ Ht).
      erewrite bind_eq; [done|]. apply kvdk_assert_true. intros Hd.
      unfold ret. by rewrite bool_decide_eq_true_2; auto.
    + unfold bind in Ht |- *.
      destruct (load_node index_ptr st) as [node st1|] eqn:E1; [|done].
      apply load_node_state in E1 as ->. rewrite Ht.
      rewrite kvdk_assert_true; [done|]. intros Hd.
      unfold ret. by rewrite bool_decide_eq_true_2; auto.
    + unfold bind in Ht |- *.
      destruct (HeaderRecord index_ptr st) as [hr st1|] eqn:E1; [|done].
      assert (st1 = st) as ->.
      { unfold HeaderRecord, HeaderNode, bind, ret in E1.
        destruct (load_skiplist index_ptr st) as [sl st2|] eqn:E2; [|done].
        apply load_skiplist_state in E2 as ->.
        destruct (load_node (header_ sl) st) as [n st2|] eqn:E3; [|done].
        apply load_node_state in E3 as ->. by simplify_eq. }
      rewrite Ht. rewrite kvdk_assert_true; [done|]. intros Hd.
      unfold ret. by rewrite bool_decide_eq_true_2; auto.
    + done.
Qed.

Lemma Skiplist_new_eq header_record name id comparator with_hash st :
  Skiplist_new header_record name id comparator with_hash st =
  Done (N.succ (N.succ (next_addr (kv_engine_ st))))
       (with_new_skiplist header_record name id comparator with_hash st).
Proof. reflexivity. Qed.


Lemma only_pmem_refl st : only_pmem st st.
Proof. exists (pmem (kv_engine_ st)). by destruct st as [[] ?]. Qed.
Lemma only_pmem_trans st1 st2 st3 :
  only_pmem st1 st2 → only_pmem st2 st3 → only_pmem st1 st3.
Proof. intros [m1 ->] [m2 ->]. by exists m2. Qed.
Lemma update_record_only_pmem p f st u st' :
  update_record p f st = Done u st' → only_pmem st st'.
Proof.
  unfold update_record, store. intros Hu. inv_bind.
  apply load_state in Hm as ->. eexists. by destruct st as [[] ?].
Qed.
Lemma CheckPrevLinkage_only_pmem p st b st' :
  CheckPrevLinkage p st = Done b st' → only_pmem st st'.
Proof. intros Hc. apply CheckPrevLinkage_state in Hc as ->. apply only_pmem_refl. Qed.

Lemma Skiplist_Replace_only_pmem p q st b st' :
  Skiplist_Replace p q st = Done b st' → only_pmem st st'.
Proof.
  unfold Skiplist_Replace, PersistPrevNT, PersistNextNT. intros Hr. inv_bind.
  apply load_state in Hm as ->. apply CheckPrevLinkage_state in Hm0 as ->.
  destruct a0; inv_bind; [|apply only_pmem_refl].
  case_decide; inv_bind;
    repeat match goal with
    | Hu : update_record _ _ _ = Done _ _ |- _ => apply update_record_only_pmem in Hu
    end; eauto using only_pmem_trans.
Qed.

Lemma swapped_in_frame h v st1 st2 :
  swapped_in h v st1 st2 →
  hash_table_ (kv_engine_ st2) = hash_table_ (kv_engine_ st1) ∧
  next_addr (kv_engine_ st2) = next_addr (kv_engine_ st1) ∧
  rebuild_skiplits_ (rb st2) = rebuild_skiplits_ (rb st1) ∧
  invalid_skiplists_ (rb st2) = invalid_skiplists_ (rb st1) ∧
  recovery_segments_ (rb st2) = recovery_segments_ (rb st1) ∧
  segment_based_rebuild_ (rb st2) = segment_based_rebuild_ (rb st1).
Proof.
  intros [[-> ->]|(Hne & success & st' & Hrep & Hok & Hcache & ->)]; [done|].
  apply Skiplist_Replace_only_pmem in Hrep as [m ->]. done.
Qed.

Lemma load_skiplist_eq s st sl :
  s ≠ nullptr → skiplists (kv_engine_ st) !! s = Some sl → load_skiplist s st = Done sl st.
Proof. intros Hs Hsl. unfold load_skiplist. rewrite decide_False by done. by rewrite Hsl. Qed.
Lemma load_node_eq n st node :
  n ≠ nullptr → dram (kv_engine_ st) !! n = Some node → load_node n st = Done node st.
Proof. intros Hn Hnode. unfold load_node. rewrite decide_False by done. by rewrite Hnode. Qed.

Lemma HeaderNode_eq s st sl :
  s ≠ nullptr → skiplists (kv_engine_ st) !! s = Some sl →
  HeaderNode s st = Done (header_ sl) st.
Proof.
  intros Hs Hsl. unfold HeaderNode. by rewrite (bind_eq _ _ _ _ _ (load_skiplist_eq _ _ _ Hs Hsl)).
Qed.
Lemma Name_eq s st sl :
  s ≠ nullptr → skiplists (kv_engine_ st) !! s = Some sl → Name s st = Done (name_ sl) st.
Proof.
  intros Hs Hsl. unfold Name. by rewrite (bind_eq _ _ _ _ _ (load_skiplist_eq _ _ _ Hs Hsl)).
Qed.
Lemma HeaderRecord_eq s st sl node :
  s ≠ nullptr → skiplists (kv_engine_ st) !! s = Some sl →
  header_ sl ≠ nullptr → dram (kv_engine_ st) !! header_ sl = Some node →
  HeaderRecord s st = Done (record node) st.
Proof.
  intros Hs Hsl Hn Hnode. unfold HeaderRecord.
  rewrite (bind_eq _ _ _ _ _ (HeaderNode_eq _ _ _ Hs Hsl)). cbv beta.
  by rewrite (bind_eq _ _ _ _ _ (load_node_eq _ _ _ Hn Hnode)).
Qed.

Lemma resolve_header_prefix fuel header_record st hr id s_configs v :
  load header_record st = Done hr st →
  DecodeSortedCollectionValue (Value hr) = (Status.Ok, id, s_configs) →
  comparator_name s_configs ∈ comparators_ (kv_engine_ st) →
  let st1 := on_rebuilder (set_max_recovered_id (λ m, N.max m id)) st in
  findCheckpointVersion fuel header_record st1 = Done v st1 →
  resolve_header fuel header_record st =
  (let collection_name := Key hr in
   let comparator := comparator_name s_configs in
   let valid_version_record := v in
      no_version ← orM (ret (bool_decide (valid_version_record = kNullPMemOffset)))
                       (v ← load valid_version_record; ret (bool_decide (FetchID v ≠ id)));
      if no_version then
        skiplist ← Skiplist_new header_record collection_name id comparator false;
        modify (on_rebuilder (set_invalid_skiplists <[id := skiplist]>));;
        ret None
      else
        (if decide (valid_version_record ≠ header_record) then
           success ← Skiplist_Replace header_record valid_version_record;
           kvdk_assert (ret success);;
           addUnlinkedRecord header_record
         else ret ());;
        v ← load valid_version_record;
        let outdated :=
          bool_decide (GetRecordStatus v = RecordStatus.Outdated) || HasExpired v in
        if outdated then
          skiplist ← Skiplist_new valid_version_record collection_name id comparator false;
          modify (on_rebuilder (set_invalid_skiplists <[id := skiplist]>));;
          ret None
        else
          skiplist ← Skiplist_new valid_version_record collection_name id comparator
                                  (index_with_hashtable s_configs);
          modify (on_rebuilder (set_rebuild_skiplits <[id := skiplist]>));;
          segment_based ← gets (λ st, segment_based_rebuild_ (rb st));
          (if segment_based then h ← HeaderNode skiplist; addRecoverySegment h
           else ret ());;
          PersistOldVersion valid_version_record kNullPMemOffset;;
          name ← Name skiplist;
          s ← insertHashIndex name skiplist PointerType.Skiplist;
          if decide (s ≠ Status.Ok) then ret (Some s) else ret None) st1.
Proof.
  intros Hl Hdec Hcmp st1 Hv. unfold resolve_header.
  rewrite (bind_eq _ _ _ _ _ Hl). cbv beta zeta. rewrite Hdec.
  rewrite decide_False by naive_solver.
  unfold GetComparator. unfold gets at 1. unfold bind at 1.
  rewrite decide_True by done.
  unfold modify at 1. unfold bind at 1, bind at 1. fold st1. rewrite Hv. done.
Qed.

Lemma lookup_with_new_skiplist header_record name id comparator with_hash st :
  let st' := with_new_skiplist header_record name id comparator with_hash st in
  let node := N.succ (next_addr (kv_engine_ st)) in
  skiplists (kv_engine_ st') !! N.succ node =
    Some (mkSkiplist node name id comparator 0 with_hash) ∧
  dram (kv_engine_ st') !! node = Some (mkNode header_record kMaxHeight ∅) ∧
  pmem (kv_engine_ st') = pmem (kv_engine_ st) ∧
  hash_table_ (kv_engine_ st') = hash_table_ (kv_engine_ st) ∧
  rb st' = rb st.
Proof. simpl. by rewrite !lookup_insert_eq. Qed.

(** C8. A candidate whose linkage [CheckAndRepairLinkage] cannot repair is,
    by [AddHeader] as by [AddElement], appended to the unlinked list of the
    calling worker and not freed when the checkpoint timestamp is greater
    than zero, and purged with its extent returned to the allocator
    otherwise; in both cases [linked_headers_] and [recovery_segments_] are
    left as they were. *)
Theorem unrepairable_candidate (record : PMemOffsetType) (fuel : nat) (st st1 : State) (r : DLRecord) :
  pmem (kv_engine_ st) !! record = Some r →
  CheckAndRepairLinkage record st = Done false st1 →
  (0 < checkpoint_ts (rb st) → rebuilder_thread_cache_ (rb st) ≠ []) →
  let st' := if 0 <? checkpoint_ts (rb st) then queue_unlinked record st
             else purged record r st in
  ((NDEBUG = false → GetRecordType r = RecordType.SortedRecord) →
     AddHeader record st = Done Status.Ok st') ∧
  ((0 < KVDK_DEBUG_LEVEL → GetRecordType r = RecordType.SortedElem) →
     AddElement fuel record st = Done Status.Ok st') ∧
  linked_headers_ (rb st') = linked_headers_ (rb st) ∧
  recovery_segments_ (rb st') = recovery_segments_ (rb st) ∧
  (0 < checkpoint_ts (rb st) →
     kv_engine_ st' = kv_engine_ st ∧
     ∃ i c, rebuilder_thread_cache_ (rb st) !! i = Some c ∧
            i = (N.to_nat (this_thread_id (kv_engine_ st))
                   mod length (rebuilder_thread_cache_ (rb st)))%nat ∧
            rebuilder_thread_cache_ (rb st') =
              <[i := mkThreadCache (visited_skiplists c) (unlinked_records c ++ [record])]>
                (rebuilder_thread_cache_ (rb st))) ∧
  (checkpoint_ts (rb st) = 0 →
     rb st' = rb st ∧
     pmem (kv_engine_ st') = <[record := with_destroyed r]> (pmem (kv_engine_ st)) ∧
     free_list (kv_engine_ st') =
       free_list (kv_engine_ st) ++ [mkSpaceEntry record (GetRecordSize r)]).
Proof.
  intros Hr Hc Hcache st'.
  destruct (CheckAndRepairLinkage_false _ _ _ Hc) as [Heq [r' Hl]]. subst st1.
  assert (r' = r) as ->.
  { destruct (load_done _ _ _ _ Hl) as (_ & _ & ?). congruence. }
  assert (Hrtc : recoverToCheckpoint st = Done (0 <? checkpoint_ts (rb st)) st) by done.
  assert (Hfin : (if negb (0 <? checkpoint_ts (rb st)) then PurgeAndFree record
                  else addUnlinkedRecord record) st = Done () st').
  { subst st'. destruct (0 <? checkpoint_ts (rb st)) eqn:E; simpl.
    - apply addUnlinkedRecord_eq, Hcache. by apply N.ltb_lt.
    - by apply PurgeAndFree_eq. }
  split_and!.
  - intros Hty. unfold AddHeader.
    erewrite bind_eq; last first.
    { apply assert_true. intros Hd. rewrite (bind_eq _ _ _ _ _ Hl).
      unfold ret. by rewrite bool_decide_eq_true_2; auto. }
    rewrite (bind_eq _ _ _ _ _ Hc). simpl.
    rewrite (bind_eq _ _ _ _ _ Hrtc). cbv beta.
    rewrite (bind_eq _ _ _ _ _ Hfin). reflexivity.
  - intros Hty. unfold AddElement.
    erewrite bind_eq; last first.
    { apply kvdk_assert_true. intros Hd. rewrite (bind_eq _ _ _ _ _ Hl).
      unfold ret. by rewrite bool_decide_eq_true_2; auto. }
    rewrite (bind_eq _ _ _ _ _ Hc). simpl.
    erewrite bind_eq; [reflexivity|].
    rewrite (bind_eq _ _ _ _ _ Hrtc). cbv beta. exact Hfin.
  - subst st'. destruct (0 <? checkpoint_ts (rb st)); reflexivity.
  - subst st'. destruct (0 <? checkpoint_ts (rb st)); reflexivity.
  - intros Hts. subst st'. rewrite (proj2 (N.ltb_lt _ _) Hts). split; [done|].
    specialize (Hcache Hts).
    set (i := (_ mod _)%nat).
    assert (Hi : (i < length (rebuilder_thread_cache_ (rb st)))%nat).
    { apply Nat.mod_upper_bound. by destruct (rebuilder_thread_cache_ (rb st)). }
    destruct (lookup_lt_is_Some_2 _ _ Hi) as [c Hc'].
    exists i, c. split_and!; [done..|]. simpl.
    unfold queue_unlinked. simpl. fold i.
    by rewrite (list_alter_as_insert _ _ _ _ Hc').
  - intros Hts. subst st'. rewrite Hts. simpl. done.
Qed.

Lemma Rollback_run (log : SortedLogEntry) (st : State) (r : DLRecord) :
  load (offset log) st = Done r st →
  mapped st (prev r) → mapped st (next r) →
  (old_version r = kNullPMemOffset ∨ mapped st (old_version r)) →
  ∃ (linked : bool) (st1 st' : State) (r' : DLRecord),
    CheckPrevLinkage (offset log) st = Done linked st ∧
    (if Validate r && linked then
       if decide (old_version r = kNullPMemOffset)
       then Skiplist_Remove (offset log) st = Done true st1
       else Skiplist_Replace (offset log) (old_version r) st = Done true st1
     else st1 = st) ∧
    Destroy (offset log) st1 = Done () st' ∧
    Rollback log st = Done Status.Ok st' ∧
    pmem (kv_engine_ st') !! offset log = Some r' ∧ destroyed r' = true.
Proof.
  intros Hl Hp Hn Hold.
  pose proof (mapped_load _ _ _ _ Hl) as He.
  destruct (CheckPrevLinkage_mapped _ _ _ Hl Hp) as [linked Hc].
  assert (Hmid : ∃ st1, keeps_mapped st st1 ∧
    (if Validate r && linked then
       if decide (old_version r = kNullPMemOffset)
       then Skiplist_Remove (offset log) st = Done true st1
       else Skiplist_Replace (offset log) (old_version r) st = Done true st1
     else st1 = st)).
  { destruct (Validate r && linked) eqn:E.
    - apply andb_true_iff in E as [_ ->].
      destruct (decide (old_version r = kNullPMemOffset)) as [Ho|Ho].
      + destruct (Skiplist_Remove_linked _ _ _ Hl Hc Hn) as (st1 & ? & ? & _). eauto.
      + destruct Hold as [?|Hold]; [done|].
        destruct (Skiplist_Replace_linked _ _ _ _ Hl Hc Hn Hold) as (st1 & ? & ? & _). eauto.
    - exists st. split; [apply keeps_mapped_refl|done]. }
  destruct Hmid as (st1 & Hk & Hmid).
  destruct (Destroy_mapped _ _ (Hk _ He)) as (st' & r1 & Hd & _ & Hpm & _).
  exists linked, st1, st', (with_destroyed r1).
  split_and!; [done..| |by rewrite Hpm, lookup_insert_eq|done].
  unfold Rollback.
  rewrite (bind_eq _ _ _ _ _ (offset2addr_checked_mapped _ _ He)). cbv beta.
  erewrite bind_eq with (a := Validate r && linked) (st' := st); last first.
  { unfold andM, bind, ret. rewrite Hl.
    destruct (Validate r); [by rewrite Hc|done]. }
  cbv beta.
  erewrite (bind_eq _ _ _ () st1); [by rewrite (bind_eq _ _ _ _ _ Hd)|].
  destruct (Validate r && linked).
  - rewrite (bind_eq _ _ _ _ _ Hl).
    destruct (decide (old_version r = kNullPMemOffset)) as [Ho|Ho].
    + rewrite decide_False by naive_solver.
      rewrite (bind_eq _ _ _ _ _ Hmid). by apply kvdk_assert_true.
    + rewrite decide_True by done. destruct Hold as [?|Hold]; [done|].
      rewrite (bind_eq _ _ _ _ _ (offset2addr_checked_mapped _ _ Hold)). cbv beta.
      rewrite (bind_eq _ _ _ _ _ Hmid). by apply kvdk_assert_true.
  - by subst.
Qed.

(** C7. [Rollback] loads the element at the offset of the log entry.  When
    the element validates and its prev linkage is intact, it is removed from
    the list by [Skiplist::Remove] if its old version is null and replaced by
    its old-version record by [Skiplist::Replace] otherwise; in every case the
    element is destroyed before [Rollback] returns Ok. *)
Theorem Rollback_spec (log : SortedLogEntry) (st : State) (r : DLRecord) :
  load (offset log) st = Done r st →
  mapped st (prev r) → mapped st (next r) →
  (old_version r = kNullPMemOffset ∨ mapped st (old_version r)) →
  ∃ (linked : bool) (st1 st' : State) (r' : DLRecord),
    CheckPrevLinkage (offset log) st = Done linked st ∧
    (if Validate r && linked then
       if decide (old_version r = kNullPMemOffset)
       then Skiplist_Remove (offset log) st = Done true st1
       else Skiplist_Replace (offset log) (old_version r) st = Done true st1
     else st1 = st) ∧
    Destroy (offset log) st1 = Done () st' ∧
    Rollback log st = Done Status.Ok st' ∧
    pmem (kv_engine_ st') !! offset log = Some r' ∧ destroyed r' = true.
Proof. apply Rollback_run. Qed.

(** C4. For a header that survives deduplication, decodes and has a
    registered comparator: when [findCheckpointVersion] returns null or a
    record with another collection ID, an invalid skiplist bound to the
    original header is created with hash indexing disabled and stored in
    [invalid_skiplists_]; otherwise, once the visible version stands in for
    the header on media when they differ, an invalid skiplist bound to the
    visible record is created when that record is Outdated or expired, and
    else a rebuild skiplist is created with the [index_with_hashtable] flag of
    the decoded configs, the old version of the visible record is cleared to
    null and the skiplist is inserted into the hash index. *)
Theorem header_classification (fuel : nat) (header_record : PMemOffsetType)
    (st : State) (hr : DLRecord) (id : CollectionIDType)
    (s_configs : SortedCollectionConfigs) (v : PMemOffsetType) :
  load header_record st = Done hr st →
  DecodeSortedCollectionValue (Value hr) = (Status.Ok, id, s_configs) →
  comparator_name s_configs ∈ comparators_ (kv_engine_ st) →
  let st1 := on_rebuilder (set_max_recovered_id (λ m, N.max m id)) st in
  findCheckpointVersion fuel header_record st1 = Done v st1 →
  let bound_to (st' : State) (skiplist : NodePtr) (target : PMemOffsetType)
               (with_hash : bool) : Prop :=
    ∃ node, skiplists (kv_engine_ st') !! skiplist =
              Some (mkSkiplist node (Key hr) id (comparator_name s_configs) 0 with_hash) ∧
            dram (kv_engine_ st') !! node = Some (mkNode target kMaxHeight ∅) in
  ((v = kNullPMemOffset ∨ ∃ rv, record_at st1 v = Some rv ∧ FetchID rv ≠ id) →
     ∃ st' skiplist,
       resolve_header fuel header_record st = Done None st' ∧
       invalid_skiplists_ (rb st') !! id = Some skiplist ∧
       bound_to st' skiplist header_record false ∧
       rebuild_skiplits_ (rb st') = rebuild_skiplits_ (rb st) ∧
       hash_table_ (kv_engine_ st') = hash_table_ (kv_engine_ st) ∧
       pmem (kv_engine_ st') = pmem (kv_engine_ st)) ∧
  (∀ st2 rv1 rv,
     record_at st1 v = Some rv1 → FetchID rv1 = id →
     swapped_in header_record v st1 st2 → record_at st2 v = Some rv →
     (GetRecordStatus rv = RecordStatus.Outdated ∨ HasExpired rv = true →
        ∃ st' skiplist,
          resolve_header fuel header_record st = Done None st' ∧
          invalid_skiplists_ (rb st') !! id = Some skiplist ∧
          bound_to st' skiplist v false ∧
          rebuild_skiplits_ (rb st') = rebuild_skiplits_ (rb st) ∧
          hash_table_ (kv_engine_ st') = hash_table_ (kv_engine_ st) ∧
          pmem (kv_engine_ st') = pmem (kv_engine_ st2)) ∧
     (GetRecordStatus rv ≠ RecordStatus.Outdated → HasExpired rv = false →
      (0 < KVDK_DEBUG_LEVEL → GetRecordType rv = RecordType.SortedRecord) →
        ∃ st' skiplist,
          let result := HashTable_Insert (hash_table_ (kv_engine_ st)) (Key hr)
                          RecordType.SortedRecord (GetRecordStatus rv)
                          skiplist PointerType.Skiplist in
          resolve_header fuel header_record st =
            Done (if decide (insert_status result.1 = Status.Ok) then None
                  else Some (insert_status result.1)) st' ∧
          rebuild_skiplits_ (rb st') !! id = Some skiplist ∧
          bound_to st' skiplist v (index_with_hashtable s_configs) ∧
          invalid_skiplists_ (rb st') = invalid_skiplists_ (rb st) ∧
          pmem (kv_engine_ st') =
            <[v := with_old_version kNullPMemOffset rv]> (pmem (kv_engine_ st2)) ∧
          hash_table_ (kv_engine_ st') = result.2)).
Proof.
  intros Hl Hdec Hcmp st1 Hv bound_to. split.
  - intros Hno.
    rewrite (resolve_header_prefix _ _ _ _ _ _ _ Hl Hdec Hcmp Hv). cbv zeta.
    erewrite bind_eq with (a := true) (st' := st1); last first.
    { rewrite orM_ret. destruct Hno as [->|(rv & Hrv & Hid)].
      - by rewrite bool_decide_eq_true_2.
      - case_bool_decide; [done|].
        rewrite (bind_eq _ _ _ _ _ (load_record_at _ _ _ Hrv)).
        unfold ret. by rewrite bool_decide_eq_true_2. }
    cbv beta iota. rewrite (bind_eq _ _ _ _ _ (Skiplist_new_eq _ _ _ _ _ _)). cbv beta.
    eexists _, _. split; [reflexivity|].
    destruct (lookup_with_new_skiplist header_record (Key hr) id
                (comparator_name s_configs) false st1) as (Hs & Hd & Hp & Hh & Hrb).
    split_and!.
    + simpl. by rewrite lookup_insert_eq.
    + eexists. split; [exact Hs|exact Hd].
    + done.
    + done.
    + done.
  - intros st2 rv1 rv Hrv1 Hid Hswap Hrv.
    assert (Hvn : v ≠ kNullPMemOffset).
    { intros ->. by rewrite record_at_null in Hrv1. }
    pose proof (load_record_at _ _ _ Hrv1) as Hl1.
    pose proof (load_record_at _ _ _ Hrv) as Hl2.
    assert (Hswap' :
      (if decide (v ≠ header_record) then
         success ← Skiplist_Replace header_record v;
         kvdk_assert (ret success);;
         addUnlinkedRecord header_record
       else ret ()) st1 = Done () st2).
    { destruct Hswap as [[-> ->]|(Hne & success & st' & Hrep & Hok & Hcache & ->)].
      - by rewrite decide_False by naive_solver.
      - rewrite decide_True by done. rewrite (bind_eq _ _ _ _ _ Hrep). cbv beta.
        erewrite bind_eq with (st' := st'); last first.
        { apply kvdk_assert_true. intros Hd. by rewrite (Hok Hd). }
        by apply addUnlinkedRecord_eq. }
    rewrite (resolve_header_prefix _ _ _ _ _ _ _ Hl Hdec Hcmp Hv). cbv zeta.
    erewrite bind_eq with (a := false) (st' := st1); last first.
    { rewrite orM_ret. rewrite bool_decide_eq_false_2 by done.
      rewrite (bind_eq _ _ _ _ _ Hl1). unfold ret.
      by rewrite bool_decide_eq_false_2 by naive_solver. }
    cbv beta iota. rewrite (bind_eq _ _ _ _ _ Hswap'). cbv beta.
    rewrite (bind_eq _ _ _ _ _ Hl2). cbv beta zeta.
    split.
    + intros Hout.
      assert (bool_decide (GetRecordStatus rv = RecordStatus.Outdated) || HasExpired rv = true) as ->.
      { destruct Hout as [->| ->]; [done|]. apply orb_true_r. }
      rewrite (bind_eq _ _ _ _ _ (Skiplist_new_eq _ _ _ _ _ _)). cbv beta.
      eexists _, _. split; [reflexivity|].
      destruct (lookup_with_new_skiplist v (Key hr) id
                  (comparator_name s_configs) false st2) as (Hs & Hd & Hp & Hh & Hrb).
      split_and!.
      * simpl. by rewrite lookup_insert_eq.
      * eexists. split; [exact Hs|exact Hd].
      * destruct (swapped_in_frame _ _ _ _ Hswap) as (_ & _ & E & _). simpl. by rewrite E.
      * destruct (swapped_in_frame _ _ _ _ Hswap) as (E & _). simpl. by rewrite E.
      * done.
    + intros Hnorm Hexp Hty.
      assert (bool_decide (GetRecordStatus rv = RecordStatus.Outdated) || HasExpired rv = false) as ->.
      { rewrite Hexp. by rewrite bool_decide_eq_false_2. }
      rewrite (bind_eq _ _ _ _ _ (Skiplist_new_eq _ _ _ _ _ _)). cbv beta.
      set (node := N.succ (next_addr (kv_engine_ st2))).
      set (skiplist := N.succ node).
      set (sl := mkSkiplist node (Key hr) id (comparator_name s_configs) 0
                            (index_with_hashtable s_configs)).
      set (st3 := with_new_skiplist v (Key hr) id (comparator_name s_configs)
                    (index_with_hashtable s_configs) st2).
      destruct (lookup_with_new_skiplist v (Key hr) id (comparator_name s_configs)
                  (index_with_hashtable s_configs) st2) as (Hs & Hd & Hp & Hh & Hrb).
      fold node skiplist sl st3 in Hs, Hd, Hp, Hh, Hrb.
      unfold modify at 1. unfold bind at 1. unfold gets at 1. unfold bind at 1.
      set (st4 := on_rebuilder (set_rebuild_skiplits <[id := skiplist]>) st3).
      assert (Hsn : skiplist ≠ nullptr) by (unfold skiplist, nullptr; lia).
      assert (Hnn : node ≠ nullptr) by (unfold node, nullptr; lia).
      assert (Hseg : ∃ st5, (if segment_based_rebuild_ (rb st4)
                 then h ← HeaderNode skiplist; addRecoverySegment h else ret ()) st4
                = Done () st5 ∧ kv_engine_ st5 = kv_engine_ st4 ∧
                  rebuild_skiplits_ (rb st5) = rebuild_skiplits_ (rb st4) ∧
                  invalid_skiplists_ (rb st5) = invalid_skiplists_ (rb st4)).
      { destruct (segment_based_rebuild_ (rb st4)) eqn:Eseg; [|by exists st4].
        rewrite (bind_eq _ _ _ _ _ (HeaderNode_eq skiplist st4 sl Hsn Hs)). cbv beta.
        cbn [header_ sl]. unfold addRecoverySegment.
        unfold gets at 1. unfold bind at 1. rewrite Eseg.
        rewrite (bind_eq _ _ _ _ _ (load_node_eq node st4 _ Hnn Hd)).
        eexists. split; [reflexivity|done]. }
      destruct Hseg as (st5 & Hseg & Hkv5 & Hrb5 & Hinv5).
      rewrite (bind_eq _ _ _ _ _ Hseg). cbv beta.
      assert (Hl5 : load v st5 = Done rv st5).
      { apply load_eq; [done|]. rewrite Hkv5. simpl. unfold record_at in Hrv.
        by rewrite decide_False in Hrv. }
      unfold PersistOldVersion.
      rewrite (bind_eq _ _ _ _ _ (update_record_eq _ _ _ _ Hl5)). cbv beta.
      set (st6 := on_engine (set_pmem <[v := with_old_version kNullPMemOffset rv]>) st5).
      assert (Hs6 : skiplists (kv_engine_ st6) !! skiplist = Some sl).
      { simpl. by rewrite Hkv5. }
      assert (Hd6 : dram (kv_engine_ st6) !! node = Some (mkNode v kMaxHeight ∅)).
      { simpl. by rewrite Hkv5. }
      rewrite (bind_eq _ _ _ _ _ (Name_eq skiplist st6 sl Hsn Hs6)). cbv beta.
      cbn [name_ sl].
      assert (Htarget : index_target skiplist PointerType.Skiplist st6 =
                        Done (with_old_version kNullPMemOffset rv) st6).
      { simpl.
        rewrite (bind_eq _ _ _ _ _ (HeaderRecord_eq skiplist st6 sl _ Hsn Hs6 Hnn Hd6)).
        cbn [record]. apply load_eq; [done|]. simpl. by rewrite lookup_insert_eq. }
      rewrite (bind_eq _ _ _ _ _
        (insertHashIndex_eval (Key hr) skiplist PointerType.Skiplist st6 _ Htarget Hty)).
      cbv beta.
      assert (Hht : hash_table_ (kv_engine_ st6) = hash_table_ (kv_engine_ st)).
      { simpl. rewrite Hkv5. simpl.
        by destruct (swapped_in_frame _ _ _ _ Hswap) as (-> & _). }
      exists (on_engine (set_hash_table (λ _,
                (HashTable_Insert (hash_table_ (kv_engine_ st)) (Key hr)
                   RecordType.SortedRecord (GetRecordStatus rv) skiplist
                   PointerType.Skiplist).2)) st6), skiplist.
      cbv zeta. rewrite Hht. simpl index_record_type.
      change (GetRecordStatus (with_old_version kNullPMemOffset rv))
        with (GetRecordStatus rv).
      split_and!.
      * change (index_record_type PointerType.Skiplist) with RecordType.SortedRecord.
        generalize (insert_status (HashTable_Insert (hash_table_ (kv_engine_ st))
          (Key hr) RecordType.SortedRecord (GetRecordStatus rv) skiplist
          PointerType.Skiplist).1).
        intros s0. by destruct (decide (s0 ≠ Status.Ok)), (decide (s0 = Status.Ok)).
      * simpl. rewrite Hrb5. simpl. by rewrite lookup_insert_eq.
      * exists node. simpl. rewrite Hkv5. done.
      * simpl. rewrite Hinv5. simpl.
        by destruct (swapped_in_frame _ _ _ _ Hswap) as (_ & _ & _ & -> & _).
      * simpl. rewrite Hkv5. done.
      * done.
Qed.

Lemma destroy_all_app ps qs m :
  destroy_all (ps ++ qs) m = destroy_all qs (destroy_all ps m).
Proof. unfold destroy_all. by rewrite foldl_app. Qed.

Lemma destroy_all_lookup ps m p :
  destroy_all ps m !! p =
  (if bool_decide (p ∈ ps) then with_destroyed else id) <$> m !! p.
Proof.
  revert m. induction ps as [|q ps IH]; intros m.
  - unfold destroy_all. cbn [foldl].
    rewrite bool_decide_eq_false_2 by apply not_elem_of_nil. by destruct (m !! p).
  - unfold destroy_all. cbn [foldl].
    change (foldl _ ?m' ps) with (destroy_all ps m'). rewrite IH.
    destruct (decide (p = q)) as [->|Hne].
    + rewrite lookup_alter_eq. rewrite (bool_decide_eq_true_2 (q ∈ q :: ps)) by set_solver.
      destruct (m !! q) as [r|]; [|done]. simpl. by case_bool_decide.
    + rewrite lookup_alter_ne by done.
      destruct (m !! p) as [r|]; [|done]. simpl.
      assert (p ∈ q :: ps ↔ p ∈ ps) as Hiff.
      { rewrite elem_of_cons. split; [by intros [?|?]|by right]. }
      by rewrite (bool_decide_ext _ _ Hiff).
Qed.

Lemma marked_fields (b : bool) (r : DLRecord) :
  let r' := (if b then with_destroyed else id) r in
  prev r' = prev r ∧ next r' = next r ∧ GetRecordSize r' = GetRecordSize r ∧
  Skiplist_MatchType r' = Skiplist_MatchType r.
Proof. by destruct b. Qed.

Lemma record_at_destroy_all st s D p :
  pmem (kv_engine_ s) = destroy_all D (pmem (kv_engine_ st)) →
  record_at s p = (if bool_decide (p ∈ D) then with_destroyed else id) <$> record_at st p.
Proof.
  intros Hs. unfold record_at. case_decide; [done|]. by rewrite Hs, destroy_all_lookup.
Qed.

Lemma mapped_record_at st p : mapped st p → ∃ r, record_at st p = Some r.
Proof. intros [Hp [r Hr]]. exists r. unfold record_at. by rewrite decide_False. Qed.

Lemma recheck_eval st s D p :
  pmem (kv_engine_ s) = destroy_all D (pmem (kv_engine_ st)) →
  neighbours_mapped st p →
  orM (r ← load p; ret (negb (Skiplist_MatchType r)))
      (b ← CheckLinkage p; ret (negb b)) s = Done (reclaimed st p) s.
Proof.
  intros Hs (r & Hr & Hp & Hn).
  destruct (mapped_record_at _ _ Hp) as [pr Hpr].
  destruct (mapped_record_at _ _ Hn) as [nr Hnr].
  pose proof (record_at_destroy_all st s D p Hs) as Hr'. rewrite Hr in Hr'. simpl in Hr'.
  pose proof (record_at_destroy_all st s D (prev r) Hs) as Hpr'. rewrite Hpr in Hpr'.
  pose proof (record_at_destroy_all st s D (next r) Hs) as Hnr'. rewrite Hnr in Hnr'.
  simpl in Hpr', Hnr'.
  destruct (marked_fields (bool_decide (p ∈ D)) r) as (E1 & E2 & _ & E3).
  destruct (marked_fields (bool_decide (prev r ∈ D)) pr) as (_ & E4 & _).
  destruct (marked_fields (bool_decide (next r ∈ D)) nr) as (E5 & _).
  cbv zeta in *.
  set (r' := (if bool_decide (p ∈ D) then with_destroyed else id) r) in *.
  set (pr' := (if bool_decide (prev r ∈ D) then with_destroyed else id) pr) in *.
  set (nr' := (if bool_decide (next r ∈ D) then with_destroyed else id) nr) in *.
  pose proof (load_record_at _ _ _ Hr') as Hl.
  assert (Hcp : CheckPrevLinkage p s = Done (bool_decide (next pr = p)) s).
  { unfold CheckPrevLinkage. rewrite (bind_eq _ _ _ _ _ Hl). cbv beta. rewrite E1.
    rewrite (bind_eq _ _ _ _ _ (load_record_at _ _ _ Hpr')). cbv beta. by rewrite E4. }
  assert (Hcn : CheckNextLinkage p s = Done (bool_decide (prev nr = p)) s).
  { unfold CheckNextLinkage. rewrite (bind_eq _ _ _ _ _ Hl). cbv beta. rewrite E2.
    rewrite (bind_eq _ _ _ _ _ (load_record_at _ _ _ Hnr')). cbv beta. by rewrite E5. }
  unfold reclaimed, type_matches, linkage_intact. rewrite Hr, Hpr, Hnr.
  unfold orM. unfold bind at 1. unfold bind at 1. rewrite Hl. unfold ret at 1.
  rewrite E3. destruct (Skiplist_MatchType r); simpl; [|done].
  unfold CheckLinkage, andM. unfold bind at 1. unfold bind at 1. rewrite Hcp.
  destruct (bool_decide (next pr = p)); simpl; [|done].
  by rewrite Hcn.
Qed.

Lemma clean_unlinked_records_eval st rs :
  ∀ s D to_free,
    pmem (kv_engine_ s) = destroy_all D (pmem (kv_engine_ st)) →
    Forall (neighbours_mapped st) rs →
    clean_unlinked_records rs to_free s =
    Done (to_free ++ (extent_of st <$> filter (λ p, reclaimed st p = true) rs))
         (on_engine (set_pmem (λ _,
            destroy_all (D ++ filter (λ p, reclaimed st p = true) rs)
                        (pmem (kv_engine_ st)))) s).
Proof.
  induction rs as [|p rs IH]; intros s D to_free Hs Hrs.
  - simpl. unfold ret. rewrite !app_nil_r. rewrite <- Hs. by destruct s as [[] ?].
  - apply Forall_cons in Hrs as [Hp Hrs]. cbn [clean_unlinked_records].
    rewrite (bind_eq _ _ _ _ _ (recheck_eval st s D p Hs Hp)). cbv beta.
    destruct (reclaimed st p) eqn:Hrec.
    + rewrite filter_cons_True by done.
      destruct Hp as (r & Hr & _).
      pose proof (record_at_destroy_all st s D p Hs) as Hr'. rewrite Hr in Hr'. simpl in Hr'.
      set (r' := (if bool_decide (p ∈ D) then with_destroyed else id) r) in *.
      pose proof (load_record_at _ _ _ Hr') as Hl.
      assert (Hpn : p ≠ kNullPMemOffset).
      { intros ->. by rewrite record_at_null in Hr. }
      unfold Destroy. rewrite (bind_eq _ _ _ _ _ (update_record_eq _ _ _ _ Hl)). cbv beta.
      set (s1 := on_engine (set_pmem <[p := with_destroyed r']>) s).
      assert (Hs1 : pmem (kv_engine_ s1) = destroy_all (D ++ [p]) (pmem (kv_engine_ st))).
      { rewrite destroy_all_app. unfold destroy_all at 1. cbn [foldl]. simpl.
        rewrite <- Hs. symmetry. apply alter_alt_Some.
        unfold record_at in Hr'. by rewrite decide_False in Hr'. }
      assert (Hm1 : mapped s1 p).
      { split; [done|]. simpl. rewrite lookup_insert_eq. eauto. }
      unfold addr2offset_checked.
      rewrite (bind_eq _ _ _ _ _ (offset2addr_checked_mapped _ _ Hm1)). cbv beta.
      assert (Hl1 : load p s1 = Done (with_destroyed r') s1).
      { apply load_eq; [done|]. simpl. by rewrite lookup_insert_eq. }
      rewrite (bind_eq _ _ _ _ _ Hl1). cbv beta.
      rewrite (IH s1 (D ++ [p]) _ Hs1 Hrs).
      f_equal.
      * rewrite <- !app_assoc. f_equal. simpl. f_equal.
        unfold extent_of. rewrite Hr. simpl.
        by destruct (marked_fields (bool_decide (p ∈ D)) r) as (_ & _ & <- & _).
      * rewrite <- !app_assoc. simpl. by destruct s as [[] ?].
    + rewrite filter_cons_False by (by rewrite Hrec). by apply IH.
Qed.

Lemma clean_thread_caches_eval st n :
  ∀ i s D,
    pmem (kv_engine_ s) = destroy_all D (pmem (kv_engine_ st)) →
    length (rebuilder_thread_cache_ (rb s)) = (i + n)%nat →
    Forall (neighbours_mapped st)
           (concat (unlinked_records <$> drop i (rebuilder_thread_cache_ (rb s)))) →
    let doomed := filter (λ p, reclaimed st p = true)
                    (concat (unlinked_records <$> drop i (rebuilder_thread_cache_ (rb s)))) in
    clean_thread_caches i n s =
    Done () (on_rebuilder (set_thread_cache (λ l, take i l ++ (cleared <$> drop i l)))
              (on_engine (set_free_list (λ l, l ++ (extent_of st <$> doomed)))
                (on_engine (set_pmem (λ _, destroy_all (D ++ doomed) (pmem (kv_engine_ st)))) s))).
Proof.
  induction n as [|n IH]; intros i s D Hs Hlen Hall doomed.
  - subst doomed. cbn [clean_thread_caches]. unfold ret.
    unfold on_rebuilder, on_engine, set_thread_cache, set_free_list, set_pmem.
    cbn [rb kv_engine_ pmem free_list rebuilder_thread_cache_].
    rewrite drop_ge by lia. rewrite take_ge by lia. simpl.
    rewrite !app_nil_r. rewrite <- Hs.
    by destruct s as [[] []].
  - cbn [clean_thread_caches]. unfold gets at 1. unfold bind at 1.
    destruct (lookup_lt_is_Some_2 (rebuilder_thread_cache_ (rb s)) i ltac:(lia)) as [c Hc].
    rewrite Hc.
    revert Hall doomed. rewrite (drop_S _ _ _ Hc). rewrite fmap_cons. cbn [concat].
    intros Hall. apply Forall_app in Hall as [Hc1 Hrest]. rewrite filter_app.
    set (doomed1 := filter (λ p, reclaimed st p = true) (unlinked_records c)).
    set (doomed2 := filter (λ p, reclaimed st p = true) (concat _)).
    cbv zeta.
    rewrite (bind_eq _ _ _ _ _ (clean_unlinked_records_eval st _ s D [] Hs Hc1)).
    cbv beta. fold doomed1. unfold BatchFree. unfold modify at 1. unfold bind at 1.
    unfold modify at 1. unfold bind at 1.
    match goal with |- clean_thread_caches _ _ ?s3 = _ => set (st3 := s3) end.
    assert (Hd3 : drop (S i) (rebuilder_thread_cache_ (rb st3))
                  = drop (S i) (rebuilder_thread_cache_ (rb s))).
    { simpl. apply drop_alter_lt. lia. }
    rewrite (IH (S i) st3 (D ++ doomed1)); [| done | | ].
    + rewrite Hd3. fold doomed2. f_equal.
      assert (Ht3 : take (S i) (rebuilder_thread_cache_ (rb st3)) =
                    take i (rebuilder_thread_cache_ (rb s)) ++ [cleared c]).
      { simpl. erewrite take_S_r; last first.
        { rewrite list_lookup_alter_eq, Hc. done. }
        rewrite take_alter_ge by lia. done. }
      unfold on_rebuilder, on_engine, set_thread_cache. cbn [rb kv_engine_].
      f_equal.
      * subst st3. simpl. rewrite fmap_app, !app_assoc. simpl.
        rewrite <- !app_assoc. destruct s as [[] []].
        unfold set_free_list, set_pmem. simpl. by rewrite <- app_assoc.
      * rewrite Ht3, Hd3. rewrite (drop_S _ _ _ Hc), fmap_cons, <- app_assoc. simpl.
        subst st3. by destruct s as [[] []].
    + subst st3. simpl. rewrite length_alter. lia.
    + by rewrite Hd3.
Qed.

Lemma CheckLinkage_intact st p :
  neighbours_mapped st p → CheckLinkage p st = Done (linkage_intact st p) st.
Proof.
  intros (r & Hr & Hp & Hn).
  destruct (mapped_record_at _ _ Hp) as [pr Hpr].
  destruct (mapped_record_at _ _ Hn) as [nr Hnr].
  unfold linkage_intact. rewrite Hr, Hpr, Hnr.
  unfold CheckLinkage, andM, CheckPrevLinkage, CheckNextLinkage, bind, ret.
  rewrite (load_record_at _ _ _ Hr), (load_record_at _ _ _ Hpr). unfold addr2offset.
  destruct (bool_decide (next pr = p)); simpl; [|done].
  by rewrite (load_record_at _ _ _ Hr), (load_record_at _ _ _ Hnr).
Qed.

(** C6 (amended). In the first loop of [cleanInvalidRecords], the one over
    the unlinked queues of the workers, a queued record is destroyed and its
    extent batched for freeing exactly when it fails at least one of the
    [MatchType] and [CheckLinkage] re-checks; a record that passes both is
    left intact by that loop, and every queue is left empty.
    [cleanInvalidRecords] goes on from there with its second loop, over the
    invalid skiplists, and when there is none it returns in the state the
    first loop left. *)
Theorem clean_unlinked_spec (st : State) :
  Forall (neighbours_mapped st) (queued st) →
  let doomed := filter (λ p, reclaimed st p = true) (queued st) in
  ∃ st', clean_unlinked st = Done () st' ∧
    (∀ p, p ∈ queued st →
       CheckLinkage p st = Done (linkage_intact st p) st ∧
       ∃ r, load p st = Done r st ∧ Skiplist_MatchType r = type_matches st p) ∧
    free_list (kv_engine_ st') = free_list (kv_engine_ st) ++ (extent_of st <$> doomed) ∧
    (∀ p r, pmem (kv_engine_ st) !! p = Some r →
       pmem (kv_engine_ st') !! p =
         Some (if bool_decide (p ∈ doomed) then with_destroyed r else r)) ∧
    Forall (λ c, unlinked_records c = []) (rebuilder_thread_cache_ (rb st')) ∧
    (∀ fuel, cleanInvalidRecords fuel st = clean_invalid_skiplists fuel st') ∧
    (invalid_skiplists_ (rb st) = ∅ → ∀ fuel, cleanInvalidRecords fuel st = Done () st').
Proof.
  intros Hall doomed.
  assert (Hrun : clean_unlinked st = Done ()
    (on_rebuilder (set_thread_cache (λ l, take 0 l ++ (cleared <$> drop 0 l)))
      (on_engine (set_free_list (λ l, l ++ (extent_of st <$> doomed)))
        (on_engine (set_pmem (λ _, destroy_all ([] ++ doomed) (pmem (kv_engine_ st)))) st)))).
  { unfold clean_unlinked. unfold gets at 1. unfold bind at 1.
    apply (clean_thread_caches_eval st _ 0%nat st []); [done|done|by rewrite drop_0]. }
  eexists. split_and!.
  - exact Hrun.
  - intros p Hp. rewrite Forall_forall in Hall. specialize (Hall p Hp).
    split; [by apply CheckLinkage_intact|].
    destruct Hall as (r & Hr & _). exists r. split; [by apply load_record_at|].
    unfold type_matches. by rewrite Hr.
  - subst doomed. unfold queued. simpl. by rewrite ?drop_0.
  - intros p r Hr. subst doomed. unfold queued. simpl. rewrite ?drop_0.
    rewrite destroy_all_lookup, Hr. simpl. by case_bool_decide.
  - simpl. rewrite ?drop_0. apply Forall_fmap. by apply Forall_true.
  - intros fuel. unfold cleanInvalidRecords. by rewrite (bind_eq _ _ _ _ _ Hrun).
  - intros Hempty fuel. unfold cleanInvalidRecords. rewrite (bind_eq _ _ _ _ _ Hrun).
    unfold clean_invalid_skiplists. unfold gets at 1. unfold bind at 1.
    cbn [rb on_rebuilder on_engine set_thread_cache invalid_skiplists_].
    rewrite Hempty, map_to_list_empty. cbn [fmap list_fmap destroy_skiplists].
    unfold bind, ret, modify. f_equal.
    destruct st as [e [] ]. simpl in *. by subst.
Qed.
Lemma kvdk_assert_false (c : M bool) st st' :
  0 < KVDK_DEBUG_LEVEL → c st = Done false st' →
  kvdk_assert c st = Crash AssertionFailed.
Proof.
  intros Hd Hc. unfold kvdk_assert. rewrite (proj2 (N.ltb_lt _ _) Hd).
  by rewrite (bind_eq _ _ _ _ _ Hc).
Qed.

Lemma findCheckpointVersion_unfold fuel p st input :
  record_at st p = Some input →
  findCheckpointVersion fuel p st =
    if 0 <? checkpoint_ts (rb st)
    then findCheckpointVersion_walk fuel p (FetchID input) p st
    else Done p st.
Proof.
  intros Hin.
  assert (Hnn : p ≠ kNullPMemOffset).
  { intros ->. by rewrite record_at_null in Hin. }
  unfold findCheckpointVersion.
  erewrite bind_eq with (st' := st); last first.
  { apply kvdk_assert_true. intros _. unfold ret. by rewrite bool_decide_eq_true_2. }
  unfold recoverToCheckpoint, CheckpointTS, gets, ret, bind at 1, bind at 1.
  destruct (0 <? checkpoint_ts (rb st)); simpl; [|done].
  by rewrite (bind_eq _ _ _ _ _ (load_record_at _ _ _ Hin)).
Qed.

Lemma ancestor_S_r st p n :
  ancestor st p (S n) =
  match record_at st (ancestor st p n) with
  | Some r => old_version r
  | None => kNullPMemOffset
  end.
Proof.
  revert p. induction n as [|n IH]; intros p.
  - simpl. by destruct (record_at st p).
  - change (ancestor st p (S (S n))) with
      (match record_at st p with
       | Some r => ancestor st (offset2addr (old_version r)) (S n)
       | None => kNullPMemOffset
       end).
    destruct (record_at st p) as [r|] eqn:Hr.
    + rewrite IH. simpl. by rewrite Hr.
    + simpl. rewrite Hr. by rewrite record_at_null.
Qed.

Lemma walk_advance p input st n :
  record_at st p = Some input →
  ∀ fuel curr,
  (∀ i, (i ≤ n)%nat →
     ∃ r, record_at st (ancestor st curr i) = Some r ∧
          checkpoint_ts (rb st) < GetTimestamp r ∧
          ((0 < i)%nat → FetchID r = FetchID input ∧ older_version_checked input r)) →
  findCheckpointVersion_walk (n + fuel) p (FetchID input) curr st =
  findCheckpointVersion_walk fuel p (FetchID input) (ancestor st curr n) st.
Proof.
  intros Hin. induction n as [|n IH]; intros fuel curr Hpast; [done|].
  destruct (Hpast 0%nat ltac:(lia)) as (r0 & Hr0 & Hts0 & _). simpl in Hr0.
  destruct (Hpast 1%nat ltac:(lia)) as (r1 & Hr1 & _ & Hchk1).
  destruct (Hchk1 ltac:(lia)) as [Hid1 Hchk1'].
  simpl in Hr1. rewrite Hr0 in Hr1. unfold offset2addr in Hr1.
  change (S n + fuel)%nat with (S (n + fuel)).
  rewrite (walk_step _ p input _ curr r0 st Hin Hr0 Hts0); [|by intros _; exists r1].
  rewrite Hr1. rewrite decide_False by (intros ?; contradiction).
  simpl ancestor. rewrite Hr0. unfold offset2addr.
  apply IH. intros i Hi.
  destruct (Hpast (S i) ltac:(lia)) as (r & Hr & Hts & Hchk).
  simpl in Hr. rewrite Hr0 in Hr. exists r. split_and!; [done..|].
  intros _. apply Hchk. lia.
Qed.

Lemma walk_step_assert fuel p input id curr r r' st :
  record_at st p = Some input →
  record_at st curr = Some r → checkpoint_ts (rb st) < GetTimestamp r →
  record_at st (old_version r) = Some r' →
  0 < KVDK_DEBUG_LEVEL → Validate r' = false ∨ Key r' ≠ Key input →
  findCheckpointVersion_walk (S fuel) p id curr st = Crash AssertionFailed.
Proof.
  intros Hin Hr Hts Hr' Hd Hbad. simpl.
  assert (curr ≠ kNullPMemOffset) by (intros ->; by rewrite record_at_null in Hr).
  assert (old_version r ≠ kNullPMemOffset) by (intros E; by rewrite E, record_at_null in Hr').
  erewrite bind_eq with (a := true) (st' := st); last first.
  { unfold andM, bind, ret. rewrite bool_decide_eq_true_2 by done.
    rewrite (load_record_at _ _ _ Hr). unfold CheckpointTS, gets.
    by rewrite (proj2 (N.ltb_lt _ _) Hts). }
  cbv beta iota. rewrite (bind_eq _ _ _ _ _ (load_record_at _ _ _ Hr)). cbv beta zeta.
  unfold offset2addr.
  destruct (Validate r') eqn:Hv.
  - destruct Hbad as [?|Hkey]; [done|].
    erewrite bind_eq with (st' := st); last first.
    { apply kvdk_assert_true. intros _. rewrite orM_ret.
      rewrite bool_decide_eq_false_2 by done.
      rewrite (bind_eq _ _ _ _ _ (load_record_at _ _ _ Hr')). unfold ret. by rewrite Hv. }
    apply bind_crash. eapply kvdk_assert_false; [done|].
    rewrite orM_ret. rewrite bool_decide_eq_false_2 by done.
    rewrite (bind_eq _ _ _ _ _ (load_record_at _ _ _ Hr')). cbv beta.
    rewrite (bind_eq _ _ _ _ _ (load_record_at _ _ _ Hin)). unfold ret, equal_string_view.
    by rewrite bool_decide_eq_false_2.
  - apply bind_crash. eapply kvdk_assert_false; [done|].
    rewrite orM_ret. rewrite bool_decide_eq_false_2 by done.
    rewrite (bind_eq _ _ _ _ _ (load_record_at _ _ _ Hr')). unfold ret. by rewrite Hv.
Qed.

Lemma StronglySorted_lookup_lt {A} (R : relation A) (l : list A) i j x y :
  StronglySorted R l → l !! i = Some x → l !! j = Some y → (i < j)%nat → R x y.
Proof.
  intros Hs. revert i j. induction Hs as [|z l Hs IH Hz]; intros i j Hi Hj Hlt; [done|].
  destruct j as [|j]; [lia|]. simpl in Hj.
  destruct i as [|i]; simpl in Hi.
  - simplify_eq. rewrite Forall_forall in Hz. apply Hz. by eapply list_elem_of_lookup_2.
  - eapply IH; [done..|lia].
Qed.

#[local] Instance header_le_total : Total header_le.
Proof.
  intros [p1 r1] [p2 r2]. unfold header_le, cmp. simpl.
  repeat case_decide; rewrite !N.ltb_ge; lia.
Qed.

#[local] Instance header_le_trans : Transitive header_le.
Proof.
  intros [p1 r1] [p2 r2] [p3 r3]. unfold header_le, cmp. simpl.
  repeat case_decide; rewrite !N.ltb_ge; lia.
Qed.

Lemma header_le_id a b : header_le a b → FetchID a.2 ≤ FetchID b.2.
Proof. unfold header_le, cmp. case_decide; rewrite ?N.ltb_ge; lia. Qed.

Lemma record_at_kv st st' p :
  kv_engine_ st' = kv_engine_ st → record_at st' p = record_at st p.
Proof. intros Hkv. unfold record_at. by rewrite Hkv. Qed.

Lemma load_all_eval ps st rs st' :
  load_all ps st = Done rs st' →
  st' = st ∧ rs.*1 = ps ∧ Forall (λ pr, record_at st pr.1 = Some pr.2) rs.
Proof.
  revert rs st'. induction ps as [|p ps IH]; intros rs st' Hl; simpl in Hl.
  - by inv_bind.
  - inv_bind. apply load_done in Hm as (-> & Hp & Hr).
    destruct (IH _ _ Hm0) as (-> & <- & Hall).
    split_and!; [done..|]. constructor; [|done].
    simpl. unfold record_at. by rewrite decide_False.
Qed.

(** [std::sort] leaves in [linked_headers_] a permutation of the headers in
    which no header compares less than an earlier one. *)
Lemma sort_linked_headers_sorted st st' :
  sort_linked_headers st = Done () st' →
  kv_engine_ st' = kv_engine_ st ∧
  linked_headers_ (rb st') ≡ₚ linked_headers_ (rb st) ∧
  rebuilder_thread_cache_ (rb st') = rebuilder_thread_cache_ (rb st) ∧
  ∀ i j h h' r r',
    linked_headers_ (rb st') !! i = Some h → linked_headers_ (rb st') !! j = Some h' →
    (i < j)%nat → record_at st' h = Some r → record_at st' h' = Some r' →
    cmp r' r = false.
Proof.
  unfold sort_linked_headers, bind, gets, modify.
  destruct (load_all (linked_headers_ (rb st)) st) as [a0 st1|] eqn:Hl; [|done].
  intros [= <-].
  destruct (load_all_eval _ _ _ _ Hl) as (-> & Hfst & Hall).
  split_and!; [done| |done|].
  - simpl. rewrite <- Hfst. by rewrite merge_sort_Permutation.
  - simpl. intros i j h h' r r' Hi Hj Hlt Hr Hr'.
    rewrite list_lookup_fmap in Hi, Hj.
    destruct (merge_sort header_le a0 !! i) as [[p1 r1]|] eqn:E1; [|done].
    destruct (merge_sort header_le a0 !! j) as [[p2 r2]|] eqn:E2; [|done].
    simpl in Hi, Hj. simplify_eq.
    assert (Hin : ∀ k p r0, merge_sort header_le a0 !! k = Some (p, r0) →
                            record_at st p = Some r0).
    { intros k p r0 Hk. apply list_elem_of_lookup_2 in Hk.
      rewrite merge_sort_Permutation in Hk. rewrite Forall_forall in Hall.
      by apply (Hall (p, r0)). }
    rewrite (record_at_kv st) in Hr, Hr' by done.
    rewrite (Hin _ _ _ E1) in Hr. rewrite (Hin _ _ _ E2) in Hr'. simplify_eq.
    apply (StronglySorted_lookup_lt header_le (merge_sort header_le a0)
             i j (h, r) (h', r')); [|done..].
    apply StronglySorted_merge_sort; apply _.
Qed.
Lemma elem_of_concat {A} (x : A) (l : list A) (ls : list (list A)) :
  x ∈ l → l ∈ ls → x ∈ concat ls.
Proof.
  intros Hx Hl. induction Hl as [l ls|l l' ls Hl IH]; simpl; apply elem_of_app; auto.
Qed.

Lemma queue_unlinked_queued p st :
  rebuilder_thread_cache_ (rb st) ≠ [] → p ∈ queued (queue_unlinked p st).
Proof.
  intros Hcache. unfold queued, queue_unlinked. simpl.
  set (i := (_ `mod` _)%nat).
  assert (Hi : (i < length (rebuilder_thread_cache_ (rb st)))%nat).
  { apply Nat.mod_upper_bound. by destruct (rebuilder_thread_cache_ (rb st)). }
  destruct (lookup_lt_is_Some_2 _ _ Hi) as [c Hc].
  apply (elem_of_concat _ (unlinked_records c ++ [p])); [set_solver|].
  apply list_elem_of_fmap. eexists. split; [|eapply list_elem_of_lookup_2].
  2: { rewrite list_lookup_alter_eq, Hc. done. }
  done.
Qed.

Lemma CheckPrevLinkage_eval p st r pr :
  record_at st p = Some r → record_at st (prev r) = Some pr →
  CheckPrevLinkage p st = Done (bool_decide (next pr = p)) st.
Proof.
  intros Hr Hpr. unfold CheckPrevLinkage.
  rewrite (bind_eq _ _ _ _ _ (load_record_at _ _ _ Hr)). cbv beta.
  by rewrite (bind_eq _ _ _ _ _ (load_record_at _ _ _ Hpr)).
Qed.
Lemma CheckNextLinkage_eval p st r nr :
  record_at st p = Some r → record_at st (next r) = Some nr →
  CheckNextLinkage p st = Done (bool_decide (prev nr = p)) st.
Proof.
  intros Hr Hnr. unfold CheckNextLinkage.
  rewrite (bind_eq _ _ _ _ _ (load_record_at _ _ _ Hr)). cbv beta.
  by rewrite (bind_eq _ _ _ _ _ (load_record_at _ _ _ Hnr)).
Qed.

Lemma break_outdated_header_eval h newer st rh rn :
  record_at st h = Some rh → record_at st newer = Some rn →
  prev rh = h → next rh = h → newer ≠ h → next rn ≠ h →
  rebuilder_thread_cache_ (rb st) ≠ [] →
  let st1 := on_engine (set_pmem <[h := with_prev newer rh]>) st in
  break_outdated_header h newer st = Done () (queue_unlinked h st1) ∧
  CheckPrevLinkage h st1 = Done false st1 ∧
  CheckNextLinkage h st1 = Done false st1 ∧
  record_at st1 h = Some (with_prev newer rh) ∧
  record_at st1 newer = Some rn.
Proof.
  intros Hrh Hrn Hprev Hnext Hne Hnn Hcache st1.
  assert (Hh : h ≠ kNullPMemOffset) by (intros ->; by rewrite record_at_null in Hrh).
  assert (Hn : newer ≠ kNullPMemOffset) by (intros ->; by rewrite record_at_null in Hrn).
  assert (Hr1 : record_at st1 h = Some (with_prev newer rh)).
  { unfold record_at. rewrite decide_False by done. simpl. by rewrite lookup_insert_eq. }
  assert (Hr2 : record_at st1 newer = Some rn).
  { unfold record_at in Hrn |- *. rewrite decide_False in Hrn |- * by done.
    simpl. by rewrite lookup_insert_ne. }
  assert (Hcp : CheckPrevLinkage h st1 = Done false st1).
  { rewrite (CheckPrevLinkage_eval h st1 _ rn Hr1 Hr2).
    by rewrite bool_decide_eq_false_2. }
  assert (Hcn : CheckNextLinkage h st1 = Done false st1).
  { rewrite (CheckNextLinkage_eval h st1 _ (with_prev newer rh) Hr1).
    - by rewrite bool_decide_eq_false_2.
    - change (next (with_prev newer rh)) with (next rh). by rewrite Hnext. }
  split_and!; [|done..].
  unfold break_outdated_header.
  erewrite bind_eq with (st' := st); last first.
  { apply kvdk_assert_true. intros _.
    rewrite (bind_eq _ _ _ _ _ (load_record_at _ _ _ Hrh)). unfold ret, addr2offset.
    rewrite Hprev, Hnext. by rewrite !bool_decide_eq_true_2. }
  cbv beta zeta. unfold PersistPrevNT, addr2offset.
  rewrite (bind_eq _ _ _ _ _ (update_record_eq _ _ _ _ (load_record_at _ _ _ Hrh))).
  cbv beta. fold st1.
  erewrite bind_eq with (st' := st1); last first.
  { apply kvdk_assert_true. intros _. unfold andM, bind. rewrite Hcp. simpl.
    by rewrite Hcn. }
  by apply addUnlinkedRecord_eq.
Qed.

Lemma stable_refl st : stable st st.
Proof. by split. Qed.
Lemma stable_trans st1 st2 st3 : stable st1 st2 → stable st2 st3 → stable st1 st3.
Proof. intros [H1 H2] [H3 H4]. split; [congruence|auto]. Qed.

Lemma preserves_ret {A} (a : A) : preserves (ret a).
Proof. intros st b st' [= _ <-]. apply stable_refl. Qed.
Lemma preserves_gets {A} (f : State → A) : preserves (gets f).
Proof. intros st b st' [= _ <-]. apply stable_refl. Qed.
Lemma preserves_crash {A} e : preserves (crash (A := A) e).
Proof. by intros st b st'. Qed.
Lemma preserves_bind {A B} (m : M A) (f : A → M B) :
  preserves m → (∀ a, preserves (f a)) → preserves (bind m f).
Proof.
  intros Hm Hf st b st' Hb. apply bind_done_inv in Hb as (a & st1 & H1 & H2).
  eapply stable_trans; [by eapply Hm|by eapply Hf].
Qed.
Lemma preserves_load p : preserves (load p).
Proof. intros st r st' Hl. apply load_state in Hl as ->. apply stable_refl. Qed.
Lemma preserves_load_node p : preserves (load_node p).
Proof. intros st r st' Hl. apply load_node_state in Hl as ->. apply stable_refl. Qed.
Lemma preserves_load_skiplist p : preserves (load_skiplist p).
Proof. intros st r st' Hl. apply load_skiplist_state in Hl as ->. apply stable_refl. Qed.
Lemma preserves_thread_cache_index : preserves thread_cache_index.
Proof.
  intros st r st'. unfold thread_cache_index. case_decide; [done|].
  intros [= _ <-]. apply stable_refl.
Qed.

(** A state change that leaves the memory and the queues alone. *)
Lemma preserves_modify (f : State → State) :
  (∀ st, pmem (kv_engine_ (f st)) = pmem (kv_engine_ st) ∧
         rebuilder_thread_cache_ (rb (f st)) = rebuilder_thread_cache_ (rb st)) →
  preserves (modify f).
Proof.
  intros Hf st u st' Hm. injection Hm as Heq. subst st'. destruct (Hf st) as [Hp Hq].
  split; [unfold identities; by rewrite Hp|]. unfold queued. by rewrite Hq.
Qed.

Lemma preserves_update_record p (f : DLRecord → DLRecord) :
  (∀ r, identity (f r) = identity r) → preserves (update_record p f).
Proof.
  intros Hf st u st' Hu. unfold update_record, store in Hu.
  apply bind_done_inv in Hu as (r & st1 & Hl & Hs).
  apply load_done in Hl as (-> & Hp & Hr). injection Hs as Heq. subst st'.
  split; [|done]. unfold identities. simpl.
  rewrite fmap_insert, Hf. apply insert_id. by rewrite lookup_fmap, Hr.
Qed.

Lemma queued_after_append (l : list ThreadCache) (i : nat) (p q : PMemOffsetType) :
  q ∈ concat (unlinked_records <$> l) →
  q ∈ concat (unlinked_records <$>
       alter (λ c, mkThreadCache (visited_skiplists c) (unlinked_records c ++ [p])) i l).
Proof.
  revert i. induction l as [|c l IH]; intros i Hq; [done|].
  destruct i as [|i]; simpl in *; rewrite !elem_of_app in *.
  - destruct Hq as [Hq|Hq]; [left; left; done|by right].
  - destruct Hq as [Hq|Hq]; [by left|right; by apply IH].
Qed.

Lemma preserves_addUnlinkedRecord p : preserves (addUnlinkedRecord p).
Proof.
  intros st u st' Ha. unfold addUnlinkedRecord in Ha.
  apply bind_done_inv in Ha as (i & st1 & Hi & Hm).
  unfold thread_cache_index in Hi. case_decide; [done|]. injection Hi as Hi1 Hi2.
  subst i st1. injection Hm as Heq. subst st'. split; [done|].
  intros q Hq. unfold queued in *. simpl. by apply queued_after_append.
Qed.

Create HintDb pres discriminated.
#[local] Hint Resolve preserves_ret preserves_gets preserves_crash preserves_bind
  preserves_load preserves_load_node preserves_load_skiplist
  preserves_thread_cache_index preserves_addUnlinkedRecord : pres.
#[local] Hint Extern 1 (preserves (modify _)) =>
  apply preserves_modify; intros ?; split; reflexivity : pres.
#[local] Hint Extern 1 (preserves (update_record _ _)) =>
  apply preserves_update_record; intros ?; reflexivity : pres.
#[local] Hint Extern 2 (preserves (if ?b then _ else _)) => destruct b : pres.
#[local] Hint Extern 2 (preserves (match ?x with _ => _ end)) => destruct x : pres.

Ltac pres := eauto 80 with pres.

Lemma preserves_kvdk_assert (c : M bool) : preserves c → preserves (kvdk_assert c).
Proof. intros Hc. unfold kvdk_assert. pres. Qed.
Lemma preserves_assert (c : M bool) : preserves c → preserves (assert c).
Proof. intros Hc. unfold assert. pres. Qed.
Lemma preserves_andM (a b : M bool) : preserves a → preserves b → preserves (andM a b).
Proof. intros Ha Hb. unfold andM. pres. Qed.
Lemma preserves_orM (a b : M bool) : preserves a → preserves b → preserves (orM a b).
Proof. intros Ha Hb. unfold orM. pres. Qed.
#[local] Hint Resolve preserves_kvdk_assert preserves_assert preserves_andM
  preserves_orM : pres.

Lemma preserves_CheckPrevLinkage p : preserves (CheckPrevLinkage p).
Proof. unfold CheckPrevLinkage. pres. Qed.
Lemma preserves_CheckNextLinkage p : preserves (CheckNextLinkage p).
Proof. unfold CheckNextLinkage. pres. Qed.
#[local] Hint Resolve preserves_CheckPrevLinkage preserves_CheckNextLinkage : pres.

Lemma preserves_Skiplist_Replace p q : preserves (Skiplist_Replace p q).
Proof. unfold Skiplist_Replace, PersistPrevNT, PersistNextNT. pres. Qed.

Lemma preserves_findCheckpointVersion_walk fuel p id curr :
  preserves (findCheckpointVersion_walk fuel p id curr).
Proof.
  revert curr. induction fuel as [|fuel IH]; intros curr; simpl; [pres|].
  unfold CheckpointTS. pres.
Qed.
#[local] Hint Resolve preserves_Skiplist_Replace preserves_findCheckpointVersion_walk : pres.

Lemma preserves_findCheckpointVersion fuel p : preserves (findCheckpointVersion fuel p).
Proof. unfold findCheckpointVersion, recoverToCheckpoint, CheckpointTS. pres. Qed.

Lemma preserves_Skiplist_new p name id c b : preserves (Skiplist_new p name id c b).
Proof. unfold Skiplist_new, SkiplistNode_NewNode, alloc_addr. pres. Qed.

Lemma preserves_addRecoverySegment n : preserves (addRecoverySegment n).
Proof. unfold addRecoverySegment. pres. Qed.

Lemma preserves_insertHashIndex key p t : preserves (insertHashIndex key p t).
Proof. unfold insertHashIndex, HeaderRecord, HeaderNode. pres. Qed.
#[local] Hint Resolve preserves_findCheckpointVersion preserves_Skiplist_new
  preserves_addRecoverySegment preserves_insertHashIndex : pres.

Lemma preserves_break_outdated_header h newer : preserves (break_outdated_header h newer).
Proof. unfold break_outdated_header, PersistPrevNT. pres. Qed.

Lemma preserves_resolve_header fuel h : preserves (resolve_header fuel h).
Proof.
  unfold resolve_header, GetComparator, PersistOldVersion, HeaderNode, Name. pres.
Qed.
#[local] Hint Resolve preserves_break_outdated_header preserves_resolve_header : pres.

Lemma preserves_initRebuildLists_body fuel h next_header :
  preserves (initRebuildLists_body fuel h next_header).
Proof. unfold initRebuildLists_body. pres. Qed.

Lemma returns_ret {A} (P : A → Prop) (a : A) : P a → returns P (ret a).
Proof. intros HP st b st' Hr. injection Hr as Heq _. by subst b. Qed.
Lemma returns_crash {A} (P : A → Prop) e : returns P (crash e).
Proof. by intros st b st'. Qed.
Lemma returns_bind {A B} (P : B → Prop) (m : M A) (f : A → M B) :
  (∀ a, returns P (f a)) → returns P (bind m f).
Proof.
  intros Hf st b st' Hb. apply bind_done_inv in Hb as (a & st1 & H1 & H2).
  by eapply Hf.
Qed.

Create HintDb rets discriminated.
#[local] Hint Resolve returns_crash returns_bind : rets.
#[local] Hint Extern 1 (returns _ (ret _)) => apply returns_ret; congruence : rets.
#[local] Hint Extern 2 (returns _ (if ?b then _ else _)) => destruct b : rets.
#[local] Hint Extern 2 (returns _ (match ?x with _ => _ end)) => destruct x : rets.

(** The loop body ends the loop only with a status other than Ok. *)
Lemma initRebuildLists_body_status fuel h next_header :
  returns (λ r, r ≠ Some Status.Ok) (initRebuildLists_body fuel h next_header).
Proof. unfold initRebuildLists_body, resolve_header. eauto 80 with rets. Qed.

Lemma record_at_stable st st' p r :
  stable st st' → record_at st p = Some r →
  ∃ r', record_at st' p = Some r' ∧ FetchID r' = FetchID r.
Proof.
  intros [Hid _]. unfold record_at. case_decide; [done|]. intros Hr.
  assert (Hl : identities st' !! p = Some (identity r)).
  { rewrite Hid. unfold identities. by rewrite lookup_fmap, Hr. }
  unfold identities in Hl. rewrite lookup_fmap in Hl.
  destruct (pmem (kv_engine_ st') !! p) as [r'|]; [|done].
  exists r'. split; [done|]. unfold identity in Hl. injection Hl as Ht Hk Hv.
  unfold FetchID. by rewrite Ht, Hk, Hv.
Qed.

Lemma addUnlinkedRecord_done p st u st' :
  addUnlinkedRecord p st = Done u st' →
  rebuilder_thread_cache_ (rb st) ≠ [] ∧ st' = queue_unlinked p st.
Proof.
  intros Ha. unfold addUnlinkedRecord in Ha.
  apply bind_done_inv in Ha as (i & st1 & Hi & Hm).
  unfold thread_cache_index in Hi. case_decide as Hlen; [done|].
  injection Hi as Hi1 Hi2. subst i st1. injection Hm as Heq. subst st'.
  split; [|done]. intros Hnil. by rewrite Hnil in Hlen.
Qed.

Lemma break_outdated_header_queues h newer st u st' :
  break_outdated_header h newer st = Done u st' → h ∈ queued st'.
Proof.
  unfold break_outdated_header. intros Hb.
  apply bind_done_inv in Hb as (? & st1 & _ & Hb).
  apply bind_done_inv in Hb as (? & st2 & _ & Hb).
  apply bind_done_inv in Hb as (? & st3 & _ & Hb).
  apply addUnlinkedRecord_done in Hb as [Hc ->]. by apply queue_unlinked_queued.
Qed.

(** When the loop runs to its end, every header directly followed by one
    with the same collection ID is in an unlinked queue. *)
Lemma initRebuildLists_loop_queues fuel hs :
  ∀ st st', initRebuildLists_loop fuel hs st = Done Status.Ok st' →
    stable st st' ∧
    ∀ i h newer rh rn,
      hs !! i = Some h → hs !! S i = Some newer →
      record_at st h = Some rh → record_at st newer = Some rn →
      FetchID rh = FetchID rn → h ∈ queued st'.
Proof.
  induction hs as [|h0 rest IH]; intros st st' Hloop.
  - injection Hloop as <-. split; [apply stable_refl|done].
  - cbn [initRebuildLists_loop] in Hloop.
    apply bind_done_inv in Hloop as (r0 & st1 & Hbody & Hrest).
    pose proof (preserves_initRebuildLists_body _ _ _ _ _ _ Hbody) as Hst1.
    destruct r0 as [s0|].
    { injection Hrest as -> _. by destruct (initRebuildLists_body_status _ _ _ _ _ _ Hbody). }
    destruct (IH _ _ Hrest) as [Hst' Hq].
    split; [by eapply stable_trans|].
    intros i h newer rh rn Hi Hn Hrh Hrn Hid.
    destruct i as [|i].
    + simpl in Hi, Hn. injection Hi as ->.
      apply Hst'. unfold initRebuildLists_body in Hbody.
      destruct rest as [|newer' rest']; [done|]. simpl in Hn, Hbody. injection Hn as ->.
      rewrite (bind_eq _ _ _ _ _ (load_record_at _ _ _ Hrh)) in Hbody.
      rewrite (bind_eq _ _ _ _ _ (load_record_at _ _ _ Hrn)) in Hbody.
      rewrite decide_True in Hbody by done.
      apply bind_done_inv in Hbody as (? & st2 & Hbreak & Hret).
      injection Hret as <-. by eapply break_outdated_header_queues.
    + simpl in Hi, Hn.
      destruct (record_at_stable _ _ _ _ Hst1 Hrh) as (rh' & Hrh' & Hidh).
      destruct (record_at_stable _ _ _ _ Hst1 Hrn) as (rn' & Hrn' & Hidn).
      eapply (Hq i h newer rh' rn'); [done..|congruence].
Qed.

Lemma initRebuildLists_queues fuel st_in st0 st' i h newer rh rn :
  sort_linked_headers st_in = Done () st0 →
  initRebuildLists fuel st_in = Done Status.Ok st' →
  linked_headers_ (rb st0) !! i = Some h →
  linked_headers_ (rb st0) !! S i = Some newer →
  record_at st0 h = Some rh → record_at st0 newer = Some rn →
  FetchID rh = FetchID rn → h ∈ queued st'.
Proof.
  intros Hsort Hinit Hi Hn Hrh Hrn Hid. unfold initRebuildLists in Hinit.
  rewrite (bind_eq _ _ _ _ _ Hsort) in Hinit. cbv beta in Hinit.
  unfold gets at 1 in Hinit. unfold bind at 1 in Hinit.
  apply bind_done_inv in Hinit as (s0 & st1 & Hloop & Hend).
  destruct (decide (s0 ≠ Status.Ok)) as [Hne|Heq].
  { injection Hend as -> _. done. }
  assert (s0 = Status.Ok) as -> by (by destruct (decide (s0 = Status.Ok))).
  injection Hend as <-.
  destruct (initRebuildLists_loop_queues _ _ _ _ Hloop) as [_ Hq].
  by apply (Hq i h newer rh rn).
Qed.

Lemma CheckAndRepairLinkage_only_pmem p st b st' :
  CheckAndRepairLinkage p st = Done b st' → only_pmem st st'.
Proof.
  unfold CheckAndRepairLinkage, PersistPrevNT, PersistNextNT. intros Hc. inv_bind.
  apply load_state in Hm as ->.
  apply CheckPrevLinkage_state in Hm0 as ->.
  apply CheckNextLinkage_state in Hm1 as ->.
  destruct a0, a1; inv_bind;
    repeat match goal with
    | Hu : update_record _ _ _ = Done _ _ |- _ => apply update_record_only_pmem in Hu
    end; eauto using only_pmem_refl.
Qed.

Lemma Skiplist_NewNodeBuild_eval record st :
  let height := Nat.min (randomHeight (rng_draws (kv_engine_ st))) kMaxHeight in
  let st1 := on_engine (set_rng_draws N.succ) st in
  Skiplist_NewNodeBuild record st =
    if decide (height = 0%nat) then Done nullptr st1
    else Done (N.succ (next_addr (kv_engine_ st)))
              (on_engine (set_dram <[N.succ (next_addr (kv_engine_ st)) :=
                                       mkNode record height ∅]>)
                 (on_engine (set_next_addr (λ _, N.succ (next_addr (kv_engine_ st)))) st1)).
Proof.
  intros height st1. unfold Skiplist_NewNodeBuild, bind, gets, modify. fold height.
  by destruct (decide (height = 0%nat)).
Qed.

(** The retry loop ends once a draw builds a node. *)
Lemma build_start_node_returns record k :
  ∀ fuel st,
    (k < fuel)%nat → kMaxHeight ≠ 0%nat →
    randomHeight (rng_draws (kv_engine_ st) + N.of_nat k) ≠ 0%nat →
    ∃ start st', build_start_node fuel record st = Done start st' ∧
                 rb st' = rb st ∧ is_Some (dram (kv_engine_ st') !! start) ∧
                 start ≠ nullptr.
Proof.
  induction k as [|k IH]; intros fuel st Hfuel Hmax Hdraw;
    (destruct fuel as [|fuel]; [lia|]); cbn [build_start_node];
    unfold bind at 1; rewrite Skiplist_NewNodeBuild_eval; cbv zeta.
  - rewrite N.add_0_r in Hdraw. rewrite decide_False by lia.
    rewrite decide_False by (unfold nullptr; lia).
    eexists _, _. split; [reflexivity|]. simpl. rewrite lookup_insert_eq.
    split_and!; [done|eauto|unfold nullptr; lia].
  - destruct (decide (Nat.min (randomHeight (rng_draws (kv_engine_ st))) kMaxHeight = 0%nat))
      as [Hzero|Hzero].
    + rewrite decide_True by done.
      destruct (IH fuel (on_engine (set_rng_draws N.succ) st))
        as (start & st' & Hb & Hrb & Hd); [lia|done| |].
      { simpl. by replace (N.succ (rng_draws (kv_engine_ st)) + N.of_nat k)
          with (rng_draws (kv_engine_ st) + N.of_nat (S k)) by lia. }
      exists start, st'. by rewrite Hb.
    + rewrite decide_False by (unfold nullptr; lia).
      eexists _, _. split; [reflexivity|]. simpl. rewrite lookup_insert_eq.
      split_and!; [done|eauto|unfold nullptr; lia].
Qed.

Lemma visit_skiplist_returns record st r :
  load record st = Done r st → rebuilder_thread_cache_ (rb st) ≠ [] →
  kRestoreSkiplistStride ≠ 0 →
  ∃ b st', visit_skiplist record st = Done b st' ∧
           kv_engine_ st' = kv_engine_ st ∧
           checkpoint_ts (rb st') = checkpoint_ts (rb st).
Proof.
  intros Hl Hc Hstride. unfold visit_skiplist, thread_cache_index.
  unfold bind at 1. rewrite decide_False by (by destruct (rebuilder_thread_cache_ (rb st))).
  rewrite (bind_eq _ _ _ _ _ Hl). cbv beta zeta.
  unfold gets at 1. unfold bind at 1. unfold modify at 1. unfold bind at 1.
  rewrite decide_False by done. unfold ret. by eexists _, _.
Qed.

Lemma AddElement_segment_returns fuel record st r k :
  load record st = Done r st → mapped st (prev r) → mapped st (next r) →
  (0 < KVDK_DEBUG_LEVEL → GetRecordType r = RecordType.SortedElem) →
  rebuilder_thread_cache_ (rb st) ≠ [] →
  checkpoint_ts (rb st) = 0 → kRestoreSkiplistStride ≠ 0 →
  (k < fuel)%nat → kMaxHeight ≠ 0%nat →
  randomHeight (rng_draws (kv_engine_ st) + N.of_nat k) ≠ 0%nat →
  ∃ st', AddElement fuel record st = Done Status.Ok st'.
Proof.
  intros Hl Hp Hn Hty Hc Hcp Hstride Hfuel Hmax Hdraw.
  destruct (CheckAndRepairLinkage_mapped _ _ _ Hl Hp Hn) as (b & st1 & Hr & Hk & Hrb & Htid).
  pose proof (CheckAndRepairLinkage_only_pmem _ _ _ _ Hr) as [m ->].
  pose proof (Hk _ (mapped_load _ _ _ _ Hl)) as Hm1.
  unfold AddElement.
  erewrite bind_eq; last first.
  { apply kvdk_assert_true. intros Hd. rewrite (bind_eq _ _ _ _ _ Hl).
    unfold ret. by rewrite bool_decide_eq_true_2; auto. }
  rewrite (bind_eq _ _ _ _ _ Hr). cbv beta.
  set (st1 := on_engine (set_pmem (λ _, m)) st) in *.
  destruct b; simpl.
  - destruct (load_mapped _ _ Hm1) as [r1 Hl1].
    assert (Hnn : record ≠ kNullPMemOffset) by apply Hm1.
    match goal with |- ∃ st', bind (bind ?c ?k1) ?k2 st1 = _ =>
      assert (Hcond : ∃ b2 st2, c st1 = Done b2 st2 ∧
                (b2 = true → ∃ st3, k1 true st2 = Done () st3) ∧
                k1 false st2 = Done () st2)
    end.
    { unfold andM at 1. unfold gets at 1. unfold bind at 1.
      destruct (segment_based_rebuild_ (rb st1)) eqn:Eseg;
        [|eexists false, _; split_and!; [reflexivity|discriminate|reflexivity]].
      destruct (visit_skiplist_returns record st1 r1 Hl1 Hc Hstride)
        as (sampled & st2 & Hvisit & Hkv2 & Hcp2).
      unfold andM at 1. unfold bind at 1. rewrite Hvisit.
      destruct sampled;
        [|eexists false, st2; split_and!; [reflexivity|discriminate|reflexivity]].
      assert (Hl2 : load record st2 = Done r1 st2).
      { apply load_done in Hl1 as (_ & _ & Hl1). apply load_eq; [done|]. by rewrite Hkv2. }
      assert (Hfind : findCheckpointVersion fuel record st2 = Done record st2).
      { unfold findCheckpointVersion.
        erewrite bind_eq with (st' := st2); last first.
        { apply kvdk_assert_true. intros _. unfold ret. by rewrite bool_decide_eq_true_2. }
        unfold recoverToCheckpoint, CheckpointTS, gets, ret, bind at 1, bind at 1.
        rewrite Hcp2. simpl. by rewrite Hcp. }
      unfold andM at 1. unfold bind at 1. unfold bind at 1. rewrite Hfind.
      unfold ret at 1. rewrite bool_decide_eq_true_2 by done.
      unfold bind at 1. rewrite Hl2. unfold ret at 1.
      eexists _, st2. split; [reflexivity|]. split; [|done].
      intros _.
      destruct (build_start_node_returns record k fuel st2 Hfuel Hmax)
        as (start & st3 & Hb & Hrb3 & [node Hnode] & Hstart); [by rewrite Hkv2|].
      rewrite (bind_eq _ _ _ _ _ Hb). cbv beta.
      unfold addRecoverySegment. unfold gets at 1. unfold bind at 1.
      destruct (segment_based_rebuild_ (rb st3)); [|by eexists].
      rewrite (bind_eq _ _ _ _ _ (load_node_eq _ _ _ Hstart Hnode)). by eexists. }
    destruct Hcond as (b2 & st2 & Hc2 & Htrue & Hfalse).
    unfold bind at 1. unfold bind at 1. rewrite Hc2. destruct b2.
    + destruct (Htrue eq_refl) as [st3 H3]. rewrite H3. eauto.
    + rewrite Hfalse. eauto.
  - destruct (intake_unlinked_returns record st1) as [st' Hu]; [done..|].
    rewrite (bind_eq _ _ _ _ _ Hu). eauto.
Qed.
(** *** Intake of an element in segment-based recovery to a checkpoint *)

Lemma versions_record_at st st' p r :
  versions st' = versions st → record_at st p = Some r →
  ∃ r', record_at st' p = Some r' ∧ version r' = version r.
Proof.
  intros Hv. unfold record_at. case_decide; [done|]. intros Hr.
  assert (Hl : versions st' !! p = Some (version r)).
  { rewrite Hv. unfold versions. by rewrite lookup_fmap, Hr. }
  unfold versions in Hl. rewrite lookup_fmap in Hl.
  destruct (pmem (kv_engine_ st') !! p) as [r'|]; [|done].
  exists r'. split; [done|]. simpl in Hl. congruence.
Qed.

Lemma version_fields r' r :
  version r' = version r →
  GetTimestamp r' = GetTimestamp r ∧ Validate r' = Validate r ∧ Key r' = Key r ∧
  old_version r' = old_version r ∧ GetRecordType r' = GetRecordType r ∧
  FetchID r' = FetchID r.
Proof.
  unfold version, payload, FetchID, GetTimestamp, Validate, GetRecordType.
  intros Hv. injection Hv as ? ? ? ? ? ? ? ? ?. split_and!; congruence.
Qed.

Lemma versions_ancestor st st' :
  versions st' = versions st → ∀ n p, ancestor st' p n = ancestor st p n.
Proof.
  intros Hv. induction n as [|n IH]; intros p; [done|]. simpl.
  destruct (record_at st p) as [r|] eqn:Hr.
  - destruct (versions_record_at _ _ _ _ Hv Hr) as (r' & -> & Hr').
    destruct (version_fields _ _ Hr') as (_ & _ & _ & -> & _). apply IH.
  - destruct (record_at st' p) as [r'|] eqn:Hr'; [|done].
    destruct (versions_record_at st' st p r' (eq_sym Hv) Hr') as (r & Hr2 & _).
    congruence.
Qed.

Lemma versions_chain_ends st st' p input input' n :
  versions st' = versions st → checkpoint_ts (rb st') = checkpoint_ts (rb st) →
  version input' = version input →
  chain_ends st p input n → chain_ends st' p input' n.
Proof.
  intros Hv Hcp Hin [Hpast Hend].
  destruct (version_fields _ _ Hin) as (_ & _ & Hkey & _ & _ & Hid).
  assert (Hchk : ∀ r r', version r' = version r →
            older_version_checked input r → older_version_checked input' r').
  { intros r r' Hr Hc Hd. destruct (version_fields _ _ Hr) as (_ & -> & -> & _).
    rewrite Hkey. by apply Hc. }
  split.
  - intros i Hi. destruct (Hpast i Hi) as (r & Hr & Hts & Hrest).
    rewrite <- (versions_ancestor _ _ Hv) in Hr.
    destruct (versions_record_at _ _ _ _ Hv Hr) as (r' & Hr' & Hvr).
    destruct (version_fields _ _ Hvr) as (Hts' & _ & _ & _ & _ & Hid').
    exists r'. split; [done|]. rewrite Hcp, Hts'. split; [done|].
    intros H0. destruct (Hrest H0) as [Hi1 Hi2]. split; [congruence|by eapply Hchk].
  - rewrite (versions_ancestor _ _ Hv). destruct Hend as [Hnull|(r & Hr & Hc & Hstop)].
    + by left.
    + right. destruct (versions_record_at _ _ _ _ Hv Hr) as (r' & Hr' & Hvr).
      destruct (version_fields _ _ Hvr) as (Hts' & _ & _ & _ & _ & Hid').
      exists r'. split; [done|]. split; [intros H0; eapply Hchk; eauto|].
      rewrite Hcp, Hts', Hid', Hid. done.
Qed.

Lemma findCheckpointVersion_returns fuel p st input n :
  record_at st p = Some input → (n < fuel)%nat → chain_ends st p input n →
  ∃ v, findCheckpointVersion fuel p st = Done v st.
Proof.
  intros Hin Hfuel [Hpast Hend].
  rewrite (findCheckpointVersion_unfold _ _ _ _ Hin).
  destruct (0 <? checkpoint_ts (rb st)); [|by eexists].
  destruct (walk_spec p input st n Hin fuel p Hfuel Hpast) as [Hnull Hrec].
  destruct Hend as [Hn|(r & Hr & Hc & Hstop)]; [by eexists; apply Hnull|].
  destruct (Hrec r Hr Hc) as [Hother Hsame].
  destruct (decide (n = 0%nat ∨ FetchID r = FetchID input)) as [Hok|Hno].
  - destruct Hstop as [Hstop|Hts].
    + eexists. by apply Hother.
    + eexists. by apply Hsame.
  - eexists. apply Hother. split; [|naive_solver]. destruct n; [naive_solver|lia].
Qed.

Lemma update_record_versions p f st u st' :
  (∀ r, version (f r) = version r) →
  update_record p f st = Done u st' → versions st' = versions st.
Proof.
  intros Hf Hu. unfold update_record, store, modify, bind in Hu.
  destruct (load p st) as [r st0|] eqn:Hl; [|done].
  apply load_done in Hl as (-> & Hp & Hr). injection Hu as _ <-.
  unfold versions. cbn [kv_engine_ on_engine set_pmem pmem].
  rewrite fmap_insert, Hf. apply insert_id. by rewrite lookup_fmap, Hr.
Qed.

Lemma CheckAndRepairLinkage_versions p st b st' :
  CheckAndRepairLinkage p st = Done b st' → versions st' = versions st.
Proof.
  unfold CheckAndRepairLinkage, PersistPrevNT, PersistNextNT. intros Hc. inv_bind.
  apply load_state in Hm as ->.
  apply CheckPrevLinkage_state in Hm0 as ->.
  apply CheckNextLinkage_state in Hm1 as ->.
  destruct a0, a1; inv_bind; try done;
    match goal with
    | Hu : update_record _ _ _ = Done _ _ |- _ =>
        by apply update_record_versions in Hu
    end.
Qed.

Lemma AddElement_segment_walk fuel record st r k :
  load record st = Done r st → mapped st (prev r) → mapped st (next r) →
  (0 < KVDK_DEBUG_LEVEL → GetRecordType r = RecordType.SortedElem) →
  rebuilder_thread_cache_ (rb st) ≠ [] →
  kRestoreSkiplistStride ≠ 0 →
  (k < fuel)%nat → kMaxHeight ≠ 0%nat →
  randomHeight (rng_draws (kv_engine_ st) + N.of_nat k) ≠ 0%nat →
  (∀ st2, versions st2 = versions st →
          checkpoint_ts (rb st2) = checkpoint_ts (rb st) →
          ∃ v, findCheckpointVersion fuel record st2 = Done v st2) →
  ∃ st', AddElement fuel record st = Done Status.Ok st'.
Proof.
  intros Hl Hp Hn Hty Hc Hstride Hfuel Hmax Hdraw Hwalk.
  destruct (CheckAndRepairLinkage_mapped _ _ _ Hl Hp Hn) as (b & st1 & Hr & Hk & Hrb & Htid).
  pose proof (CheckAndRepairLinkage_versions _ _ _ _ Hr) as Hv1.
  pose proof (CheckAndRepairLinkage_only_pmem _ _ _ _ Hr) as [m ->].
  pose proof (Hk _ (mapped_load _ _ _ _ Hl)) as Hm1.
  unfold AddElement.
  erewrite bind_eq; last first.
  { apply kvdk_assert_true. intros Hd. rewrite (bind_eq _ _ _ _ _ Hl).
    unfold ret. by rewrite bool_decide_eq_true_2; auto. }
  rewrite (bind_eq _ _ _ _ _ Hr). cbv beta.
  set (st1 := on_engine (set_pmem (λ _, m)) st) in *.
  destruct b; simpl.
  - destruct (load_mapped _ _ Hm1) as [r1 Hl1].
    assert (Hnn : record ≠ kNullPMemOffset) by apply Hm1.
    match goal with |- ∃ st', bind (bind ?c ?k1) ?k2 st1 = _ =>
      assert (Hcond : ∃ b2 st2, c st1 = Done b2 st2 ∧
                (b2 = true → ∃ st3, k1 true st2 = Done () st3) ∧
                k1 false st2 = Done () st2)
    end.
    { unfold andM at 1. unfold gets at 1. unfold bind at 1.
      destruct (segment_based_rebuild_ (rb st1)) eqn:Eseg;
        [|eexists false, _; split_and!; [reflexivity|discriminate|reflexivity]].
      destruct (visit_skiplist_returns record st1 r1 Hl1 Hc Hstride)
        as (sampled & st2 & Hvisit & Hkv2 & Hcp2).
      unfold andM at 1. unfold bind at 1. rewrite Hvisit.
      destruct sampled;
        [|eexists false, st2; split_and!; [reflexivity|discriminate|reflexivity]].
      assert (Hl2 : load record st2 = Done r1 st2).
      { apply load_done in Hl1 as (_ & _ & Hl1). apply load_eq; [done|]. by rewrite Hkv2. }
      destruct (Hwalk st2) as [v Hfind].
      { unfold versions. rewrite Hkv2. exact Hv1. }
      { by rewrite Hcp2. }
      unfold andM at 1. unfold bind at 1. unfold bind at 1. rewrite Hfind.
      unfold ret at 1.
      destruct (bool_decide (v = record));
        [|eexists false, st2; split_and!; [reflexivity|discriminate|reflexivity]].
      unfold bind at 1. rewrite Hl2. unfold ret at 1.
      eexists _, st2. split; [reflexivity|]. split; [|done].
      intros _.
      destruct (build_start_node_returns record k fuel st2 Hfuel Hmax)
        as (start & st3 & Hb & Hrb3 & [node Hnode] & Hstart); [by rewrite Hkv2|].
      rewrite (bind_eq _ _ _ _ _ Hb). cbv beta.
      unfold addRecoverySegment. unfold gets at 1. unfold bind at 1.
      destruct (segment_based_rebuild_ (rb st3)); [|by eexists].
      rewrite (bind_eq _ _ _ _ _ (load_node_eq _ _ _ Hstart Hnode)). by eexists. }
    destruct Hcond as (b2 & st2 & Hc2 & Htrue & Hfalse).
    unfold bind at 1. unfold bind at 1. rewrite Hc2. destruct b2.
    + destruct (Htrue eq_refl) as [st3 H3]. rewrite H3. eauto.
    + rewrite Hfalse. eauto.
  - destruct (intake_unlinked_returns record st1) as [st' Hu]; [done..|].
    rewrite (bind_eq _ _ _ _ _ Hu). eauto.
Qed.

Lemma AddElement_checkpoint_returns fuel record st r k n :
  load record st = Done r st → mapped st (prev r) → mapped st (next r) →
  (0 < KVDK_DEBUG_LEVEL → GetRecordType r = RecordType.SortedElem) →
  rebuilder_thread_cache_ (rb st) ≠ [] →
  kRestoreSkiplistStride ≠ 0 →
  (k < fuel)%nat → kMaxHeight ≠ 0%nat →
  randomHeight (rng_draws (kv_engine_ st) + N.of_nat k) ≠ 0%nat →
  (n < fuel)%nat → chain_ends st record r n →
  ∃ st', AddElement fuel record st = Done Status.Ok st'.
Proof.
  intros Hl Hp Hn Hty Hc Hstride Hfuel Hmax Hdraw Hnf Hends.
  apply (AddElement_segment_walk fuel record st r k Hl Hp Hn Hty Hc Hstride Hfuel Hmax Hdraw).
  intros st2 Hv Hcp.
  apply load_done in Hl as (_ & Hnn & Hr).
  assert (Hin : record_at st record = Some r).
  { unfold record_at. by rewrite decide_False. }
  destruct (versions_record_at _ _ _ _ Hv Hin) as (r2 & Hr2 & Hvr).
  eapply (findCheckpointVersion_returns fuel record st2 r2 n); [done..|].
  by eapply versions_chain_ends.
Qed.




(** *** The checkpoint version of a record *)

Lemma walk_assert_fails p input st n fuel r :
  record_at st p = Some input →
  (n < fuel)%nat →
  (∀ i, (i ≤ n)%nat → walks_past st p input i) →
  record_at st (ancestor st p (S n)) = Some r →
  0 < KVDK_DEBUG_LEVEL → Validate r = false ∨ Key r ≠ Key input →
  findCheckpointVersion_walk fuel p (FetchID input) p st = Crash AssertionFailed.
Proof.
  intros Hin Hfuel Hpast Hr Hd Hbad.
  destruct (Hpast n ltac:(lia)) as (rn & Hrn & Htsn & _).
  replace fuel with (n + S (fuel - S n))%nat by lia.
  rewrite (walk_advance p input st n Hin _ p Hpast).
  rewrite ancestor_S_r, Hrn in Hr.
  by eapply walk_step_assert.
Qed.

(** C1 (amended). When recovery does not target a checkpoint (checkpoint
    timestamp zero), [findCheckpointVersion] returns its input unchanged.
    Otherwise it walks the [old_version] chain for as long as the timestamp
    of the current record exceeds the checkpoint timestamp.  If the walk
    goes past the first n records of the chain, each older version among
    them passing the two assertions of the walk (in a debug build it
    validates and carries the key of the input), then with enough fuel the
    result is null when the chain ends there, or when the n-th ancestor
    passes the assertions and carries another collection ID than the input;
    it is the n-th ancestor when that passes the assertions, carries the ID
    of the input and has a timestamp of at most the checkpoint timestamp;
    and in a debug build the walk stops on a failed assertion when the n-th
    ancestor does not validate or carries another key. *)
Theorem findCheckpointVersion_spec (pmem_record : PMemOffsetType) (st : State)
    (input : DLRecord) :
  record_at st pmem_record = Some input →
  (checkpoint_ts (rb st) = 0 →
     ∀ fuel, findCheckpointVersion fuel pmem_record st = Done pmem_record st) ∧
  (0 < checkpoint_ts (rb st) →
     ∀ (n fuel : nat), (n < fuel)%nat →
     (∀ i, (i < n)%nat → walks_past st pmem_record input i) →
     let q := ancestor st pmem_record n in
     let result := findCheckpointVersion fuel pmem_record st in
     (q = kNullPMemOffset → result = Done kNullPMemOffset st) ∧
     (∀ r, record_at st q = Some r →
        ((0 < n)%nat → older_version_checked input r) →
        ((0 < n)%nat ∧ FetchID r ≠ FetchID input → result = Done kNullPMemOffset st) ∧
        ((n = 0%nat ∨ FetchID r = FetchID input) →
           GetTimestamp r ≤ checkpoint_ts (rb st) → result = Done q st)) ∧
     (∀ r, (0 < n)%nat → record_at st q = Some r →
        0 < KVDK_DEBUG_LEVEL → Validate r = false ∨ Key r ≠ Key input →
        result = Crash AssertionFailed)).
Proof.
  intros Hin.
  pose proof (findCheckpointVersion_unfold) as Hpre.
  split.
  - intros Hts fuel. rewrite (Hpre _ _ _ _ Hin), Hts. done.
  - intros Hts n fuel Hfuel Hpast q result. subst result.
    rewrite (Hpre _ _ _ _ Hin).
    rewrite (proj2 (N.ltb_lt _ _) Hts).
    destruct (walk_spec pmem_record input st n Hin fuel pmem_record Hfuel Hpast)
      as [Hnull Hrec].
    split; [exact Hnull|]. split; [exact Hrec|].
    intros r Hn Hr Hd Hbad. subst q.
    destruct n as [|n]; [lia|].
    eapply (walk_assert_fails pmem_record input st n fuel r); try done; [lia|].
    intros i Hi. apply Hpast. lia.
Qed.

(** *** Records taken out of a list *)

Lemma record_at_store st p r q :
  p ≠ kNullPMemOffset →
  record_at (on_engine (set_pmem <[p := r]>) st) q =
  if decide (q = p) then Some r else record_at st q.
Proof.
  intros Hp. unfold record_at. cbn [kv_engine_ on_engine set_pmem pmem].
  destruct (decide (q = p)) as [->|Hne].
  - rewrite decide_False by done. by rewrite lookup_insert_eq.
  - by rewrite lookup_insert_ne.
Qed.

Lemma record_at_not_null st p r : record_at st p = Some r → p ≠ kNullPMemOffset.
Proof. intros Hr ->. by rewrite record_at_null in Hr. Qed.

Lemma record_at_lookup st p r :
  record_at st p = Some r → pmem (kv_engine_ st) !! p = Some r.
Proof. unfold record_at. by case_decide. Qed.

Lemma payload_frame_store st p r r' :
  record_at st p = Some r → payload r' = payload r →
  payload_frame st (on_engine (set_pmem <[p := r']>) st).
Proof.
  intros Hr Hp. unfold payload_frame. cbn [kv_engine_ on_engine set_pmem pmem].
  rewrite fmap_insert, Hp. apply insert_id. rewrite lookup_fmap.
  by rewrite (record_at_lookup _ _ _ Hr).
Qed.

#[local] Instance payload_frame_preorder : PreOrder payload_frame.
Proof.
  split.
  - intros st. unfold payload_frame. done.
  - intros st1 st2 st3 H12 H23. unfold payload_frame in *. congruence.
Qed.

Lemma mapped_of_record_at st p r : record_at st p = Some r → mapped st p.
Proof.
  intros Hr. split; [by eapply record_at_not_null|].
  rewrite (record_at_lookup _ _ _ Hr). eauto.
Qed.

Lemma Skiplist_Remove_unlinks e st re p n :
  record_at st e = Some re → prev re = p → next re = n →
  next_at st p = Some e → is_Some (record_at st n) →
  ∃ st', Skiplist_Remove e st = Done true st' ∧
         only_pmem st st' ∧
         next_at st' p = Some n ∧
         prev_at st' n = Some p ∧
         (∀ q, q ≠ p → next_at st' q = next_at st q) ∧
         (∀ q, q ≠ n → prev_at st' q = prev_at st q) ∧
         (∀ q, old_version_at st' q = old_version_at st q) ∧
         payload_frame st st'.
Proof.
  intros Hre <- <- Hp [rn Hrn]. unfold next_at in Hp.
  destruct (record_at st (prev re)) as [rp|] eqn:Hrp; [|done].
  injection Hp as Hp.
  pose proof (record_at_not_null _ _ _ Hrp) as Hpn.
  pose proof (record_at_not_null _ _ _ Hrn) as Hnn.
  set (st1 := on_engine (set_pmem <[next re := with_prev (prev re) rn]>) st).
  set (rp' := if decide (prev re = next re) then with_prev (prev re) rn else rp).
  assert (Hrp1 : record_at st1 (prev re) = Some rp').
  { unfold st1. rewrite record_at_store by done. unfold rp'. by case_decide. }
  exists (on_engine (set_pmem <[prev re := with_next (next re) rp']>) st1).
  split.
  { unfold Skiplist_Remove.
    rewrite (bind_eq _ _ _ _ _ (load_record_at _ _ _ Hre)). cbv beta.
    rewrite (bind_eq _ _ _ _ _ (CheckPrevLinkage_eval _ _ _ _ Hre Hrp)). cbv beta.
    rewrite bool_decide_eq_true_2 by done.
    unfold PersistPrevNT, PersistNextNT.
    rewrite (bind_eq _ _ _ _ _ (update_record_eq _ _ _ _ (load_record_at _ _ _ Hrn))).
    cbv beta. fold st1.
    rewrite (bind_eq _ _ _ _ _ (update_record_eq _ _ _ _ (load_record_at _ _ _ Hrp1))).
    reflexivity. }
  split; [by eexists|].
  assert (Hat : ∀ q, record_at (on_engine (set_pmem <[prev re := with_next (next re) rp']>) st1) q
            = if decide (q = prev re) then Some (with_next (next re) rp')
              else if decide (q = next re) then Some (with_prev (prev re) rn)
              else record_at st q).
  { intros q. rewrite record_at_store by done. case_decide; [done|].
    unfold st1. by rewrite record_at_store by done. }
  split_and!.
  - unfold next_at. rewrite Hat. by rewrite decide_True.
  - unfold prev_at. rewrite Hat. unfold rp'.
    destruct (decide (next re = prev re)) as [Heq|Hne].
    + rewrite decide_True by done. by rewrite Heq.
    + rewrite decide_True by done. done.
  - intros q Hq. unfold next_at. rewrite Hat. rewrite decide_False by done.
    case_decide as Hqn; [|done]. subst q. by rewrite Hrn.
  - intros q Hq. unfold prev_at. rewrite Hat. rewrite (decide_False (P := q = next re)) by done.
    case_decide as Hqp; [|done]. subst q. rewrite Hrp. unfold rp'.
    case_decide as Hpn'; [|done]. by rewrite Hpn' in Hq.
  - intros q. unfold old_version_at. rewrite Hat. unfold rp'.
    destruct (decide (q = prev re)) as [->|Hqp].
    + rewrite Hrp. case_decide as Hpn'; [|done]. simpl. rewrite Hpn' in Hrp. congruence.
    + case_decide as Hqn; [|done]. subst q. by rewrite Hrn.
  - transitivity st1.
    + by apply (payload_frame_store st (next re) rn).
    + by apply (payload_frame_store st1 (prev re) rp').
Qed.

Lemma invalid_version_null (v : PMemOffsetType) st :
  v = kNullPMemOffset →
  orM (ret (bool_decide (v = kNullPMemOffset)))
      (r ← load v; ret (bool_decide (GetRecordStatus r = RecordStatus.Outdated))) st
  = Done true st.
Proof. intros ->. rewrite orM_ret. by rewrite bool_decide_eq_true_2. Qed.

(** The turn of the loop of [rebuildSkiplistIndex] at an element for which
    [findCheckpointVersion] returns null. *)
Lemma rebuildSkiplistIndex_walk_invisible fuel s prevs q num st rq p input hd :
  HeaderRecord s st = Done hd st →
  record_at st q = Some rq → next rq = p → p ≠ hd →
  record_at st p = Some input → prev input = q →
  is_Some (record_at st (next input)) →
  rebuilder_thread_cache_ (rb st) ≠ [] →
  findCheckpointVersion (S fuel) p st = Done kNullPMemOffset st →
  ∃ st_r,
    Skiplist_Remove p st = Done true st_r ∧ only_pmem st st_r ∧
    next_at st_r q = Some (next input) ∧ prev_at st_r (next input) = Some q ∧
    p ∈ queued (queue_unlinked p st_r) ∧
    rebuildSkiplistIndex_walk (S fuel) s prevs q num st =
    rebuildSkiplistIndex_walk fuel s prevs q num (queue_unlinked p st_r).
Proof.
  intros Hhd Hrq Hnext Hne Hin Hprev Hsucc Hcache Hfind.
  destruct (Skiplist_Remove_unlinks p st input q (next input) Hin Hprev eq_refl)
    as (st_r & Hremove & Hpm & H1 & H2 & _); [|done|].
  { unfold next_at. rewrite Hrq. simpl. by rewrite Hnext. }
  assert (Hcache' : rebuilder_thread_cache_ (rb st_r) ≠ []) by (by destruct Hpm as [m ->]).
  exists st_r. split_and!; [done..|by apply queue_unlinked_queued|].
  cbn [rebuildSkiplistIndex_walk].
  rewrite (bind_eq _ _ _ _ _ (load_record_at _ _ _ Hrq)). cbv beta zeta.
  rewrite Hnext.
  rewrite (bind_eq _ _ _ _ _ (offset2addr_checked_mapped _ _ (mapped_of_record_at _ _ _ Hin))).
  cbv beta. rewrite (bind_eq _ _ _ _ _ Hhd). cbv beta.
  rewrite decide_False by done.
  rewrite (bind_eq _ _ _ _ _ (load_record_at _ _ _ Hin)). cbv beta zeta.
  rewrite (bind_eq _ _ _ _ _ Hfind). cbv beta.
  rewrite (bind_eq _ _ _ _ _ (invalid_version_null _ st eq_refl)). cbv iota beta.
  rewrite (bind_eq _ _ _ _ _ Hremove). cbv beta.
  erewrite (bind_eq _ _ st_r () st_r); [|by apply kvdk_assert_true].
  by rewrite (bind_eq _ _ _ _ _ (addUnlinkedRecord_eq p st_r Hcache')).
Qed.

(** The same turn of the loop of [rebuildSegmentIndex], at an element that
    does not start a segment. *)
Lemma rebuildSegmentIndex_walk_invisible fuel s b cur q num st rq p input hd :
  HeaderRecord s st = Done hd st →
  record_at st q = Some rq → next rq = p → p ≠ hd →
  recovery_segments_ (rb st) !! p = None →
  record_at st p = Some input → prev input = q →
  is_Some (record_at st (next input)) →
  rebuilder_thread_cache_ (rb st) ≠ [] →
  findCheckpointVersion (S fuel) p st = Done kNullPMemOffset st →
  ∃ st_r,
    Skiplist_Remove p st = Done true st_r ∧ only_pmem st st_r ∧
    next_at st_r q = Some (next input) ∧ prev_at st_r (next input) = Some q ∧
    p ∈ queued (queue_unlinked p st_r) ∧
    rebuildSegmentIndex_walk (S fuel) s b cur q num st =
    rebuildSegmentIndex_walk fuel s b cur q num (queue_unlinked p st_r).
Proof.
  intros Hhd Hrq Hnext Hne Hseg Hin Hprev Hsucc Hcache Hfind.
  destruct (Skiplist_Remove_unlinks p st input q (next input) Hin Hprev eq_refl)
    as (st_r & Hremove & Hpm & H1 & H2 & _); [|done|].
  { unfold next_at. rewrite Hrq. simpl. by rewrite Hnext. }
  assert (Hcache' : rebuilder_thread_cache_ (rb st_r) ≠ []) by (by destruct Hpm as [m ->]).
  exists st_r. split_and!; [done..|by apply queue_unlinked_queued|].
  cbn [rebuildSegmentIndex_walk].
  rewrite (bind_eq _ _ _ _ _ (load_record_at _ _ _ Hrq)). cbv beta zeta.
  rewrite Hnext.
  rewrite (bind_eq _ _ _ _ _ (offset2addr_checked_mapped _ _ (mapped_of_record_at _ _ _ Hin))).
  cbv beta. rewrite (bind_eq _ _ _ _ _ Hhd). cbv beta.
  rewrite decide_False by done.
  unfold gets at 1. unfold bind at 1. rewrite Hseg.
  rewrite (bind_eq _ _ _ _ _ (load_record_at _ _ _ Hin)). cbv beta zeta.
  rewrite (bind_eq _ _ _ _ _ Hfind). cbv beta.
  rewrite (bind_eq _ _ _ _ _ (invalid_version_null _ st eq_refl)). cbv iota beta.
  rewrite (bind_eq _ _ _ _ _ Hremove). cbv beta.
  erewrite (bind_eq _ _ st_r () st_r); [|by apply kvdk_assert_true].
  by rewrite (bind_eq _ _ _ _ _ (addUnlinkedRecord_eq p st_r Hcache')).
Qed.


(** C5 (amended). During the walk of [findCheckpointVersion], a visited
    older version that passes the two assertions of the walk and carries
    another collection ID than the input makes the walk return null, and the
    index rebuild then treats the element as not visible: the loops of
    [rebuildSkiplistIndex] and of [rebuildSegmentIndex] take an element that
    is linked after the record they stand at out of the list, queue it as
    unlinked and go on from the same record with the same count and the same
    splice, so that it gets no node and no hash entry.  An older version
    that fails [Validate] or carries another key fails a [kvdk_assert]: a
    debug build stops there, and a release build does not look at either, so
    that such a version is returned when its ID and timestamp qualify. *)
Theorem older_version_mismatch (pmem_record : PMemOffsetType) (st : State)
    (input r : DLRecord) (n fuel : nat) :
  record_at st pmem_record = Some input →
  0 < checkpoint_ts (rb st) →
  (S n < fuel)%nat →
  (∀ i, (i ≤ n)%nat → walks_past st pmem_record input i) →
  record_at st (ancestor st pmem_record (S n)) = Some r →
  (FetchID r ≠ FetchID input → older_version_checked input r →
     findCheckpointVersion fuel pmem_record st = Done kNullPMemOffset st ∧
     ∀ skiplist hd q rq,
       HeaderRecord skiplist st = Done hd st →
       record_at st q = Some rq → next rq = pmem_record → pmem_record ≠ hd →
       prev input = q → is_Some (record_at st (next input)) →
       rebuilder_thread_cache_ (rb st) ≠ [] →
       ∃ st_r,
         Skiplist_Remove pmem_record st = Done true st_r ∧ only_pmem st st_r ∧
         next_at st_r q = Some (next input) ∧ prev_at st_r (next input) = Some q ∧
         pmem_record ∈ queued (queue_unlinked pmem_record st_r) ∧
         (∀ prevs num,
            rebuildSkiplistIndex_walk fuel skiplist prevs q num st =
            rebuildSkiplistIndex_walk (pred fuel) skiplist prevs q num
              (queue_unlinked pmem_record st_r)) ∧
         (recovery_segments_ (rb st) !! pmem_record = None →
          ∀ build_hash_index cur_node num,
            rebuildSegmentIndex_walk fuel skiplist build_hash_index cur_node q num st =
            rebuildSegmentIndex_walk (pred fuel) skiplist build_hash_index cur_node q num
              (queue_unlinked pmem_record st_r))) ∧
  (0 < KVDK_DEBUG_LEVEL → Validate r = false ∨ Key r ≠ Key input →
     findCheckpointVersion fuel pmem_record st = Crash AssertionFailed) ∧
  (KVDK_DEBUG_LEVEL = 0 → FetchID r = FetchID input →
     GetTimestamp r ≤ checkpoint_ts (rb st) →
     findCheckpointVersion fuel pmem_record st =
       Done (ancestor st pmem_record (S n)) st).
Proof.
  intros Hin Hcp Hfuel Hpast Hr.
  assert (Hpast' : ∀ i, (i < S n)%nat → walks_past st pmem_record input i).
  { intros i Hi. apply Hpast. lia. }
  pose proof (walk_spec pmem_record input st (S n) Hin fuel pmem_record Hfuel Hpast')
    as [_ Hspec].
  pose proof (findCheckpointVersion_unfold fuel pmem_record st input Hin) as Hun.
  rewrite (proj2 (N.ltb_lt _ _) Hcp) in Hun.
  split_and!.
  - intros Hid Hchk.
    assert (Hnull : findCheckpointVersion fuel pmem_record st = Done kNullPMemOffset st).
    { rewrite Hun. apply (proj1 (Hspec r Hr (λ _, Hchk))). split; [lia|done]. }
    split; [exact Hnull|].
    intros skiplist hd q rq Hhd Hrq Hnext Hne Hprev Hsucc Hcache.
    destruct fuel as [|fuel]; [lia|]. cbn [pred].
    destruct (rebuildSkiplistIndex_walk_invisible fuel skiplist ∅ q 0 st rq pmem_record
                input hd Hhd Hrq Hnext Hne Hin Hprev Hsucc Hcache Hnull)
      as (st_r & Hremove & Hpm & H1 & H2 & H3 & _).
    exists st_r. split_and!; [done..| |].
    + intros prevs num.
      destruct (rebuildSkiplistIndex_walk_invisible fuel skiplist prevs q num st rq
                  pmem_record input hd Hhd Hrq Hnext Hne Hin Hprev Hsucc Hcache Hnull)
        as (st_r' & Hremove' & _ & _ & _ & _ & Hwalk).
      rewrite Hremove in Hremove'. by injection Hremove' as <-.
    + intros Hseg b cur num.
      destruct (rebuildSegmentIndex_walk_invisible fuel skiplist b cur q num st rq
                  pmem_record input hd Hhd Hrq Hnext Hne Hseg Hin Hprev Hsucc Hcache Hnull)
        as (st_r' & Hremove' & _ & _ & _ & _ & Hwalk).
      rewrite Hremove in Hremove'. by injection Hremove' as <-.
  - intros Hd Hbad. rewrite Hun.
    destruct (Hpast n ltac:(lia)) as (rn & Hrn & Htsn & _).
    replace fuel with (n + S (fuel - S n))%nat by lia.
    rewrite (walk_advance pmem_record input st n Hin _ pmem_record Hpast).
    rewrite ancestor_S_r, Hrn in Hr.
    by eapply walk_step_assert.
  - intros Hd Hid Hts. rewrite Hun.
    apply (proj2 (Hspec r Hr ltac:(intros _ Hd'; lia))); [by right|done].
Qed.

End Proofs.

(** ** The properties at concrete inputs *)

Lemma findCheckpointVersion_spec_witness :
  findCheckpointVersion (H := debug_engine 2) 5 200 (version_state true)
  = Done 300 (version_state true).
Proof.
  destruct (findCheckpointVersion_spec (H := debug_engine 2) 200 (version_state true)
              (elem RecordStatus.Normal "1a" 150 100 100 300) eq_refl) as [_ Hcp].
  refine (proj2 (proj1 (proj2 (Hcp _ 1%nat 5%nat _ _))
            (mkDLRecord RecordType.SortedElem RecordStatus.Normal "1a" "v" 50
                        100 100 null true 64 false) eq_refl _) _ _).
  - reflexivity.
  - lia.
  - intros i Hi. assert (i = 0%nat) as -> by lia.
    eexists. split; [reflexivity|]. split; [reflexivity|]. intros Hlt. lia.
  - intros _ _. split; reflexivity.
  - right. reflexivity.
  - vm_compute. discriminate.
Defined.

Lemma unrepairable_candidate_witness :
  let st := torn_state false in
  AddElement (H := debug_engine 2) 5 300 st
  = Done Status.Ok (purged 300 (elem RecordStatus.Normal "1b" 12 200 400 null) st).
Proof.
  intros st.
  refine (proj1 (proj2 (unrepairable_candidate (H := debug_engine 2) 300 5 st st
            (elem RecordStatus.Normal "1b" 12 200 400 null) eq_refl _ _)) _).
  - vm_compute. reflexivity.
  - intros Hts. vm_compute in Hts. discriminate.
  - intros _. reflexivity.
Defined.

Lemma Rollback_spec_witness :
  ∃ st1 st',
    Skiplist_Remove (H := debug_engine 2) 300 (torn_state true) = Done true st1 ∧
    Destroy (H := debug_engine 2) 300 st1 = Done () st' ∧
    Rollback (H := debug_engine 2) (mkSortedLogEntry 300) (torn_state true)
    = Done Status.Ok st'.
Proof.
  destruct (Rollback_spec (H := debug_engine 2) (mkSortedLogEntry 300) (torn_state true)
              (elem RecordStatus.Normal "1b" 12 200 400 null) eq_refl)
    as (linked & st1 & st' & r' & Hlinked & Hmid & Hdestroy & Hroll & _).
  - split; [discriminate|]. vm_compute. eauto.
  - split; [discriminate|]. vm_compute. eauto.
  - left. reflexivity.
  - vm_compute in Hlinked. injection Hlinked as <-.
    exists st1, st'. split; [exact Hmid|]. split; [exact Hdestroy|exact Hroll].
Defined.


Lemma clean_unlinked_spec_witness :
  ∃ st', clean_unlinked (H := debug_engine 2) reclaim_state = Done () st' ∧
         free_list (kv_engine_ st') = [mkSpaceEntry 300 64] ∧
         pmem (kv_engine_ st') !! 300 =
           Some (with_destroyed (elem RecordStatus.Normal "1b" 12 200 400 null)).
Proof.
  destruct (clean_unlinked_spec (H := debug_engine 2) reclaim_state)
    as (st' & Hclean & _ & Hfree & Hmem & _).
  - repeat constructor. exists (elem RecordStatus.Normal "1b" 12 200 400 null).
    split; [reflexivity|]. split; (split; [discriminate|]); vm_compute; eauto.
  - exists st'. split; [exact Hclean|]. split; [exact Hfree|].
    exact (Hmem 300 (elem RecordStatus.Normal "1b" 12 200 400 null) eq_refl).
Defined.

Lemma header_classification_witness :
  ∃ st' skiplist,
    resolve_header (H := debug_engine 2) 5 100 (torn_state false) = Done None st' ∧
    rebuild_skiplits_ (rb st') !! 49 = Some skiplist ∧
    (index_with_hashtable_ <$> skiplists (kv_engine_ st') !! skiplist) = Some true ∧
    (old_version <$> pmem (kv_engine_ st') !! 100) = Some null ∧
    (index_type <$> hash_table_ (kv_engine_ st') !! "list") = Some PointerType.Skiplist.
Proof.
  set (hr := header "1hdefault" 10 400 200 null).
  set (st1 := on_rebuilder (set_max_recovered_id (λ m, N.max m 49)) (torn_state false)).
  destruct (header_classification (H := debug_engine 2) 5 100 (torn_state false) hr 49
              (mkConfigs "default" true) 100 eq_refl eq_refl
              ltac:(vm_compute; left) eq_refl) as [_ Hvisible].
  destruct (Hvisible st1 hr hr eq_refl eq_refl (or_introl (conj eq_refl eq_refl)) eq_refl)
    as [_ Hrebuild].
  destruct (Hrebuild ltac:(discriminate) eq_refl (λ _, eq_refl))
    as (st' & skiplist & Hres & Hreb & (node & Hsl & _) & _ & Hmem & Htable).
  exists st', skiplist. split; [exact Hres|]. split; [exact Hreb|].
  split; [by rewrite Hsl|]. split; [by rewrite Hmem|].
  rewrite Htable. reflexivity.
Defined.

Lemma older_version_mismatch_witness :
  findCheckpointVersion (H := release_engine 2) 5 200 foreign_list_state
  = Done (kNullPMemOffset (Engine := release_engine 2)) foreign_list_state ∧
  ∃ st_r,
    Skiplist_Remove (H := release_engine 2) 200 foreign_list_state = Done true st_r ∧
    next_at (H := release_engine 2) st_r 100 = Some 100 ∧
    prev_at (H := release_engine 2) st_r 100 = Some 100 ∧
    rebuildSkiplistIndex_walk (H := release_engine 2) 5 2 ∅ 100 0 foreign_list_state =
    rebuildSkiplistIndex_walk (H := release_engine 2) 4 2 ∅ 100 0
      (queue_unlinked 200 st_r).
Proof.
  set (input := elem RecordStatus.Normal "1a" 150 100 100 300).
  set (older := elem RecordStatus.Normal "2a" 50 100 100 null).
  assert (Hin : record_at (H := release_engine 2) foreign_list_state 200 = Some input)
    by (vm_compute; reflexivity).
  assert (Hold : record_at (H := release_engine 2) foreign_list_state
                   (ancestor (H := release_engine 2) foreign_list_state 200 1)
                 = Some older) by (vm_compute; reflexivity).
  assert (Hcp : 0 < checkpoint_ts (rb foreign_list_state)) by (vm_compute; reflexivity).
  assert (Hpast : ∀ i, (i ≤ 0)%nat →
            walks_past (H := release_engine 2) foreign_list_state 200 input i).
  { intros i Hi. assert (i = 0%nat) as -> by lia.
    exists input. split; [exact Hin|]. split; [vm_compute; reflexivity|]. intros Hlt. lia. }
  destruct (older_version_mismatch (H := release_engine 2) 200 foreign_list_state
              input older 0 5 Hin Hcp ltac:(lia) Hpast Hold) as (Hother & _ & _).
  destruct Hother as [Hnull Hwalk].
  { vm_compute. discriminate. }
  { intros Hd. vm_compute in Hd. discriminate. }
  split; [exact Hnull|].
  destruct (Hwalk 2 100 100 (header "1hdefault" 10 200 200 null))
    as (st_r & Hremove & _ & Hn & Hp & _ & Hlist & _).
  - vm_compute. reflexivity.
  - vm_compute. reflexivity.
  - reflexivity.
  - discriminate.
  - reflexivity.
  - vm_compute. eauto.
  - vm_compute. discriminate.
  - exists st_r. split; [exact Hremove|]. split; [exact Hn|]. split; [exact Hp|].
    exact (Hlist ∅ 0).
Defined.

(** C1, as stated, fails in a debug build: the older version of the element
    at 200 carries another collection ID, and with it another key; the walk
    does not return null but stops on the failed key assertion. *)
Lemma foreign_older_version_not_null :
  (∃ r old, record_at (H := debug_engine 2) foreign_version_state 200 = Some r ∧
            checkpoint_ts (rb foreign_version_state) < GetTimestamp r ∧
            old_version r = 300 ∧
            record_at (H := debug_engine 2) foreign_version_state 300 = Some old ∧
            FetchID (H := debug_engine 2) old ≠ FetchID (H := debug_engine 2) r) ∧
  (∀ fuel, findCheckpointVersion (H := debug_engine 2) fuel 200 foreign_version_state
           ≠ Done (kNullPMemOffset (Engine := debug_engine 2)) foreign_version_state) ∧
  findCheckpointVersion (H := debug_engine 2) 5 200 foreign_version_state
    = Crash AssertionFailed.
Proof.
  split; [|split].
  - eexists _, _. split; [reflexivity|]. split; [reflexivity|]. split; [reflexivity|].
    split; [reflexivity|]. vm_compute. discriminate.
  - intros [|fuel]; [vm_compute; discriminate|].
    set (input := elem RecordStatus.Normal "1a" 150 100 100 300).
    set (older := elem RecordStatus.Normal "2a" 50 100 100 null).
    assert (Hin : record_at (H := debug_engine 2) foreign_version_state 200 = Some input)
      by (vm_compute; reflexivity).
    assert (Hold : record_at (H := debug_engine 2) foreign_version_state (old_version input)
                   = Some older) by (vm_compute; reflexivity).
    assert (Hts : checkpoint_ts (rb foreign_version_state) < GetTimestamp input)
      by (vm_compute; reflexivity).
    assert (Hd : 0 < KVDK_DEBUG_LEVEL (Engine := debug_engine 2))
      by (vm_compute; reflexivity).
    assert (Hkey : Key older ≠ Key input) by discriminate.
    rewrite (findCheckpointVersion_unfold (H := debug_engine 2) (S fuel) 200
               foreign_version_state input Hin).
    replace (0 <? checkpoint_ts (rb foreign_version_state)) with true
      by (vm_compute; reflexivity).
    rewrite (walk_step_assert (H := debug_engine 2) fuel 200 input
               (FetchID (H := debug_engine 2) input) 200 input older
               foreign_version_state Hin Hin Hts Hold Hd (or_intror Hkey)).
    discriminate.
  - vm_compute. reflexivity.
Qed.


(** C5, as stated, fails: in a release build an older version that does not
    validate is returned as the checkpoint version, and in a debug build the
    walk stops on a failed assertion; in neither does it return null. *)
Lemma invalid_older_version_not_null :
  (∃ r old, record_at (H := release_engine 2) (version_state false) 200 = Some r ∧
            old_version r = 300 ∧
            record_at (H := release_engine 2) (version_state false) 300 = Some old ∧
            Validate old = false) ∧
  findCheckpointVersion (H := release_engine 2) 5 200 (version_state false)
    = Done 300 (version_state false) ∧
  300 ≠ kNullPMemOffset (Engine := release_engine 2) ∧
  findCheckpointVersion (H := debug_engine 2) 5 200 (version_state false)
    = Crash AssertionFailed.
Proof.
  split; [|split; [|split]].
  - eexists _, _. split; [reflexivity|]. split; [reflexivity|]. split; reflexivity.
  - vm_compute. reflexivity.
  - discriminate.
  - vm_compute. reflexivity.
Qed.

(** C6, as stated, fails: a queued record that passes the [MatchType]
    re-check and fails the [CheckLinkage] re-check is destroyed and freed,
    although it does not fail both. *)
Lemma reclaimed_without_failing_both :
  ∃ r st',
    record_at (H := debug_engine 2) reclaim_state 300 = Some r ∧
    Skiplist_MatchType r = true ∧
    CheckLinkage (H := debug_engine 2) 300 reclaim_state = Done false reclaim_state ∧
    clean_unlinked (H := debug_engine 2) reclaim_state = Done () st' ∧
    free_list (kv_engine_ st') = [mkSpaceEntry 300 64] ∧
    (destroyed <$> pmem (kv_engine_ st') !! 300) = Some true.
Proof.
  eexists _, _. split; [reflexivity|]. split; [reflexivity|].
  split; [vm_compute; reflexivity|]. split; [vm_compute; reflexivity|].
  split; reflexivity.
Qed.

(** C2. The two modes part on a tombstone that intake nominates as a segment
    start: with a stride of 2 the second element a worker scans of the
    collection is the tombstone b.  List-based rebuild removes b from the
    list, counts two elements and indexes a and c; segment-based rebuild
    keeps b linked, counts three elements and indexes b as well. *)
Theorem segment_rebuild_keeps_tombstone_start :
  ∃ list_result list_st segment_result segment_st,
    recover (H := debug_engine 2) 20 [100; 200; 300; 400]
      (fresh_state tombstone_records 0 false 1) = Done list_result list_st ∧
    recover (H := debug_engine 2) 20 [100; 200; 300; 400]
      (fresh_state tombstone_records 0 true 1) = Done segment_result segment_st ∧
    s list_result = Status.Ok ∧ s segment_result = Status.Ok ∧
    (λ sl, size_ sl.2) <$> map_to_list (skiplists (kv_engine_ list_st)) = [2] ∧
    (λ sl, size_ sl.2) <$> map_to_list (skiplists (kv_engine_ segment_st)) = [3] ∧
    (next <$> pmem (kv_engine_ list_st) !! 200) = Some 400 ∧
    (next <$> pmem (kv_engine_ segment_st) !! 200) = Some 300 ∧
    hash_table_ (kv_engine_ list_st) !! "1b" = None ∧
    is_Some (hash_table_ (kv_engine_ segment_st) !! "1b") ∧
    free_list (kv_engine_ list_st) = [mkSpaceEntry 300 64] ∧
    free_list (kv_engine_ segment_st) = [].
Proof.
  eexists _, _, _, _.
  split; [vm_compute; reflexivity|]. split; [vm_compute; reflexivity|].
  split_and!; try reflexivity. vm_compute. eauto.
Qed.

(** * Further properties of the code *)

Set Default Proof Using "Type*".

(** ** Groups of volatile hash tables *)

Section VHashGroupFacts.
Context {B : Type} `{VHashGroup.Builder B}.

Lemma VHashGroup_pointer_insert (m : gmap string VHashGroup.VHashPtr) name other p :
  VHashGroup.pointer (<[name := p]> m) other =
  if decide (other = name) then p else VHashGroup.pointer m other.
Proof.
  unfold VHashGroup.pointer. destruct (decide (other = name)) as [->|Hne].
  - by rewrite lookup_insert_eq.
  - by rewrite lookup_insert_ne.
Qed.

Lemma VHashGroup_pointer_delete (m : gmap string VHashGroup.VHashPtr) name other :
  VHashGroup.pointer (delete name m) other =
  if decide (other = name) then nullptr else VHashGroup.pointer m other.
Proof.
  unfold VHashGroup.pointer. destruct (decide (other = name)) as [->|Hne].
  - by rewrite lookup_delete_eq.
  - by rewrite lookup_delete_ne.
Qed.

(** X1. [Create] succeeds exactly when the group has no table of that
    name.  A failed [Create] changes nothing; a successful one stores the
    table the builder returned, so that [Get] finds it (also when the
    builder returned null), and leaves every other name as it was. *)
Theorem VHashGroup_Create_Get (name : string) (g : VHashGroup.t B) :
  let r := VHashGroup.Create name g in
  r.1 = bool_decide (VHashGroup.Get name g = nullptr) ∧
  (VHashGroup.Get name g ≠ nullptr → r.2 = g) ∧
  (VHashGroup.Get name g = nullptr →
     VHashGroup.Get name r.2 = (VHashGroup.NewVHash (VHashGroup.vhb g) name).1 ∧
     VHashGroup.vhb r.2 = (VHashGroup.NewVHash (VHashGroup.vhb g) name).2) ∧
  (∀ other, other ≠ name → VHashGroup.Get other r.2 = VHashGroup.Get other g).
Proof.
  unfold VHashGroup.Create, VHashGroup.Get.
  destruct (decide (VHashGroup.pointer (VHashGroup.hpmap g) name ≠ nullptr)) as [Hp|Hp].
  - simpl. rewrite bool_decide_eq_false_2 by done. split_and!; done.
  - apply dec_stable in Hp.
    destruct (VHashGroup.NewVHash (VHashGroup.vhb g) name) as [vhash b] eqn:Hnew.
    simpl. rewrite bool_decide_eq_true_2 by done. split_and!; [done|done| |].
    + intros _. rewrite VHashGroup_pointer_insert. by rewrite decide_True.
    + intros other Hne. rewrite VHashGroup_pointer_insert. by rewrite decide_False.
Qed.

(** X2. [Destroy] succeeds exactly when the group has a table of that
    name.  A failed [Destroy] changes nothing; a successful one hands the
    table to the builder for recycling.  Afterwards [Get] finds no table
    under the name, every other name is as it was, and a second [Destroy]
    fails. *)
Theorem VHashGroup_Destroy_Get (name : string) (g : VHashGroup.t B) :
  let r := VHashGroup.Destroy name g in
  r.1 = bool_decide (VHashGroup.Get name g ≠ nullptr) ∧
  (VHashGroup.Get name g = nullptr → r.2 = g) ∧
  (VHashGroup.Get name g ≠ nullptr →
     VHashGroup.vhb r.2 = VHashGroup.Recycle (VHashGroup.vhb g) (VHashGroup.Get name g)) ∧
  VHashGroup.Get name r.2 = nullptr ∧
  (∀ other, other ≠ name → VHashGroup.Get other r.2 = VHashGroup.Get other g) ∧
  VHashGroup.Destroy name r.2 = (false, r.2).
Proof.
  unfold VHashGroup.Destroy, VHashGroup.Get.
  destruct (decide (VHashGroup.pointer (VHashGroup.hpmap g) name = nullptr)) as [Hp|Hp].
  - simpl. rewrite bool_decide_eq_false_2 by (intros Hn; by apply Hn).
    split_and!; try done. by rewrite decide_True.
  - simpl. rewrite bool_decide_eq_true_2 by done.
    assert (Hd : VHashGroup.pointer (delete name (VHashGroup.hpmap g)) name = nullptr).
    { rewrite VHashGroup_pointer_delete. by rewrite decide_True. }
    split_and!; try done.
    + intros other Hne. rewrite VHashGroup_pointer_delete. by rewrite decide_False.
    + by rewrite decide_True.
Qed.

(** X3. When the builder returns a table, creating a group under a free
    name and destroying it again gives back a group in which [Get] answers
    as before for every name; a second [Create] in between fails, and the
    builder has recycled the very table it built. *)
Theorem VHashGroup_Create_Destroy (name : string) (g : VHashGroup.t B) :
  VHashGroup.Get name g = nullptr →
  (VHashGroup.NewVHash (VHashGroup.vhb g) name).1 ≠ nullptr →
  let created := VHashGroup.Create name g in
  let destroyed := VHashGroup.Destroy name created.2 in
  created.1 = true ∧
  VHashGroup.Create name created.2 = (false, created.2) ∧
  destroyed.1 = true ∧
  (∀ n, VHashGroup.Get n destroyed.2 = VHashGroup.Get n g) ∧
  VHashGroup.vhb destroyed.2 =
    VHashGroup.Recycle (VHashGroup.NewVHash (VHashGroup.vhb g) name).2
                       (VHashGroup.NewVHash (VHashGroup.vhb g) name).1.
Proof.
  unfold VHashGroup.Get. intros Hfree Hnew.
  destruct (VHashGroup.NewVHash (VHashGroup.vhb g) name) as [vhash b] eqn:Hb.
  simpl in Hnew.
  assert (Hc : VHashGroup.Create name g
               = (true, VHashGroup.mk (<[name := vhash]> (VHashGroup.hpmap g)) b)).
  { unfold VHashGroup.Create. rewrite decide_False by (intros Hn; by apply Hn).
    by rewrite Hb. }
  rewrite Hc. cbn [fst snd].
  assert (Hp : VHashGroup.pointer (<[name := vhash]> (VHashGroup.hpmap g)) name = vhash).
  { rewrite VHashGroup_pointer_insert. by rewrite decide_True. }
  unfold VHashGroup.Create, VHashGroup.Destroy. cbn [VHashGroup.hpmap VHashGroup.vhb].
  rewrite Hp. rewrite decide_True by done. rewrite decide_False by done.
  cbn [fst snd VHashGroup.hpmap VHashGroup.vhb].
  split_and!; try done.
  intros n. rewrite VHashGroup_pointer_delete.
  destruct (decide (n = name)) as [->|Hne]; [done|].
  rewrite VHashGroup_pointer_insert. by rewrite decide_False.
Qed.

End VHashGroupFacts.

(** ** Frames: what a computation leaves alone *)

Create HintDb keeps discriminated.

Lemma keeps_modify (R : relation State) (g : State → State) :
  (∀ st, R st (g st)) → keeps R (modify g).
Proof. intros Hg st u st' Hm. injection Hm as _ <-. apply Hg. Qed.

Section Keeps.
Context `{Engine}.
Context (R : relation State) `{!PreOrder R}.

Lemma keeps_ret {A} (a : A) : keeps R (ret a).
Proof. intros st b st' [= <- <-]. reflexivity. Qed.
Lemma keeps_gets {A} (f : State → A) : keeps R (gets f).
Proof. intros st b st' [= <- <-]. reflexivity. Qed.
Lemma keeps_crash {A} e : keeps R (crash (A := A) e).
Proof. intros st b st' Hc. discriminate. Qed.
Lemma keeps_bind {A B} (m : M A) (f : A → M B) :
  keeps R m → (∀ a, keeps R (f a)) → keeps R (bind m f).
Proof.
  intros Hm Hf st b st'' Hb. apply bind_done_inv in Hb as (a & st' & H1 & H2).
  etrans; [by eapply Hm|by eapply Hf].
Qed.
Lemma keeps_load p : keeps R (load p).
Proof. intros st r st' Hl. apply load_state in Hl as ->. reflexivity. Qed.
Lemma keeps_load_node p : keeps R (load_node p).
Proof. intros st r st' Hl. apply load_node_state in Hl as ->. reflexivity. Qed.
Lemma keeps_load_skiplist p : keeps R (load_skiplist p).
Proof. intros st r st' Hl. apply load_skiplist_state in Hl as ->. reflexivity. Qed.
Lemma keeps_thread_cache_index : keeps R thread_cache_index.
Proof.
  intros st i st'. unfold thread_cache_index. case_decide; [done|].
  intros [= <- <-]. reflexivity.
Qed.

#[local] Hint Resolve keeps_ret keeps_gets keeps_crash keeps_bind keeps_load
  keeps_load_node keeps_load_skiplist keeps_thread_cache_index : keeps.
#[local] Hint Extern 2 (keeps _ (if ?b then _ else _)) => destruct b : keeps.
#[local] Hint Extern 2 (keeps _ (match ?x with _ => _ end)) => destruct x : keeps.

Lemma keeps_kvdk_assert (c : M bool) : keeps R c → keeps R (kvdk_assert c).
Proof. intros Hc. unfold kvdk_assert. eauto 20 with keeps. Qed.
Lemma keeps_assert (c : M bool) : keeps R c → keeps R (assert c).
Proof. intros Hc. unfold assert. eauto 20 with keeps. Qed.
Lemma keeps_andM (a b : M bool) : keeps R a → keeps R b → keeps R (andM a b).
Proof. intros Ha Hb. unfold andM. eauto 20 with keeps. Qed.
Lemma keeps_orM (a b : M bool) : keeps R a → keeps R b → keeps R (orM a b).
Proof. intros Ha Hb. unfold orM. eauto 20 with keeps. Qed.
#[local] Hint Resolve keeps_kvdk_assert keeps_assert keeps_andM keeps_orM : keeps.

Lemma keeps_CheckPrevLinkage p : keeps R (CheckPrevLinkage p).
Proof. unfold CheckPrevLinkage. eauto 20 with keeps. Qed.
Lemma keeps_CheckNextLinkage p : keeps R (CheckNextLinkage p).
Proof. unfold CheckNextLinkage. eauto 20 with keeps. Qed.
#[local] Hint Resolve keeps_CheckPrevLinkage keeps_CheckNextLinkage : keeps.
Lemma keeps_CheckLinkage p : keeps R (CheckLinkage p).
Proof. unfold CheckLinkage. eauto 20 with keeps. Qed.
Lemma keeps_recoverToCheckpoint : keeps R recoverToCheckpoint.
Proof. unfold recoverToCheckpoint, CheckpointTS. eauto 20 with keeps. Qed.
Lemma keeps_offset2addr_checked o : keeps R (offset2addr_checked o).
Proof. unfold offset2addr_checked. eauto 20 with keeps. Qed.
Lemma keeps_HeaderNode s : keeps R (HeaderNode s).
Proof. unfold HeaderNode. eauto 20 with keeps. Qed.
Lemma keeps_HeaderRecord s : keeps R (HeaderRecord s).
Proof. unfold HeaderRecord, HeaderNode. eauto 20 with keeps. Qed.
Lemma keeps_IndexWithHashtable s : keeps R (IndexWithHashtable s).
Proof. unfold IndexWithHashtable. eauto 20 with keeps. Qed.
Lemma keeps_Name s : keeps R (Name s).
Proof. unfold Name. eauto 20 with keeps. Qed.
Lemma keeps_GetComparator n : keeps R (GetComparator n).
Proof. unfold GetComparator. eauto 20 with keeps. Qed.
Lemma keeps_findCheckpointVersion_walk fuel p id curr :
  keeps R (findCheckpointVersion_walk fuel p id curr).
Proof.
  revert curr. induction fuel as [|fuel IH]; intros curr; simpl; [eauto with keeps|].
  unfold CheckpointTS. eauto 40 with keeps.
Qed.
#[local] Hint Resolve keeps_findCheckpointVersion_walk keeps_recoverToCheckpoint : keeps.
Lemma keeps_findCheckpointVersion fuel p : keeps R (findCheckpointVersion fuel p).
Proof. unfold findCheckpointVersion. eauto 40 with keeps. Qed.
Lemma keeps_load_all ps : keeps R (load_all ps).
Proof. induction ps as [|p ps IH]; simpl; eauto 20 with keeps. Qed.

Lemma keeps_async {A} (task : M A) :
  (∀ st g, R st (on_engine g st)) → keeps R task → keeps R (async task).
Proof.
  intros Hengine Ht. unfold async, ThreadID.
  apply keeps_bind; [apply keeps_gets|intros c].
  apply keeps_bind; [done|intros a].
  apply keeps_bind; [apply keeps_modify; intros; apply Hengine|intros _].
  apply keeps_ret.
Qed.

End Keeps.

Section CheckpointVersion.
Context `{Engine}.

Lemma walk_sound fuel p id :
  ∀ curr st q st',
    findCheckpointVersion_walk fuel p id curr st = Done q st' →
    q ≠ kNullPMemOffset →
    ∃ n r, q = ancestor st curr n ∧ record_at st q = Some r ∧
           GetTimestamp r ≤ checkpoint_ts (rb st) ∧
           (n = 0%nat ∨ FetchID r = id).
Proof.
  induction fuel as [|fuel IH]; intros curr st q st' Hw Hq; [done|].
  cbn [findCheckpointVersion_walk] in Hw.
  apply bind_done_inv in Hw as (continue & st1 & Hc & Hw).
  rewrite andM_ret in Hc. case_bool_decide as Hcurr.
  - apply bind_done_inv in Hc as (r & st2 & Hl & Hc).
    apply load_done in Hl as (-> & _ & Hr).
    unfold bind, CheckpointTS, gets, ret in Hc. injection Hc as <- <-.
    assert (Hrec : record_at st curr = Some r).
    { unfold record_at. by rewrite decide_False. }
    destruct (checkpoint_ts (rb st) <? GetTimestamp r) eqn:Hts.
    + apply bind_done_inv in Hw as (r' & st1 & Hl & Hw).
      pose proof (load_state _ _ _ _ Hl) as ->.
      rewrite (load_record_at _ _ _ Hrec) in Hl. injection Hl as <-.
      apply bind_done_inv in Hw as (u1 & st1 & Ha1 & Hw).
      apply (keeps_kvdk_assert eq) in Ha1 as <-;
        [|apply keeps_orM; [apply _|apply keeps_ret; apply _|
           apply keeps_bind; [apply _|apply keeps_load; apply _|
             intros; apply keeps_ret; apply _]]].
      apply bind_done_inv in Hw as (u2 & st1 & Ha2 & Hw).
      apply (keeps_kvdk_assert eq) in Ha2 as <-;
        [|apply keeps_orM; [apply _|apply keeps_ret; apply _|
           apply keeps_bind; [apply _|apply keeps_load; apply _|
             intros; apply keeps_bind; [apply _|apply keeps_load; apply _|
               intros; apply keeps_ret; apply _]]]].
      apply bind_done_inv in Hw as (other & st1 & Ho & Hw).
      rewrite andM_ret in Ho. unfold offset2addr in *.
      case_bool_decide as Hold.
      * apply bind_done_inv in Ho as (r' & st2 & Hl' & Ho).
        apply load_done in Hl' as (-> & _ & Hr'). injection Ho as <- <-.
        assert (Hrec' : record_at st (old_version r) = Some r').
        { unfold record_at. by rewrite decide_False. }
        case_bool_decide as Hid.
        -- destruct fuel; [done|]. rewrite walk_at_null in Hw. by injection Hw as <- _.
        -- destruct (IH _ _ _ _ Hw Hq) as (n & rq & Hn & Hrq & Htsq & Hidq).
           exists (S n), rq. simpl. rewrite Hrec. split_and!; [done..|].
           right. destruct Hidq as [->|Hidq]; [|done].
           simpl in Hn. subst q. rewrite Hrec' in Hrq. injection Hrq as <-.
           first [done|by apply dec_stable in Hid].
      * injection Ho as <- <-. rewrite Hold in Hw.
        destruct fuel; [done|]. rewrite walk_at_null in Hw. by injection Hw as <- _.
    + injection Hw as <- <-. exists 0%nat, r. simpl. split_and!; [done..| |by left].
      apply N.ltb_ge in Hts. done.
  - injection Hc as <- <-. injection Hw as <- _. done.
Qed.

Lemma findCheckpointVersion_done fuel p st q st' :
  findCheckpointVersion fuel p st = Done q st' →
  st' = st ∧
  ((checkpoint_ts (rb st) = 0 ∧ q = p) ∨
   (0 < checkpoint_ts (rb st) ∧
    ∃ input, record_at st p = Some input ∧
             findCheckpointVersion_walk fuel p (FetchID input) p st = Done q st)).
Proof.
  intros Hf. pose proof (keeps_findCheckpointVersion eq _ _ _ _ _ Hf) as <-.
  split; [done|]. unfold findCheckpointVersion in Hf.
  apply bind_done_inv in Hf as (u & st1 & Ha & Hf).
  apply (keeps_kvdk_assert eq) in Ha as <-; [|apply keeps_ret; apply _].
  unfold recoverToCheckpoint, CheckpointTS, bind at 1 2, gets, ret in Hf.
  destruct (0 <? checkpoint_ts (rb st)) eqn:Hcp; simpl in Hf.
  - right. apply N.ltb_lt in Hcp. split; [done|].
    apply bind_done_inv in Hf as (input & st1 & Hl & Hf).
    apply load_done in Hl as (-> & Hp & Hr). exists input. split; [|done].
    unfold record_at. by rewrite decide_False.
  - left. apply N.ltb_ge in Hcp. injection Hf as <-. split; [lia|done].
Qed.

(** X4. [findCheckpointVersion] only reads: it returns in the state it
    started in.  Without a checkpoint it returns its argument.  With a
    checkpoint, a version it returns is reached from the argument along
    [old_version], is not newer than the checkpoint and carries the
    collection ID of the argument. *)
Theorem findCheckpointVersion_sound fuel p st q st' :
  findCheckpointVersion fuel p st = Done q st' →
  st' = st ∧
  (checkpoint_ts (rb st) = 0 → q = p) ∧
  (0 < checkpoint_ts (rb st) → q ≠ kNullPMemOffset →
     ∃ n input r,
       record_at st p = Some input ∧ q = ancestor st p n ∧
       record_at st q = Some r ∧
       GetTimestamp r ≤ checkpoint_ts (rb st) ∧
       FetchID r = FetchID input).
Proof.
  intros Hf. apply findCheckpointVersion_done in Hf as (-> & [[Hcp ->]|[Hcp Hw]]).
  - split_and!; [done..|]. intros Hlt. lia.
  - split_and!; [done|intros Hz; lia|]. intros _ Hq.
    destruct Hw as (input & Hin & Hw).
    destruct (walk_sound _ _ _ _ _ _ _ Hw Hq) as (n & r & Hn & Hr & Hts & Hid).
    exists n, input, r. split_and!; [done..|].
    destruct Hid as [->|Hid]; [|done].
    simpl in Hn. subst q. rewrite Hin in Hr. by injection Hr as <-.
Qed.

(** X5. [findCheckpointVersion] is idempotent: a version it has returned
    is its own checkpoint version, as [rebuildSegmentIndex] asserts of the
    start of a segment. *)
Theorem findCheckpointVersion_idempotent fuel fuel' p st q st' :
  findCheckpointVersion fuel p st = Done q st' →
  q ≠ kNullPMemOffset →
  findCheckpointVersion (S fuel') q st' = Done q st'.
Proof.
  intros Hf Hq. apply findCheckpointVersion_done in Hf as (-> & [[Hcp ->]|[Hcp Hw]]).
  - unfold findCheckpointVersion.
    erewrite bind_eq; [|apply kvdk_assert_true; intros _; unfold ret;
                        by rewrite bool_decide_eq_true_2].
    unfold recoverToCheckpoint, CheckpointTS, bind, gets, ret.
    rewrite Hcp. reflexivity.
  - destruct Hw as (input & Hin & Hw).
    destruct (walk_sound _ _ _ _ _ _ _ Hw Hq) as (n & r & Hn & Hr & Hts & Hid).
    rewrite (findCheckpointVersion_unfold _ _ _ _ Hr).
    apply N.ltb_lt in Hcp as ->. by apply (walk_stop _ _ _ _ r).
Qed.

End CheckpointVersion.

#[global] Instance engine_frame_preorder : PreOrder engine_frame.
Proof.
  split.
  - intros st. unfold engine_frame. done.
  - intros st1 st2 st3 H12 H23. unfold engine_frame in *. congruence.
Qed.

#[global] Instance task_frame_preorder : PreOrder task_frame.
Proof.
  split.
  - intros st. unfold task_frame. done.
  - intros st1 st2 st3 H12 H23. unfold task_frame in *.
    destruct_and!. split_and!; congruence.
Qed.

#[global] Instance config_frame_preorder : PreOrder config_frame.
Proof.
  split.
  - intros st. unfold config_frame. done.
  - intros st1 st2 st3 H12 H23. unfold config_frame in *.
    destruct_and!. split_and!; congruence.
Qed.

#[global] Instance rebuild_frame_preorder : PreOrder rebuild_frame.
Proof.
  split.
  - intros st. unfold rebuild_frame. done.
  - intros st1 st2 st3 H12 H23. unfold rebuild_frame in *.
    destruct_and!. split_and!; congruence.
Qed.

Lemma engine_frame_task st st' : engine_frame st st' → task_frame st st'.
Proof. unfold engine_frame, task_frame. intros ->. done. Qed.
Lemma task_frame_config st st' : task_frame st st' → config_frame st st'.
Proof. unfold task_frame, config_frame. intros ?. destruct_and!. done. Qed.
Lemma rebuild_frame_config st st' : rebuild_frame st st' → config_frame st st'.
Proof. unfold rebuild_frame, config_frame. intros ?. destruct_and!. done. Qed.
Lemma task_frame_rebuild st st' : task_frame st st' → rebuild_frame st st'.
Proof. unfold task_frame, rebuild_frame. intros ?. destruct_and!. done. Qed.
Lemma engine_frame_config st st' : engine_frame st st' → config_frame st st'.
Proof. intros ?. by apply task_frame_config, engine_frame_task. Qed.
Lemma engine_frame_rebuild st st' : engine_frame st st' → rebuild_frame st st'.
Proof. intros ?. by apply task_frame_rebuild, engine_frame_task. Qed.

#[global] Instance grows_preorder : PreOrder grows.
Proof.
  split.
  - intros st. split; [reflexivity|]. intros k Hk. by left.
  - intros st1 st2 st3 [Hm12 H12] [Hm23 H23]. split; [by etrans|].
    intros k Hk. destruct (H23 k Hk) as [Hk2|Hk2]; [|by right].
    destruct (H12 k Hk2) as [Hk1|Hk1]; [by left|right]. by etrans.
Qed.

#[global] Instance inserts_preorder id : PreOrder (inserts id).
Proof.
  split.
  - intros st. split; [reflexivity|]. intros k Hk. by left.
  - intros st1 st2 st3 [Hm12 H12] [Hm23 H23]. split; [congruence|].
    intros k Hk. destruct (H23 k Hk) as [Hk2|Hk2]; [|by right]. by apply H12.
Qed.

Lemma rebuild_frame_grows st st' : rebuild_frame st st' → grows st st'.
Proof.
  unfold rebuild_frame. intros ?. destruct_and!. split.
  - by apply N.eq_le_incl.
  - intros k Hk. left. congruence.
Qed.
Lemma rebuild_frame_inserts id st st' : rebuild_frame st st' → inserts id st st'.
Proof.
  unfold rebuild_frame. intros ?. destruct_and!. split; [done|].
  intros k Hk. left. congruence.
Qed.

Lemma keeps_mono (R R' : relation State) {A} (m : M A) :
  keeps R m → (∀ st st', R st st' → R' st st') → keeps R' m.
Proof. intros Hm Hsub st a st' Hd. apply Hsub. by eapply Hm. Qed.

Create HintDb frames discriminated.
#[global] Hint Resolve engine_frame_task task_frame_config task_frame_rebuild
  engine_frame_config engine_frame_rebuild rebuild_frame_config
  rebuild_frame_grows rebuild_frame_inserts : frames.

Ltac frame_unfold :=
  first [progress unfold engine_frame | progress unfold task_frame
        | progress unfold config_frame | progress unfold rebuild_frame
        | progress unfold grows | progress unfold inserts].
Ltac frame_modify :=
  apply keeps_modify; intros ?; frame_unfold;
  cbn [rb kv_engine_ on_engine on_rebuilder set_thread_cache set_next_tid
       set_recovery_segments set_linked_headers set_rebuild_skiplits
       set_invalid_skiplists set_max_recovered_id
       checkpoint_ts segment_based_rebuild_ num_rebuild_threads_ next_tid_
       linked_headers_ rebuilder_thread_cache_ recovery_segments_
       rebuild_skiplits_ invalid_skiplists_ max_recovered_id_];
  rewrite ?length_alter;
  first [done | split; [reflexivity|intros ? ?; by left]].
Ltac frame_leaf :=
  first [ solve [eauto 3 with keeps]
        | eapply keeps_mono; [solve [eauto 3 with keeps]|solve [eauto with frames]] ].
Ltac frame_step :=
  lazymatch goal with
  | |- keeps _ (bind _ _) => apply keeps_bind; [apply _| |intros ?]
  | |- keeps _ (ret _) => apply keeps_ret; apply _
  | |- keeps _ (gets _) => apply keeps_gets; apply _
  | |- keeps _ (crash _) => apply keeps_crash; apply _
  | |- keeps _ (modify _) => frame_modify
  | |- keeps _ (kvdk_assert _) => apply keeps_kvdk_assert; [apply _|]
  | |- keeps _ (assert _) => apply keeps_assert; [apply _|]
  | |- keeps _ (andM _ _) => apply keeps_andM; [apply _| |]
  | |- keeps _ (orM _ _) => apply keeps_orM; [apply _| |]
  | |- keeps _ (async _) =>
      apply keeps_async; [apply _|intros; frame_unfold; done|]
  | |- keeps _ (if ?b then _ else _) => destruct b
  | |- keeps _ (match ?x with _ => _ end) => destruct x
  | |- keeps _ _ => frame_leaf
  end.
Ltac frame := repeat frame_step.

Section Frames.
Context `{Engine}.

#[local] Hint Resolve keeps_ret keeps_gets keeps_crash keeps_bind keeps_load
  keeps_load_node keeps_load_skiplist keeps_thread_cache_index
  keeps_kvdk_assert keeps_assert keeps_andM keeps_orM
  keeps_CheckPrevLinkage keeps_CheckNextLinkage keeps_CheckLinkage
  keeps_recoverToCheckpoint keeps_offset2addr_checked keeps_HeaderNode
  keeps_HeaderRecord keeps_IndexWithHashtable keeps_Name keeps_GetComparator
  keeps_findCheckpointVersion_walk keeps_findCheckpointVersion keeps_load_all : keeps.
#[local] Hint Extern 0 (PreOrder _) => apply _ : keeps.



Lemma keeps_update_record p f : keeps engine_frame (update_record p f).
Proof. unfold update_record, store. frame. Qed.
#[local] Hint Resolve keeps_update_record : keeps.
Lemma keeps_Destroy p : keeps engine_frame (Destroy p).
Proof. unfold Destroy. frame. Qed.
#[local] Hint Resolve keeps_Destroy : keeps.
Lemma keeps_PurgeAndFree p : keeps engine_frame (PurgeAndFree p).
Proof. unfold PurgeAndFree. frame. Qed.
Lemma keeps_BatchFree l : keeps engine_frame (BatchFree l).
Proof. unfold BatchFree. frame. Qed.
Lemma keeps_CheckAndRepairLinkage p : keeps engine_frame (CheckAndRepairLinkage p).
Proof. unfold CheckAndRepairLinkage, PersistPrevNT, PersistNextNT. frame. Qed.
Lemma keeps_Skiplist_Remove p : keeps engine_frame (Skiplist_Remove p).
Proof. unfold Skiplist_Remove, PersistPrevNT, PersistNextNT. frame. Qed.
Lemma keeps_Skiplist_Replace p q : keeps engine_frame (Skiplist_Replace p q).
Proof. unfold Skiplist_Replace, PersistPrevNT, PersistNextNT. frame. Qed.
Lemma keeps_RelaxedSetNext n l t : keeps engine_frame (RelaxedSetNext n l t).
Proof. unfold RelaxedSetNext. frame. Qed.
Lemma keeps_alloc_addr : keeps engine_frame alloc_addr.
Proof. unfold alloc_addr. frame. Qed.
#[local] Hint Resolve keeps_PurgeAndFree keeps_BatchFree keeps_CheckAndRepairLinkage
  keeps_Skiplist_Remove keeps_Skiplist_Replace keeps_RelaxedSetNext keeps_alloc_addr : keeps.
Lemma keeps_SkiplistNode_NewNode p h : keeps engine_frame (SkiplistNode_NewNode p h).
Proof. unfold SkiplistNode_NewNode. frame. Qed.
#[local] Hint Resolve keeps_SkiplistNode_NewNode : keeps.
Lemma keeps_Skiplist_NewNodeBuild p : keeps engine_frame (Skiplist_NewNodeBuild p).
Proof. unfold Skiplist_NewNodeBuild. frame. Qed.
Lemma keeps_Skiplist_new p n i c b : keeps engine_frame (Skiplist_new p n i c b).
Proof. unfold Skiplist_new. frame. Qed.
Lemma keeps_UpdateSize s d : keeps engine_frame (UpdateSize s d).
Proof. unfold UpdateSize. frame. Qed.
Lemma keeps_addUnlinkedRecord p : keeps task_frame (addUnlinkedRecord p).
Proof. unfold addUnlinkedRecord. frame. Qed.
Lemma keeps_insertHashIndex k p t : keeps engine_frame (insertHashIndex k p t).
Proof. unfold insertHashIndex, PersistOldVersion. frame. Qed.
Lemma keeps_assign_thread_id : keeps task_frame assign_thread_id.
Proof. unfold assign_thread_id. frame. Qed.
#[local] Hint Resolve keeps_Skiplist_NewNodeBuild keeps_Skiplist_new keeps_UpdateSize
  keeps_addUnlinkedRecord keeps_insertHashIndex keeps_assign_thread_id : keeps.

Lemma keeps_splice_node levels n : ∀ prevs, keeps engine_frame (splice_node levels n prevs).
Proof. induction levels as [|i levels IH]; intros prevs; simpl; frame. Qed.
#[local] Hint Resolve keeps_splice_node : keeps.

Lemma keeps_rebuildSkiplistIndex_walk fuel s :
  ∀ prevs p n, keeps task_frame (rebuildSkiplistIndex_walk fuel s prevs p n).
Proof.
  induction fuel as [|fuel IH]; intros prevs p n; [simpl; frame|].
  cbn [rebuildSkiplistIndex_walk]. unfold PersistOldVersion. frame.
Qed.
#[local] Hint Resolve keeps_rebuildSkiplistIndex_walk : keeps.
Lemma keeps_rebuildSkiplistIndex fuel s : keeps task_frame (rebuildSkiplistIndex fuel s).
Proof. unfold rebuildSkiplistIndex. frame. Qed.

Lemma keeps_rebuildSegmentIndex_walk fuel s b :
  ∀ c r n, keeps task_frame (rebuildSegmentIndex_walk fuel s b c r n).
Proof.
  induction fuel as [|fuel IH]; intros c r n; [simpl; frame|].
  cbn [rebuildSegmentIndex_walk]. unfold PersistOldVersion. frame.
Qed.
#[local] Hint Resolve keeps_rebuildSegmentIndex_walk : keeps.
Lemma keeps_rebuildSegmentIndex fuel n s : keeps task_frame (rebuildSegmentIndex fuel n s).
Proof. unfold rebuildSegmentIndex, PersistOldVersion. frame. Qed.

Lemma keeps_linkHighDramNodes_walk fuel :
  ∀ prevs n, keeps engine_frame (linkHighDramNodes_walk fuel prevs n).
Proof.
  induction fuel as [|fuel IH]; intros prevs n; [simpl; frame|].
  cbn [linkHighDramNodes_walk].
  case_decide; [|frame].
  apply keeps_bind; [apply _|frame|intros _].
  apply keeps_bind; [apply _|frame|intros node].
  apply keeps_bind; [apply _| |intros; frame].
  case_decide; [|frame].
  generalize (<[1%nat := n]> prevs). generalize (seq 2 (Height node - 1)).
  intros levels. induction levels as [|i levels IHl]; intros prevs'; frame.
Qed.
Lemma keeps_terminate_levels levels prevs : keeps engine_frame (terminate_levels levels prevs).
Proof. induction levels as [|i levels IH]; simpl; frame. Qed.
#[local] Hint Resolve keeps_linkHighDramNodes_walk keeps_terminate_levels : keeps.
Lemma keeps_linkHighDramNodes fuel s : keeps task_frame (linkHighDramNodes fuel s).
Proof. unfold linkHighDramNodes. frame. Qed.
#[local] Hint Resolve keeps_rebuildSkiplistIndex keeps_rebuildSegmentIndex
  keeps_linkHighDramNodes : keeps.

Lemma keeps_run_in_batches (R : relation State) `{!PreOrder R} (tasks : list (M Status.t)) :
  (∀ st g, R st (on_engine g st)) →
  Forall (keeps R) tasks →
  ∀ i total fs, keeps R (run_in_batches tasks i total fs).
Proof.
  intros Hengine Ht. induction Ht as [|task tasks Htask Ht IH]; intros i total fs; simpl.
  - apply keeps_ret; apply _.
  - apply keeps_bind; [apply _| |].
    + by apply keeps_async.
    + intros s. apply keeps_bind; [apply _|apply keeps_gets; apply _|intros threads].
      case_decide; [apply keeps_crash; apply _|].
      destruct (_ || _); [|apply IH].
      destruct (first_failure _); [apply keeps_ret; apply _|apply IH].
Qed.

Lemma keeps_listBasedIndexRebuild fuel : keeps task_frame (listBasedIndexRebuild fuel).
Proof.
  unfold listBasedIndexRebuild. apply keeps_bind; [apply _|frame|intros rebuild].
  apply keeps_run_in_batches; [apply _|intros; unfold task_frame; done|].
  apply Forall_fmap, Forall_forall. intros e _. simpl. frame.
Qed.

Lemma keeps_clean_unlinked_records rs : ∀ l, keeps engine_frame (clean_unlinked_records rs l).
Proof.
  induction rs as [|r rs IH]; intros l; simpl; [frame|].
  unfold addr2offset_checked. frame.
Qed.
#[local] Hint Resolve keeps_clean_unlinked_records : keeps.
Lemma keeps_clean_thread_caches n : ∀ i, keeps task_frame (clean_thread_caches i n).
Proof. induction n as [|n IH]; intros i; simpl; frame. Qed.
#[local] Hint Resolve keeps_clean_thread_caches : keeps.
Lemma keeps_clean_unlinked : keeps task_frame clean_unlinked.
Proof. unfold clean_unlinked. frame. Qed.
Lemma keeps_Skiplist_Destroy_walk fuel h :
  ∀ c l, keeps engine_frame (Skiplist_Destroy_walk fuel h c l).
Proof. induction fuel as [|fuel IH]; intros c l; simpl; frame. Qed.
#[local] Hint Resolve keeps_Skiplist_Destroy_walk : keeps.
Lemma keeps_Skiplist_Destroy fuel s : keeps engine_frame (Skiplist_Destroy fuel s).
Proof. unfold Skiplist_Destroy. frame. Qed.
#[local] Hint Resolve keeps_Skiplist_Destroy keeps_clean_unlinked : keeps.
Lemma keeps_destroy_skiplists fuel l : keeps engine_frame (destroy_skiplists fuel l).
Proof. induction l as [|s l IH]; simpl; frame. Qed.

#[local] Hint Resolve keeps_listBasedIndexRebuild keeps_destroy_skiplists : keeps.

Lemma keeps_addRecoverySegment n : keeps rebuild_frame (addRecoverySegment n).
Proof. unfold addRecoverySegment. frame. Qed.
Lemma keeps_visit_skiplist p : keeps task_frame (visit_skiplist p).
Proof. unfold visit_skiplist. frame. Qed.
Lemma keeps_build_start_node fuel p : keeps engine_frame (build_start_node fuel p).
Proof. induction fuel as [|fuel IH]; simpl; frame. Qed.
#[local] Hint Resolve keeps_addRecoverySegment keeps_visit_skiplist
  keeps_build_start_node : keeps.
Lemma keeps_AddHeader p : keeps config_frame (AddHeader p).
Proof. unfold AddHeader. frame. Qed.
Lemma keeps_AddElement fuel p : keeps rebuild_frame (AddElement fuel p).
Proof. unfold AddElement. frame. Qed.
Lemma keeps_Rollback log : keeps task_frame (Rollback log).
Proof. unfold Rollback. frame. Qed.
Lemma keeps_sort_linked_headers : keeps config_frame sort_linked_headers.
Proof. unfold sort_linked_headers. frame. Qed.
Lemma keeps_break_outdated_header h n : keeps task_frame (break_outdated_header h n).
Proof. unfold break_outdated_header, PersistPrevNT. frame. Qed.
#[local] Hint Resolve keeps_sort_linked_headers keeps_break_outdated_header : keeps.
Lemma keeps_resolve_header fuel h : keeps config_frame (resolve_header fuel h).
Proof.
  unfold resolve_header, PersistOldVersion.
  apply keeps_bind; [apply _|frame|intros r].
  destruct (DecodeSortedCollectionValue (Value r)) as [[s id] s_configs]. frame.
Qed.
#[local] Hint Resolve keeps_resolve_header : keeps.
Lemma keeps_initRebuildLists_body fuel h n : keeps config_frame (initRebuildLists_body fuel h n).
Proof. unfold initRebuildLists_body. frame. Qed.
#[local] Hint Resolve keeps_initRebuildLists_body : keeps.
Lemma keeps_initRebuildLists_loop fuel hs : keeps config_frame (initRebuildLists_loop fuel hs).
Proof. induction hs as [|h hs IH]; simpl; frame. Qed.
#[local] Hint Resolve keeps_initRebuildLists_loop : keeps.
Lemma keeps_initRebuildLists fuel : keeps config_frame (initRebuildLists fuel).
Proof. unfold initRebuildLists. frame. Qed.
Lemma keeps_claim_segment fuel k : keeps rebuild_frame (claim_segment fuel k).
Proof. unfold claim_segment. frame. Qed.
#[local] Hint Resolve keeps_claim_segment : keeps.
Lemma keeps_claim_segments fuel ks : keeps rebuild_frame (claim_segments fuel ks).
Proof. induction ks as [|k ks IH]; simpl; frame. Qed.
#[local] Hint Resolve keeps_claim_segments : keeps.
Lemma keeps_rebuild_segments_index fuel : keeps rebuild_frame (rebuild_segments_index fuel).
Proof. unfold rebuild_segments_index. frame. Qed.
Lemma keeps_run_all (R : relation State) `{!PreOrder R} (tasks : list (M Status.t)) :
  (∀ st g, R st (on_engine g st)) →
  Forall (keeps R) tasks → keeps R (run_all tasks).
Proof.
  intros Hengine Ht. induction Ht as [|task tasks Htask Ht IH]; simpl.
  - apply keeps_ret; apply _.
  - apply keeps_bind; [apply _| |].
    + by apply keeps_async.
    + intros s. apply keeps_bind; [apply _|apply IH|intros fs]. apply keeps_ret; apply _.
Qed.
Lemma keeps_segmentBasedIndexRebuild fuel : keeps rebuild_frame (segmentBasedIndexRebuild fuel).
Proof.
  unfold segmentBasedIndexRebuild. apply keeps_bind; [apply _|frame|intros threads].
  apply keeps_bind; [apply _| |intros fs].
  { apply keeps_run_all; [apply _|intros; unfold rebuild_frame; done|].
    apply Forall_replicate. apply keeps_rebuild_segments_index. }
  destruct (first_failure fs); [frame|].
  apply keeps_bind; [apply _|frame|intros rebuild].
  apply keeps_bind; [apply _| |intros s; frame].
  apply keeps_run_in_batches; [apply _|intros; unfold rebuild_frame; done|].
  apply Forall_fmap, Forall_forall. intros e _. simpl. frame.
Qed.
Lemma keeps_clean_invalid_skiplists fuel : keeps config_frame (clean_invalid_skiplists fuel).
Proof. unfold clean_invalid_skiplists. frame. Qed.
#[local] Hint Resolve keeps_clean_invalid_skiplists keeps_segmentBasedIndexRebuild
  keeps_initRebuildLists : keeps.
Lemma keeps_cleanInvalidRecords fuel : keeps config_frame (cleanInvalidRecords fuel).
Proof. unfold cleanInvalidRecords. frame. Qed.
#[local] Hint Resolve keeps_cleanInvalidRecords : keeps.
Lemma keeps_Rebuild fuel : keeps config_frame (Rebuild fuel).
Proof. unfold Rebuild. frame. Qed.

(** *** Rebuild *)

Lemma run_in_batches_zero_threads (tasks : list (M Status.t)) i total fs st :
  tasks ≠ [] → Forall (keeps config_frame) tasks →
  num_rebuild_threads_ (rb st) = 0 →
  ∃ why, run_in_batches tasks i total fs st = Crash why.
Proof.
  destruct tasks as [|task tasks]; [done|]. intros _ Ht Hz.
  apply Forall_cons in Ht as [Ht _]. simpl.
  destruct (async task st) as [s st1|why] eqn:Ha.
  - rewrite (bind_eq _ _ _ _ _ Ha). cbv beta. unfold bind at 1, gets.
    assert (Hc : config_frame st st1).
    { eapply (keeps_async config_frame); [|done|done].
      intros; unfold config_frame; done. }
    destruct Hc as (_ & _ & Hthreads & _). rewrite Hthreads, Hz.
    rewrite decide_True by done. by eexists.
  - rewrite (bind_crash _ _ _ _ Ha). by eexists.
Qed.

Lemma set_rebuild_skiplits_empty st :
  rebuild_skiplits_ (rb st) = ∅ →
  on_rebuilder (set_rebuild_skiplits (λ _, ∅)) st = st.
Proof. destruct st as [e [? ? ? ? ? ? ? ? ? ?]]. simpl. by intros ->. Qed.

Lemma bind_gets {A B} (f : State → A) (k : A → M B) st : bind (gets f) k st = k (f st) st.
Proof. reflexivity. Qed.
Lemma bind_ret {A B} (a : A) (k : A → M B) st : bind (ret a) k st = k a st.
Proof. reflexivity. Qed.
Lemma bind_modify {B} (g : State → State) (k : unit → M B) st :
  bind (modify g) k st = k () (g st).
Proof. reflexivity. Qed.

Lemma tasks_of_nonempty {A} (f : CollectionIDType * NodePtr → A)
    (m : gmap CollectionIDType NodePtr) :
  m ≠ ∅ → f <$> map_to_list m ≠ [].
Proof.
  intros Hne Hnil. apply fmap_nil_inv in Hnil. by apply map_to_list_empty_iff in Hnil.
Qed.

Lemma size_nonempty (m : gmap CollectionIDType NodePtr) : m ≠ ∅ → (0 < size m)%nat.
Proof.
  intros Hne. destruct (decide (size m = 0%nat)) as [Hs|Hs]; [|lia].
  by apply map_size_empty_iff in Hs.
Qed.

Lemma listBasedIndexRebuild_zero_threads fuel st :
  num_rebuild_threads_ (rb st) = 0 → rebuild_skiplits_ (rb st) ≠ ∅ →
  ∃ why, listBasedIndexRebuild fuel st = Crash why.
Proof.
  intros Hz Hne. unfold listBasedIndexRebuild. rewrite bind_gets.
  apply run_in_batches_zero_threads; [by apply tasks_of_nonempty| |done].
  apply Forall_fmap, Forall_forall. intros e _. simpl. frame.
Qed.

Lemma segmentBasedIndexRebuild_zero_threads fuel st :
  num_rebuild_threads_ (rb st) = 0 → rebuild_skiplits_ (rb st) ≠ ∅ →
  ∃ why, segmentBasedIndexRebuild fuel st = Crash why.
Proof.
  intros Hz Hne. unfold segmentBasedIndexRebuild. rewrite bind_gets, Hz.
  change (run_all (replicate (N.to_nat 0) (rebuild_segments_index fuel)))
    with (ret (A := list Status.t) []). rewrite bind_ret.
  change (first_failure []) with (@None Status.t). cbv iota. rewrite bind_gets.
  edestruct (run_in_batches_zero_threads
               ((λ e, linkHighDramNodes fuel e.2) <$> map_to_list (rebuild_skiplits_ (rb st)))
               0 (N.of_nat (size (rebuild_skiplits_ (rb st)))) [] st) as [why Hwhy];
    [by apply tasks_of_nonempty| |done|].
  { apply Forall_fmap, Forall_forall. intros e _. simpl. frame. }
  rewrite (bind_crash _ _ _ _ Hwhy). by eexists.
Qed.

(** X6. A rebuilder constructed with zero rebuild threads cannot rebuild
    an index: once header resolution has left a skiplist to rebuild,
    [Rebuild] does not return, in either mode, because the batching divides
    by the number of threads.  With nothing to rebuild no index rebuild is
    started, and [Rebuild] is [cleanInvalidRecords] after header
    resolution. *)
Theorem Rebuild_without_threads fuel st st1 :
  num_rebuild_threads_ (rb st) = 0 →
  initRebuildLists fuel st = Done Status.Ok st1 →
  (rebuild_skiplits_ (rb st1) ≠ ∅ → ∃ why, Rebuild fuel st = Crash why) ∧
  (rebuild_skiplits_ (rb st1) = ∅ →
     Rebuild fuel st =
       (cleanInvalidRecords fuel;;
        ret (mkRebuildResult Status.Ok (max_recovered_id_ (rb st1)) ∅)) st1).
Proof.
  intros Hz Hinit.
  assert (Hz1 : num_rebuild_threads_ (rb st1) = 0).
  { destruct (keeps_initRebuildLists _ _ _ _ Hinit) as (_ & _ & -> & _). done. }
  unfold Rebuild. rewrite (bind_eq _ _ _ _ _ Hinit). cbv beta.
  rewrite bind_gets. split.
  - intros Hne. rewrite bool_decide_eq_true_2 by done.
    rewrite bool_decide_eq_true_2 by by apply size_nonempty.
    cbn [andb].
    assert (Hcrash : ∃ why,
      (segment_based ← gets (λ st, segment_based_rebuild_ (rb st));
       if segment_based then segmentBasedIndexRebuild fuel
       else listBasedIndexRebuild fuel) st1 = Crash why).
    { rewrite bind_gets. destruct (segment_based_rebuild_ (rb st1)).
      - by apply segmentBasedIndexRebuild_zero_threads.
      - by apply listBasedIndexRebuild_zero_threads. }
    destruct Hcrash as [why Hwhy]. rewrite (bind_crash _ _ _ _ Hwhy). by eexists.
  - intros Hempty.
    rewrite (bool_decide_eq_false_2 (0 < size _)%nat)
      by (rewrite Hempty, map_size_empty; lia).
    rewrite andb_false_r. rewrite bind_ret. rewrite decide_True by done.
    rewrite !bind_gets, bind_modify. rewrite Hempty.
    rewrite set_rebuild_skiplits_empty by done. reflexivity.
Qed.

(** X7. A failure stops [Rebuild] where it occurs: the status of a failed
    header resolution, or of a failed index rebuild, is the status of the
    result, and the state is the one the failed phase left, so nothing has
    been reclaimed and the skiplists have not been handed over. *)
Theorem Rebuild_failure fuel st :
  (∀ status st1,
     initRebuildLists fuel st = Done status st1 → status ≠ Status.Ok →
     Rebuild fuel st = Done (mkRebuildResult status 0 ∅) st1) ∧
  (∀ st1 status st2,
     initRebuildLists fuel st = Done Status.Ok st1 →
     rebuild_skiplits_ (rb st1) ≠ ∅ →
     (if segment_based_rebuild_ (rb st1) then segmentBasedIndexRebuild fuel
      else listBasedIndexRebuild fuel) st1 = Done status st2 →
     status ≠ Status.Ok →
     Rebuild fuel st = Done (mkRebuildResult status 0 ∅) st2 ∧
     rebuild_skiplits_ (rb st2) = rebuild_skiplits_ (rb st1) ∧
     invalid_skiplists_ (rb st2) = invalid_skiplists_ (rb st1)).
Proof.
  split.
  - intros status st1 Hinit Hs. unfold Rebuild. rewrite (bind_eq _ _ _ _ _ Hinit). cbv beta.
    rewrite bind_gets. rewrite bool_decide_eq_false_2 by done. cbn [andb].
    rewrite bind_ret. by rewrite decide_False by done.
  - intros st1 status st2 Hinit Hne Hindex Hs.
    assert (Hframe : rebuild_frame st1 st2).
    { destruct (segment_based_rebuild_ (rb st1)).
      - by eapply keeps_segmentBasedIndexRebuild.
      - apply task_frame_rebuild. by eapply keeps_listBasedIndexRebuild. }
    split; [|by destruct Hframe as (_ & _ & _ & _ & ? & ? & _)].
    unfold Rebuild.
    rewrite (bind_eq _ _ _ _ _ Hinit). cbv beta.
    rewrite bind_gets. rewrite bool_decide_eq_true_2 by done.
    rewrite bool_decide_eq_true_2 by by apply size_nonempty.
    cbn [andb].
    erewrite bind_eq; [|rewrite bind_gets; exact Hindex].
    cbv beta. by rewrite decide_False by done.
Qed.

Lemma clean_thread_caches_empties n :
  ∀ i st u st',
    clean_thread_caches i n st = Done u st' →
    length (rebuilder_thread_cache_ (rb st)) = (i + n)%nat →
    take i (rebuilder_thread_cache_ (rb st')) = take i (rebuilder_thread_cache_ (rb st)) ∧
    Forall (λ c, unlinked_records c = []) (drop i (rebuilder_thread_cache_ (rb st'))).
Proof.
  induction n as [|n IH]; intros i st u st' Hc Hlen.
  - simpl in Hc. injection Hc as _ <-. split; [done|].
    rewrite drop_ge by lia. constructor.
  - cbn [clean_thread_caches] in Hc. rewrite bind_gets in Hc.
    destruct (rebuilder_thread_cache_ (rb st) !! i) as [c|] eqn:Hi; [|done].
    apply bind_done_inv in Hc as (to_free & st1 & H1 & Hc).
    apply keeps_clean_unlinked_records in H1. unfold engine_frame in H1.
    apply bind_done_inv in Hc as (u1 & st2 & H2 & Hc).
    apply keeps_BatchFree in H2. unfold engine_frame in H2.
    rewrite bind_modify in Hc.
    apply IH in Hc as [Htake Hdrop].
    2:{ cbn [rb on_rebuilder set_thread_cache rebuilder_thread_cache_].
        rewrite length_alter, H2, H1. lia. }
    cbn [rb on_rebuilder set_thread_cache rebuilder_thread_cache_] in Htake.
    rewrite H2, H1 in Htake.
    assert (Hi' : rebuilder_thread_cache_ (rb st') !! i = Some (cleared c)).
    { rewrite <- (lookup_take_lt _ (S i)) by lia. rewrite Htake.
      rewrite lookup_take_lt by lia. rewrite list_lookup_alter_eq, Hi. done. }
    split.
    + apply (f_equal (take i)) in Htake. rewrite !take_take in Htake.
      rewrite Nat.min_l in Htake by lia. rewrite Htake.
      by rewrite take_alter_ge by lia.
    + rewrite (drop_S _ _ _ Hi'). by constructor.
Qed.

Lemma clean_unlinked_empties st u st' :
  clean_unlinked st = Done u st' →
  Forall (λ c, unlinked_records c = []) (rebuilder_thread_cache_ (rb st')).
Proof.
  unfold clean_unlinked. rewrite bind_gets. intros Hc.
  by apply clean_thread_caches_empties in Hc as [_ Hc].
Qed.

Lemma cleanInvalidRecords_done fuel st u st' :
  cleanInvalidRecords fuel st = Done u st' →
  invalid_skiplists_ (rb st') = ∅ ∧
  rebuild_skiplits_ (rb st') = rebuild_skiplits_ (rb st) ∧
  linked_headers_ (rb st') = linked_headers_ (rb st) ∧
  Forall (λ c, unlinked_records c = []) (rebuilder_thread_cache_ (rb st')).
Proof.
  unfold cleanInvalidRecords. intros Hc.
  apply bind_done_inv in Hc as (u1 & st1 & H1 & Hc).
  pose proof (clean_unlinked_empties _ _ _ H1) as Hempty.
  apply keeps_clean_unlinked in H1 as (_ & _ & _ & Hh & _ & Hr & _).
  unfold clean_invalid_skiplists in Hc. rewrite bind_gets in Hc.
  apply bind_done_inv in Hc as (u2 & st2 & H2 & Hc).
  apply keeps_destroy_skiplists in H2. unfold engine_frame in H2.
  injection Hc as _ <-.
  cbn [rb on_rebuilder set_invalid_skiplists invalid_skiplists_ rebuild_skiplits_
       linked_headers_ rebuilder_thread_cache_].
  rewrite H2. done.
Qed.

Lemma initRebuildLists_Ok fuel st st1 :
  initRebuildLists fuel st = Done Status.Ok st1 → linked_headers_ (rb st1) = [].
Proof.
  unfold initRebuildLists. intros Hi.
  apply bind_done_inv in Hi as (u & st2 & _ & Hi). rewrite bind_gets in Hi.
  apply bind_done_inv in Hi as (s & st3 & _ & Hi).
  destruct (decide (s ≠ Status.Ok)) as [Hs|Hs].
  - injection Hi as -> _. done.
  - by injection Hi as <-.
Qed.

(** X8. When [Rebuild] returns Ok, header resolution had returned Ok, the
    result carries the skiplists and the largest collection ID it left,
    and the rebuilder is left empty: no skiplist to rebuild, no invalid
    skiplist, no linked header, and every unlinked queue is empty. *)
Theorem Rebuild_success fuel st res st' :
  Rebuild fuel st = Done res st' → s res = Status.Ok →
  ∃ st1,
    initRebuildLists fuel st = Done Status.Ok st1 ∧
    rebuild_skiplits res = rebuild_skiplits_ (rb st1) ∧
    max_id res = max_recovered_id_ (rb st1) ∧
    rebuild_skiplits_ (rb st') = ∅ ∧
    invalid_skiplists_ (rb st') = ∅ ∧
    linked_headers_ (rb st') = [] ∧
    Forall (λ c, unlinked_records c = []) (rebuilder_thread_cache_ (rb st')).
Proof.
  unfold Rebuild. intros Hr Hok.
  apply bind_done_inv in Hr as (s0 & st1 & Hinit & Hr). rewrite bind_gets in Hr.
  apply bind_done_inv in Hr as (s1 & st2 & Hindex & Hr).
  destruct (decide (s1 = Status.Ok)) as [->|Hs1].
  2:{ injection Hr as <- _. done. }
  rewrite !bind_gets, bind_modify in Hr.
  apply bind_done_inv in Hr as (u & st3 & Hclean & Hr). injection Hr as <- <-.
  apply cleanInvalidRecords_done in Hclean as (Hinv & Hreb & Hheaders & Hqueues).
  cbn [rb on_rebuilder set_rebuild_skiplits rebuild_skiplits_ linked_headers_]
    in Hreb, Hheaders.
  assert (Hframe : s0 = Status.Ok ∧ rebuild_frame st1 st2).
  { destruct (bool_decide (s0 = Status.Ok)) eqn:Hs0; cbn [andb] in Hindex.
    - apply bool_decide_eq_true_1 in Hs0 as ->. split; [done|].
      destruct (bool_decide _) in Hindex.
      + rewrite bind_gets in Hindex. destruct (segment_based_rebuild_ (rb st1)).
        * by eapply keeps_segmentBasedIndexRebuild.
        * apply task_frame_rebuild. by eapply keeps_listBasedIndexRebuild.
      + injection Hindex as <-. reflexivity.
    - injection Hindex as <- <-. split; [|reflexivity].
      apply bool_decide_eq_false_1 in Hs0. done. }
  unfold rebuild_frame in Hframe.
  destruct Hframe as [-> (_ & _ & _ & Hh & Hr & _ & Hm & _)].
  exists st1. cbn [rebuild_skiplits max_id].
  split_and!; [done|done|done|done|done| |done].
  rewrite Hheaders, Hh. by eapply initRebuildLists_Ok.
Qed.

(** *** The largest collection ID *)

Lemma keeps_grows_sort_linked_headers : keeps grows sort_linked_headers.
Proof. unfold sort_linked_headers. frame. Qed.

Lemma keeps_grows_resolve_header fuel h : keeps grows (resolve_header fuel h).
Proof.
  intros st r st' Hr. unfold resolve_header in Hr.
  apply bind_done_inv in Hr as (hr & st0 & Hl & Hr).
  apply load_state in Hl as ->.
  destruct (DecodeSortedCollectionValue (Value hr)) as [[s id] s_configs].
  case_decide; [injection Hr as _ <-; reflexivity|].
  unfold GetComparator in Hr. rewrite bind_gets in Hr.
  case_decide; [|injection Hr as _ <-; reflexivity].
  rewrite bind_modify in Hr.
  match type of Hr with
  | ?m ?st1 = _ => assert (Hk : keeps (inserts id) m)
  end.
  { unfold PersistOldVersion. frame.
    apply keeps_modify. intros st1. split; [done|]. intros k.
    cbn [rb on_rebuilder set_rebuild_skiplits rebuild_skiplits_].
    destruct (decide (k = id)) as [->|Hne]; [by right|].
    rewrite lookup_insert_ne by done. by left. }
  apply Hk in Hr as [Hmax Hkeys].
  cbn [rb on_rebuilder set_max_recovered_id max_recovered_id_ rebuild_skiplits_]
    in Hmax, Hkeys.
  split.
  - rewrite Hmax. lia.
  - intros k Hin. destruct (Hkeys k Hin) as [Hold| ->]; [by left|right].
    rewrite Hmax. lia.
Qed.
#[local] Hint Resolve keeps_grows_sort_linked_headers keeps_grows_resolve_header : keeps.

Lemma keeps_grows_initRebuildLists_loop fuel hs : keeps grows (initRebuildLists_loop fuel hs).
Proof. induction hs as [|h hs IH]; simpl; unfold initRebuildLists_body; frame. Qed.
#[local] Hint Resolve keeps_grows_initRebuildLists_loop : keeps.

Lemma keeps_grows_initRebuildLists fuel : keeps grows (initRebuildLists fuel).
Proof. unfold initRebuildLists. frame. Qed.

(** X9. The [max_id] of a successful [Rebuild] is not below the ID of any
    skiplist it hands over, nor below the largest ID recorded before, when
    that bounded the skiplists already there. *)
Theorem Rebuild_max_id fuel st res st' :
  ids_bounded st →
  Rebuild fuel st = Done res st' → s res = Status.Ok →
  max_recovered_id_ (rb st) ≤ max_id res ∧
  ∀ id, is_Some (rebuild_skiplits res !! id) → id ≤ max_id res.
Proof.
  intros Hb Hr Hok. unfold Rebuild in Hr.
  apply bind_done_inv in Hr as (s0 & st1 & Hinit & Hr). rewrite bind_gets in Hr.
  apply bind_done_inv in Hr as (s1 & st2 & Hindex & Hr).
  destruct (decide (s1 = Status.Ok)) as [->|Hs1].
  2:{ injection Hr as <- _. done. }
  rewrite !bind_gets, bind_modify in Hr.
  apply bind_done_inv in Hr as (u & st3 & Hclean & Hr). injection Hr as <- _.
  cbn [rebuild_skiplits max_id].
  assert (Hframe : rebuild_frame st1 st2).
  { destruct (bool_decide (s0 = Status.Ok) && _) in Hindex.
    - rewrite bind_gets in Hindex. destruct (segment_based_rebuild_ (rb st1)).
      + by eapply keeps_segmentBasedIndexRebuild.
      + apply task_frame_rebuild. by eapply keeps_listBasedIndexRebuild.
    - injection Hindex as _ <-. reflexivity. }
  unfold rebuild_frame in Hframe. destruct Hframe as (_ & _ & _ & _ & -> & _ & -> & _).
  apply keeps_grows_initRebuildLists in Hinit as [Hmax Hkeys].
  split; [done|]. intros id Hid.
  destruct (Hkeys id Hid) as [Hold|Hnew]; [|done].
  etrans; [by apply Hb|done].
Qed.

(** *** Recovery segments *)

#[local] Instance claims_preorder : PreOrder claims.
Proof.
  split.
  - intros st k. destruct (recovery_segments_ (rb st) !! k) as [seg|]; [|done].
    by exists seg.
  - intros st1 st2 st3 H12 H23 k. specialize (H12 k).
    destruct (recovery_segments_ (rb st1) !! k) as [seg|].
    + destruct H12 as (seg2 & H2 & Hv2). specialize (H23 k). rewrite H2 in H23.
      destruct H23 as (seg3 & H3 & Hv3). exists seg3. split; [done|]. auto.
    + specialize (H23 k). by rewrite H12 in H23.
Qed.

Lemma task_frame_claims st st' : task_frame st st' → claims st st'.
Proof.
  unfold task_frame. intros ? k. destruct_and!.
  replace (recovery_segments_ (rb st')) with (recovery_segments_ (rb st)).
  destruct (recovery_segments_ (rb st) !! k) as [seg|]; [|done]. by exists seg.
Qed.

Lemma assign_thread_id_eq st : assign_thread_id st = Done () (with_thread_id st).
Proof. reflexivity. Qed.

Lemma claim_segment_done fuel key st r st' :
  claim_segment fuel key st = Done r st' →
  r ≠ Some Status.Ok ∧
  claims st st' ∧
  ∃ seg, recovery_segments_ (rb st') !! key = Some seg ∧ visited seg = true.
Proof.
  unfold claim_segment. rewrite bind_gets. intros Hc.
  destruct (recovery_segments_ (rb st) !! key) as [seg|] eqn:Hkey; [|done].
  destruct (visited seg) eqn:Hv.
  - injection Hc as <- <-. split; [done|]. split; [reflexivity|]. by exists seg.
  - rewrite bind_modify in Hc.
    set (st1 := on_rebuilder (set_recovery_segments
                  <[key := mkSegment true (start_node seg)]>) st) in Hc.
    assert (H1 : claims st st1).
    { intros k. cbn [st1 rb on_rebuilder set_recovery_segments recovery_segments_].
      destruct (decide (k = key)) as [->|Hne].
      - rewrite Hkey, lookup_insert_eq. eexists. split; [done|]. rewrite Hv. done.
      - rewrite lookup_insert_ne by done.
        destruct (recovery_segments_ (rb st) !! k) as [seg'|]; [|done]. by exists seg'. }
    assert (H2 : task_frame st1 st').
    { match type of Hc with
      | ?m _ = _ => assert (Hk : keeps task_frame m) by frame
      end.
      exact (Hk _ _ _ Hc). }
    assert (H3 : r ≠ Some Status.Ok).
    { match type of Hc with
      | ?m _ = _ => assert (Hk : returns (λ r, r ≠ Some Status.Ok) m)
      end.
      { apply returns_bind. intros start. apply returns_bind. intros r0.
        apply returns_bind. intros [skiplist|].
        - apply returns_bind. intros status. case_decide.
          + apply returns_ret. congruence.
          + by apply returns_ret.
        - apply returns_bind. intros _. by apply returns_ret. }
      exact (Hk _ _ _ Hc). }
    split; [done|].
    split; [etrans; [done|by apply task_frame_claims]|].
    destruct H2 as (_ & _ & _ & _ & -> & _).
    cbn [st1 rb on_rebuilder set_recovery_segments recovery_segments_].
    rewrite lookup_insert_eq. by eexists.
Qed.

Lemma claim_segments_done fuel keys :
  ∀ st st',
    claim_segments fuel keys st = Done Status.Ok st' →
    claims st st' ∧
    ∀ k, k ∈ keys →
         ∃ seg, recovery_segments_ (rb st') !! k = Some seg ∧ visited seg = true.
Proof.
  induction keys as [|key keys IH]; intros st st' Hc.
  - injection Hc as <-. split; [reflexivity|]. intros k Hk. by apply elem_of_nil in Hk.
  - cbn [claim_segments] in Hc. apply bind_done_inv in Hc as (r & st1 & H1 & Hc).
    apply claim_segment_done in H1 as (Hr & H1 & seg & Hseg & Hv).
    destruct r as [status|].
    { injection Hc as -> <-. done. }
    apply IH in Hc as [H2 Hkeys]. split; [by etrans|].
    intros k Hk. apply elem_of_cons in Hk as [->|Hk]; [|by apply Hkeys].
    specialize (H2 key). rewrite Hseg in H2. destruct H2 as (seg' & Hseg' & Hv').
    exists seg'. auto.
Qed.

Lemma claim_segments_visited fuel keys st :
  (∀ k, k ∈ keys →
        ∃ seg, recovery_segments_ (rb st) !! k = Some seg ∧ visited seg = true) →
  claim_segments fuel keys st = Done Status.Ok st.
Proof.
  induction keys as [|key keys IH]; intros Hkeys; [done|].
  cbn [claim_segments]. destruct (Hkeys key) as (seg & Hseg & Hv); [by left|].
  assert (H1 : claim_segment fuel key st = Done None st).
  { unfold claim_segment. rewrite bind_gets, Hseg, Hv. done. }
  rewrite (bind_eq _ _ _ _ _ H1). apply IH. intros k Hk. apply Hkeys. by right.
Qed.

(** X10. A recovery segment is rebuilt once: when a worker running
    [rebuild_segments_index] returns Ok every segment has been claimed, and
    a worker that runs afterwards returns Ok having only taken its thread
    identity. *)
Theorem segments_claimed_once fuel fuel' st st1 :
  rebuild_segments_index fuel st = Done Status.Ok st1 →
  (∀ k seg, recovery_segments_ (rb st1) !! k = Some seg → visited seg = true) ∧
  rebuild_segments_index fuel' st1 = Done Status.Ok (with_thread_id st1).
Proof.
  unfold rebuild_segments_index. intros Hw.
  apply bind_done_inv in Hw as (u & st0 & Ha & Hw).
  unfold assign_thread_id in Ha. rewrite bind_gets, !bind_modify in Ha.
  injection Ha as _ <-. rewrite bind_gets in Hw.
  apply claim_segments_done in Hw as [Hclaims Hkeys].
  assert (Hall : ∀ k seg, recovery_segments_ (rb st1) !! k = Some seg → visited seg = true).
  { intros k seg Hk. specialize (Hclaims k).
    cbn [rb on_engine on_rebuilder set_next_tid recovery_segments_] in Hclaims.
    destruct (recovery_segments_ (rb st) !! k) as [seg0|] eqn:Hk0; [|congruence].
    destruct (Hkeys k) as (seg' & Hseg' & Hv).
    - cbn [rb on_engine on_rebuilder set_next_tid recovery_segments_].
      apply list_elem_of_fmap. exists (k, seg0). split; [done|].
      by apply elem_of_map_to_list.
    - congruence. }
  split; [done|].
  rewrite (bind_eq _ _ _ _ _ (assign_thread_id_eq st1)), bind_gets.
  apply claim_segments_visited. intros k Hk.
  apply list_elem_of_fmap in Hk as ([k' seg] & -> & Hin).
  apply elem_of_map_to_list in Hin.
  cbn [rb on_engine on_rebuilder set_next_tid recovery_segments_] in Hin |- *.
  exists seg. split; [done|]. by eapply Hall.
Qed.

End Frames.

#[global] Hint Resolve keeps_ret keeps_gets keeps_crash keeps_bind keeps_load
  keeps_load_node keeps_load_skiplist keeps_thread_cache_index keeps_kvdk_assert
  keeps_assert keeps_andM keeps_orM keeps_CheckPrevLinkage keeps_CheckNextLinkage
  keeps_CheckLinkage keeps_recoverToCheckpoint keeps_offset2addr_checked
  keeps_HeaderNode keeps_HeaderRecord keeps_IndexWithHashtable keeps_Name
  keeps_GetComparator keeps_findCheckpointVersion_walk keeps_findCheckpointVersion
  keeps_load_all keeps_update_record keeps_Destroy keeps_PurgeAndFree keeps_BatchFree
  keeps_CheckAndRepairLinkage keeps_Skiplist_Remove keeps_Skiplist_Replace
  keeps_RelaxedSetNext keeps_alloc_addr keeps_SkiplistNode_NewNode
  keeps_Skiplist_NewNodeBuild keeps_Skiplist_new keeps_UpdateSize
  keeps_addUnlinkedRecord keeps_insertHashIndex keeps_assign_thread_id keeps_splice_node
  keeps_rebuildSkiplistIndex_walk keeps_rebuildSegmentIndex_walk
  keeps_linkHighDramNodes_walk keeps_terminate_levels keeps_rebuildSkiplistIndex
  keeps_rebuildSegmentIndex keeps_linkHighDramNodes keeps_clean_unlinked_records
  keeps_clean_thread_caches keeps_Skiplist_Destroy_walk keeps_Skiplist_Destroy
  keeps_clean_unlinked keeps_listBasedIndexRebuild keeps_destroy_skiplists
  keeps_addRecoverySegment keeps_visit_skiplist keeps_build_start_node
  keeps_sort_linked_headers keeps_break_outdated_header keeps_resolve_header
  keeps_initRebuildLists_body keeps_initRebuildLists_loop keeps_claim_segment
  keeps_claim_segments keeps_clean_invalid_skiplists keeps_segmentBasedIndexRebuild
  keeps_initRebuildLists keeps_cleanInvalidRecords keeps_grows_sort_linked_headers
  keeps_grows_resolve_header keeps_grows_initRebuildLists_loop keeps_AddHeader
  keeps_AddElement keeps_Rollback keeps_rebuild_segments_index keeps_Rebuild
  keeps_grows_initRebuildLists : keeps.
#[global] Hint Extern 0 (PreOrder _) => apply _ : keeps.

Section Intake.
Context `{Engine}.

Lemma visit_skiplist_done record st r b st' :
  load record st = Done r st →
  visit_skiplist record st = Done b st' →
  kRestoreSkiplistStride ≠ 0 ∧
  rebuilder_thread_cache_ (rb st) ≠ [] ∧
  st' = counted (FetchID r) st ∧
  b = bool_decide ((visits st (worker st) (FetchID r) + 1) mod kRestoreSkiplistStride = 0).
Proof.
  intros Hl Hv. unfold visit_skiplist, thread_cache_index in Hv.
  unfold bind at 1 in Hv.
  destruct (decide (length (rebuilder_thread_cache_ (rb st)) = 0%nat)) as [Hz|Hz]; [done|].
  rewrite (bind_eq _ _ _ _ _ Hl) in Hv. cbv beta zeta in Hv.
  rewrite bind_gets, bind_modify in Hv.
  destruct (decide (kRestoreSkiplistStride = 0)) as [Hs|Hs]; [done|].
  injection Hv as <- <-. split_and!; [done| |done|done].
  intros Hnil. by rewrite Hnil in Hz.
Qed.

Lemma build_start_node_done record :
  ∀ fuel st start st',
    build_start_node fuel record st = Done start st' →
    start ≠ nullptr ∧ engine_frame st st' ∧
    ∃ height, dram (kv_engine_ st') !! start = Some (mkNode record height ∅).
Proof.
  induction fuel as [|fuel IH]; intros st start st' Hb; [done|].
  cbn [build_start_node] in Hb. unfold bind at 1 in Hb.
  rewrite Skiplist_NewNodeBuild_eval in Hb. cbv zeta in Hb.
  destruct (decide (Nat.min (randomHeight (rng_draws (kv_engine_ st))) kMaxHeight = 0%nat)).
  - rewrite decide_True in Hb by done. apply IH in Hb as (Hs & Hf & Hd).
    split; [done|]. split; [|done]. etrans; [|done]. unfold engine_frame. done.
  - rewrite decide_False in Hb by (unfold nullptr; lia). injection Hb as <- <-.
    split; [unfold nullptr; lia|]. split; [unfold engine_frame; done|].
    eexists. cbn [kv_engine_ on_engine set_dram dram]. by rewrite lookup_insert_eq.
Qed.

Lemma visits_counted id st :
  rebuilder_thread_cache_ (rb st) ≠ [] →
  visits (counted id st) (worker st) id = visits st (worker st) id + 1.
Proof.
  intros Hne. unfold visits at 1, counted.
  cbn [rb on_rebuilder set_thread_cache rebuilder_thread_cache_].
  rewrite list_lookup_alter_eq.
  destruct (lookup_lt_is_Some_2 (rebuilder_thread_cache_ (rb st)) (worker st)) as [c Hc].
  { unfold worker. apply Nat.mod_upper_bound.
    by destruct (rebuilder_thread_cache_ (rb st)). }
  rewrite Hc. simpl. by rewrite lookup_insert_eq.
Qed.

(** X11. In segment-based mode a worker counts the linked elements it
    takes in per collection, and the stride must not be zero.  An element
    whose count is not a multiple of [kRestoreSkiplistStride] changes
    nothing else.  Without a checkpoint an element whose count is a
    multiple of the stride is nominated: a start node is built over it and
    registered as an unvisited recovery segment, unless the record already
    starts one, which is kept.  No other segment changes. *)
Theorem AddElement_nominates fuel p st st1 r status st' :
  CheckAndRepairLinkage p st = Done true st1 →
  load p st1 = Done r st1 →
  segment_based_rebuild_ (rb st) = true →
  AddElement fuel p st = Done status st' →
  let count := visits st (worker st) (FetchID r) + 1 in
  kRestoreSkiplistStride ≠ 0 ∧
  visits st' (worker st) (FetchID r) = count ∧
  (∀ k, k ≠ p →
        recovery_segments_ (rb st') !! k = recovery_segments_ (rb st) !! k) ∧
  (count mod kRestoreSkiplistStride ≠ 0 → st' = counted (FetchID r) st1) ∧
  (count mod kRestoreSkiplistStride = 0 → checkpoint_ts (rb st) = 0 →
   GetRecordType r = RecordType.SortedElem →
     match recovery_segments_ (rb st) !! p with
     | Some segment => recovery_segments_ (rb st') !! p = Some segment
     | None =>
       ∃ start height,
         recovery_segments_ (rb st') !! p = Some (mkSegment false start) ∧
         start ≠ nullptr ∧
         dram (kv_engine_ st') !! start = Some (mkNode p height ∅)
     end).
Proof.
  intros Hrepair Hl Hseg Hadd count.
  pose proof (CheckAndRepairLinkage_only_pmem _ _ _ _ Hrepair) as [m Hst1].
  assert (Hrb1 : rb st1 = rb st) by (by rewrite Hst1).
  assert (Hw1 : worker st1 = worker st) by (by rewrite Hst1).
  assert (Hv1 : ∀ i id, visits st1 i id = visits st i id).
  { intros i id. unfold visits. by rewrite Hrb1. }
  unfold AddElement in Hadd.
  apply bind_done_inv in Hadd as (u & st0 & Hassert & Hadd).
  assert (st0 = st) as ->.
  { symmetry. eapply (keeps_kvdk_assert eq); [|done]. frame. }
  rewrite (bind_eq _ _ _ _ _ Hrepair) in Hadd. cbv beta in Hadd. cbn [negb] in Hadd.
  apply bind_done_inv in Hadd as (u1 & st2 & Hbody & Hret). injection Hret as _ <-.
  apply bind_done_inv in Hbody as (segment_start & st3 & Hcond & Hbody).
  unfold andM at 1 in Hcond. rewrite bind_gets, Hrb1, Hseg in Hcond.
  unfold andM at 1 in Hcond.
  apply bind_done_inv in Hcond as (sampled & st4 & Hvisit & Hcond).
  destruct (visit_skiplist_done _ _ _ _ _ Hl Hvisit) as (Hstride & Hcache & -> & ->).
  rewrite Hw1, Hv1 in Hcond. fold count in Hcond.
  assert (Hvisits : visits (counted (FetchID r) st1) (worker st) (FetchID r) = count).
  { rewrite <- Hw1. rewrite visits_counted by done. by rewrite Hw1, Hv1. }
  assert (Hsegs1 : recovery_segments_ (rb (counted (FetchID r) st1))
                   = recovery_segments_ (rb st)) by (by rewrite <- Hrb1).
  case_bool_decide as Hcount.
  2:{ injection Hcond as <- <-. injection Hbody as _ <-.
      split_and!; [done|done|by intros; rewrite Hsegs1|done|done]. }
  unfold andM at 1 in Hcond.
  apply bind_done_inv in Hcond as (same & st5 & Hsame & Hcond).
  apply bind_done_inv in Hsame as (v & st6 & Hfind & Hsame). injection Hsame as <- <-.
  pose proof (findCheckpointVersion_done _ _ _ _ _ Hfind) as [-> Hversion].
  assert (Hload : load p (counted (FetchID r) st1) = Done r (counted (FetchID r) st1)).
  { apply load_done in Hl as (_ & Hnn & Hl). by apply load_eq. }
  assert (Hnominated : segment_start =
            bool_decide (v = p) &&
            bool_decide (GetRecordType r = RecordType.SortedElem) ∧
          st3 = counted (FetchID r) st1).
  { destruct (bool_decide (v = p)).
    - rewrite (bind_eq _ _ _ _ _ Hload) in Hcond. by injection Hcond as <- <-.
    - by injection Hcond as <- <-. }
  destruct Hnominated as [-> ->].
  destruct (bool_decide (v = p) &&
            bool_decide (GetRecordType r = RecordType.SortedElem)) eqn:Hnom.
  2:{ injection Hbody as _ <-.
      split_and!; [done|done|by intros; rewrite Hsegs1|done|].
      intros _ Hcp Hty. exfalso.
      destruct Hversion as [[_ ->]|[Hlt _]].
      - rewrite bool_decide_eq_true_2 in Hnom by done.
        rewrite bool_decide_eq_true_2 in Hnom by done. done.
      - cbn [counted rb on_rebuilder checkpoint_ts set_thread_cache] in Hlt.
        rewrite Hrb1 in Hlt. lia. }
  apply bind_done_inv in Hbody as (start & st7 & Hbuild & Hbody).
  apply build_start_node_done in Hbuild as (Hstart & Hframe & height & Hnode).
  unfold engine_frame in Hframe.
  unfold addRecoverySegment in Hbody. rewrite bind_gets in Hbody. rewrite Hframe in Hbody.
  cbn [counted rb on_rebuilder set_thread_cache segment_based_rebuild_] in Hbody.
  rewrite Hrb1, Hseg in Hbody.
  rewrite (bind_eq _ _ _ _ _ (load_node_eq _ _ _ Hstart Hnode)) in Hbody.
  cbv beta in Hbody. injection Hbody as _ <-.
  cbn [rb on_rebuilder set_recovery_segments recovery_segments_ kv_engine_ record].
  rewrite Hframe, Hsegs1.
  assert (Hvisits' : visits (on_rebuilder (set_recovery_segments (λ m0,
              match m0 !! p with
              | Some _ => m0
              | None => <[p := mkSegment false start]> m0
              end)) st7) (worker st) (FetchID r) = count).
  { unfold visits. cbn [rb on_rebuilder set_recovery_segments rebuilder_thread_cache_].
    rewrite Hframe. exact Hvisits. }
  split_and!; [done|done| | |].
  - intros k Hk. destruct (recovery_segments_ (rb st) !! p); [done|].
    by rewrite lookup_insert_ne.
  - intros Hne. done.
  - intros _ _ _. destruct (recovery_segments_ (rb st) !! p) eqn:Hrec; [done|].
    exists start, height. by rewrite lookup_insert_eq.
Qed.

End Intake.

#[global] Instance registry_frame_preorder : PreOrder registry_frame.
Proof.
  split.
  - intros st. unfold registry_frame. done.
  - intros st1 st2 st3 H12 H23. unfold registry_frame in *. congruence.
Qed.

Ltac frame_unfold ::=
  first [progress unfold engine_frame | progress unfold task_frame
        | progress unfold config_frame | progress unfold rebuild_frame
        | progress unfold grows | progress unfold inserts
        | progress unfold registry_frame].

Section HeaderErrors.
Context `{Engine}.

Lemma keeps_registry_update_record p f : keeps registry_frame (update_record p f).
Proof. unfold update_record, store. frame. Qed.
#[local] Hint Resolve keeps_registry_update_record : keeps.
Lemma keeps_registry_Skiplist_Replace p q : keeps registry_frame (Skiplist_Replace p q).
Proof. unfold Skiplist_Replace, PersistPrevNT, PersistNextNT. frame. Qed.
Lemma keeps_registry_Skiplist_new p n i c b : keeps registry_frame (Skiplist_new p n i c b).
Proof. unfold Skiplist_new, SkiplistNode_NewNode, alloc_addr. frame. Qed.
Lemma keeps_registry_addUnlinkedRecord p : keeps registry_frame (addUnlinkedRecord p).
Proof. unfold addUnlinkedRecord. frame. Qed.
Lemma keeps_registry_addRecoverySegment n : keeps registry_frame (addRecoverySegment n).
Proof. unfold addRecoverySegment. frame. Qed.
Lemma keeps_registry_insertHashIndex k p t : keeps registry_frame (insertHashIndex k p t).
Proof. unfold insertHashIndex. frame. Qed.
#[local] Hint Resolve keeps_registry_Skiplist_Replace keeps_registry_Skiplist_new
  keeps_registry_addUnlinkedRecord keeps_registry_addRecoverySegment
  keeps_registry_insertHashIndex : keeps.
Lemma keeps_registry_initRebuildLists_body fuel h n :
  keeps registry_frame (initRebuildLists_body fuel h n).
Proof.
  unfold initRebuildLists_body, break_outdated_header, resolve_header,
    PersistPrevNT, PersistOldVersion.
  frame.
Qed.

Lemma record_at_identities st st' p r :
  identities st' = identities st → record_at st p = Some r →
  ∃ r', record_at st' p = Some r' ∧ identity r' = identity r.
Proof.
  intros Hid. unfold record_at. case_decide; [done|]. intros Hr.
  assert (Hl : identities st' !! p = Some (identity r)).
  { rewrite Hid. unfold identities. by rewrite lookup_fmap, Hr. }
  unfold identities in Hl. rewrite lookup_fmap in Hl.
  destruct (pmem (kv_engine_ st') !! p) as [r'|]; [|done].
  exists r'. split; [done|]. simpl in Hl. congruence.
Qed.

Lemma identity_FetchID r r' : identity r' = identity r → FetchID r' = FetchID r.
Proof. unfold identity, FetchID. intros [= -> -> ->]. done. Qed.

Lemma resolve_header_continues fuel h st st' hr :
  record_at st h = Some hr →
  resolve_header fuel h st = Done None st' →
  ∃ id cfg, DecodeSortedCollectionValue (Value hr) = (Status.Ok, id, cfg) ∧
            comparator_name cfg ∈ comparators_ (kv_engine_ st).
Proof.
  intros Hr Hres. unfold resolve_header in Hres.
  rewrite (bind_eq _ _ _ _ _ (load_record_at _ _ _ Hr)) in Hres. cbv beta zeta in Hres.
  destruct (DecodeSortedCollectionValue (Value hr)) as [[status id] cfg].
  destruct (decide (status ≠ Status.Ok)) as [Hs|Hs]; [done|].
  apply dec_stable in Hs as ->.
  unfold GetComparator in Hres. rewrite bind_gets in Hres.
  destruct (decide (comparator_name cfg ∈ comparators_ (kv_engine_ st))); [|done].
  by exists id, cfg.
Qed.

Lemma resolve_header_fails fuel h st hr :
  record_at st h = Some hr →
  let '(status, id, cfg) := DecodeSortedCollectionValue (Value hr) in
  (status ≠ Status.Ok → resolve_header fuel h st = Done (Some status) st) ∧
  (status = Status.Ok → comparator_name cfg ∉ comparators_ (kv_engine_ st) →
     resolve_header fuel h st = Done (Some Status.Abort) st).
Proof.
  intros Hr. unfold resolve_header.
  rewrite (bind_eq _ _ _ _ _ (load_record_at _ _ _ Hr)). cbv beta zeta.
  destruct (DecodeSortedCollectionValue (Value hr)) as [[status id] cfg]. split.
  - intros Hs. by rewrite decide_True.
  - intros -> Hc. rewrite decide_False by (intros Hn; by apply Hn).
    unfold GetComparator. rewrite bind_gets. by rewrite decide_False.
Qed.

Lemma initRebuildLists_loop_decodes fuel hs :
  ∀ st st', initRebuildLists_loop fuel hs st = Done Status.Ok st' →
    ∀ i h hr,
      hs !! i = Some h → record_at st h = Some hr →
      (∀ newer rn, hs !! S i = Some newer → record_at st newer = Some rn →
                   FetchID rn ≠ FetchID hr) →
      ∃ id cfg, DecodeSortedCollectionValue (Value hr) = (Status.Ok, id, cfg) ∧
                comparator_name cfg ∈ comparators_ (kv_engine_ st).
Proof.
  induction hs as [|h0 rest IH]; intros st st' Hloop i h hr Hi Hr Hlast; [done|].
  cbn [initRebuildLists_loop] in Hloop.
  apply bind_done_inv in Hloop as (r0 & st1 & Hbody & Hrest).
  destruct r0 as [s0|].
  { injection Hrest as -> _. by destruct (initRebuildLists_body_status _ _ _ _ _ _ Hbody). }
  destruct i as [|i].
  - simpl in Hi. injection Hi as ->. unfold initRebuildLists_body in Hbody.
    destruct rest as [|newer rest']; simpl in Hbody.
    + by eapply resolve_header_continues.
    + rewrite (bind_eq _ _ _ _ _ (load_record_at _ _ _ Hr)) in Hbody. cbv beta in Hbody.
      apply bind_done_inv in Hbody as (rn & st2 & Hl & Hbody).
      apply load_done in Hl as (-> & Hnn & Hrn).
      assert (Hrn' : record_at st newer = Some rn).
      { unfold record_at. by rewrite decide_False. }
      rewrite decide_False in Hbody.
      2:{ intros Heq. by apply (Hlast newer rn). }
      by eapply resolve_header_continues.
  - simpl in Hi.
    destruct (preserves_initRebuildLists_body _ _ _ _ _ _ Hbody) as [Hid _].
    pose proof (keeps_registry_initRebuildLists_body _ _ _ _ _ _ Hbody) as Hreg.
    unfold registry_frame in Hreg.
    destruct (record_at_identities _ _ _ _ Hid Hr) as (hr' & Hr' & Hidr).
    destruct (IH _ _ Hrest i h hr' Hi Hr') as (id & cfg & Hdec & Hc).
    + intros newer rn' Hn Hrn'. symmetry in Hid.
      destruct (record_at_identities _ _ _ _ Hid Hrn') as (rn & Hrn & Hidn).
      rewrite <- (identity_FetchID _ _ Hidn), (identity_FetchID _ _ Hidr).
      by apply (Hlast newer rn).
    + exists id, cfg. split; [|by rewrite <- Hreg].
      injection Hidr as _ _ Hv. by rewrite <- Hv.
Qed.

(** X12. Header resolution fails on a header that is the youngest of its
    collection and does not decode or names a comparator that is not
    registered.  [initRebuildLists] returns Ok only if every such header
    decodes and names a registered comparator; when the first header in
    the order is the offender, the status returned is the status of the
    decoder, or Abort for the comparator, and nothing has changed but the
    order of [linked_headers_], which is not cleared. *)
Theorem header_errors fuel st_in st0 :
  sort_linked_headers st_in = Done () st0 →
  (∀ st' i h hr,
     initRebuildLists fuel st_in = Done Status.Ok st' →
     linked_headers_ (rb st0) !! i = Some h →
     record_at st0 h = Some hr →
     (∀ newer rn, linked_headers_ (rb st0) !! S i = Some newer →
                  record_at st0 newer = Some rn → FetchID rn ≠ FetchID hr) →
     ∃ id cfg, DecodeSortedCollectionValue (Value hr) = (Status.Ok, id, cfg) ∧
               comparator_name cfg ∈ comparators_ (kv_engine_ st0)) ∧
  (∀ h rest hr,
     linked_headers_ (rb st0) = h :: rest →
     record_at st0 h = Some hr →
     (∀ newer, head rest = Some newer →
               ∃ rn, record_at st0 newer = Some rn ∧ FetchID rn ≠ FetchID hr) →
     let '(status, id, cfg) := DecodeSortedCollectionValue (Value hr) in
     (status ≠ Status.Ok → initRebuildLists fuel st_in = Done status st0) ∧
     (status = Status.Ok → comparator_name cfg ∉ comparators_ (kv_engine_ st0) →
        initRebuildLists fuel st_in = Done Status.Abort st0)).
Proof.
  intros Hsort. split.
  - intros st' i h hr Hinit Hi Hr Hlast. unfold initRebuildLists in Hinit.
    rewrite (bind_eq _ _ _ _ _ Hsort) in Hinit. cbv beta in Hinit.
    rewrite bind_gets in Hinit.
    apply bind_done_inv in Hinit as (s0 & st1 & Hloop & Hend).
    destruct (decide (s0 ≠ Status.Ok)) as [Hne|Heq].
    { injection Hend as -> _. done. }
    apply dec_stable in Heq as ->.
    by eapply initRebuildLists_loop_decodes.
  - intros h rest hr Hhs Hr Hnext.
    assert (Hbody : initRebuildLists_body fuel h (head rest) st0
                    = resolve_header fuel h st0).
    { unfold initRebuildLists_body. destruct (head rest) as [newer|]; [|done].
      destruct (Hnext newer eq_refl) as (rn & Hrn & Hid).
      rewrite (bind_eq _ _ _ _ _ (load_record_at _ _ _ Hr)). cbv beta.
      rewrite (bind_eq _ _ _ _ _ (load_record_at _ _ _ Hrn)). cbv beta.
      by rewrite decide_False. }
    pose proof (resolve_header_fails fuel h st0 hr Hr) as Hfails.
    destruct (DecodeSortedCollectionValue (Value hr)) as [[status id] cfg].
    assert (Hrun : ∀ status', status' ≠ Status.Ok →
              resolve_header fuel h st0 = Done (Some status') st0 →
              initRebuildLists fuel st_in = Done status' st0).
    { intros status' Hne Hres. unfold initRebuildLists.
      rewrite (bind_eq _ _ _ _ _ Hsort). cbv beta. rewrite bind_gets, Hhs.
      cbn [initRebuildLists_loop].
      rewrite <- Hbody in Hres.
      erewrite (bind_eq _ _ st0 status' st0);
        [|by rewrite (bind_eq _ _ _ _ _ Hres)].
      by rewrite decide_True. }
    destruct Hfails as [Hdecode Hcomparator]. split.
    + intros Hs. apply Hrun; [done|]. by apply Hdecode.
    + intros Hs Hc. apply Hrun; [done|]. by apply Hcomparator.
Qed.

End HeaderErrors.

(** * Header deduplication: the links that header resolution leaves *)

Section LinkFrames.
Context `{Engine}.

#[global] Instance memory_frame_preorder : PreOrder memory_frame.
Proof.
  split.
  - intros st. unfold memory_frame. done.
  - intros st1 st2 st3 H12 H23. unfold memory_frame in *. congruence.
Qed.
#[global] Instance links_frame_preorder : PreOrder links_frame.
Proof.
  split.
  - intros st. unfold links_frame. done.
  - intros st1 st2 st3 [H1 H2] [H3 H4]. split; intros q; [rewrite H3|rewrite H4]; auto.
Qed.

Lemma memory_frame_links st st' : memory_frame st st' → links_frame st st'.
Proof. unfold memory_frame, links_frame, next_at, prev_at, record_at. by intros ->. Qed.

End LinkFrames.

#[global] Hint Resolve memory_frame_links : frames.

Ltac frame_unfold ::=
  first [progress unfold engine_frame | progress unfold task_frame
        | progress unfold config_frame | progress unfold rebuild_frame
        | progress unfold grows | progress unfold inserts
        | progress unfold registry_frame | progress unfold memory_frame].
Ltac frame_modify ::=
  apply keeps_modify; intros ?; frame_unfold;
  cbn [rb kv_engine_ on_engine on_rebuilder set_thread_cache set_next_tid
       set_recovery_segments set_linked_headers set_rebuild_skiplits
       set_invalid_skiplists set_max_recovered_id
       checkpoint_ts segment_based_rebuild_ num_rebuild_threads_ next_tid_
       linked_headers_ rebuilder_thread_cache_ recovery_segments_
       rebuild_skiplits_ invalid_skiplists_ max_recovered_id_
       pmem set_dram set_skiplists set_next_addr set_rng_draws set_hash_table
       set_free_list set_this_thread_id];
  rewrite ?length_alter;
  first [done | split; [reflexivity|intros ? ?; by left]].

Ltac frame_step ::=
  lazymatch goal with
  | |- keeps _ (bind _ _) => apply keeps_bind; [apply _| |intros ?]
  | |- keeps _ (ret _) => apply keeps_ret; apply _
  | |- keeps _ (gets _) => apply keeps_gets; apply _
  | |- keeps _ (crash _) => apply keeps_crash; apply _
  | |- keeps links_frame (modify _) =>
      apply (keeps_mono memory_frame); [frame_modify|apply @memory_frame_links]
  | |- keeps _ (modify _) => frame_modify
  | |- keeps _ (kvdk_assert _) => apply keeps_kvdk_assert; [apply _|]
  | |- keeps _ (assert _) => apply keeps_assert; [apply _|]
  | |- keeps _ (andM _ _) => apply keeps_andM; [apply _| |]
  | |- keeps _ (orM _ _) => apply keeps_orM; [apply _| |]
  | |- keeps _ (async _) =>
      apply keeps_async; [apply _|intros; frame_unfold; done|]
  | |- keeps _ (if ?b then _ else _) => destruct b
  | |- keeps _ (match ?x with _ => _ end) => destruct x
  | |- keeps _ _ => frame_leaf
  end.

Section HeaderLinks.
Context `{Engine}.

Lemma keeps_memory_Skiplist_new p n i c b : keeps memory_frame (Skiplist_new p n i c b).
Proof. unfold Skiplist_new, SkiplistNode_NewNode, alloc_addr. frame. Qed.
Lemma keeps_memory_addUnlinkedRecord p : keeps memory_frame (addUnlinkedRecord p).
Proof. unfold addUnlinkedRecord. frame. Qed.
Lemma keeps_memory_addRecoverySegment n : keeps memory_frame (addRecoverySegment n).
Proof. unfold addRecoverySegment. frame. Qed.
Lemma keeps_memory_insertHashIndex k p t : keeps memory_frame (insertHashIndex k p t).
Proof. unfold insertHashIndex. frame. Qed.
#[local] Hint Resolve keeps_memory_Skiplist_new keeps_memory_addUnlinkedRecord
  keeps_memory_addRecoverySegment keeps_memory_insertHashIndex : keeps.

Lemma update_record_done p f st u st' :
  update_record p f st = Done u st' →
  ∃ r, record_at st p = Some r ∧ st' = on_engine (set_pmem <[p := f r]>) st.
Proof.
  intros Hu. unfold update_record, store, modify, bind in Hu.
  destruct (load p st) as [r st0|] eqn:Hl; [|done].
  apply load_done in Hl as (-> & Hp & Hr). injection Hu as _ <-.
  exists r. split; [|done]. unfold record_at. by rewrite decide_False.
Qed.

Lemma keeps_links_PersistOldVersion p v : keeps links_frame (PersistOldVersion p v).
Proof.
  intros st u st' Hu. apply update_record_done in Hu as (r & Hr & ->).
  pose proof (record_at_not_null _ _ _ Hr) as Hp.
  split; intros q; unfold next_at, prev_at; rewrite record_at_store by done;
    case_decide; subst; by rewrite ?Hr.
Qed.
#[local] Hint Resolve keeps_links_PersistOldVersion : keeps.

(** Without a checkpoint, the resolution of a header changes no link. *)
Lemma resolve_header_links fuel h st res st' :
  checkpoint_ts (rb st) = 0 →
  resolve_header fuel h st = Done res st' → links_frame st st'.
Proof.
  intros Hcp Hres.
  assert (Hl : ∃ hr, load h st = Done hr st).
  { unfold resolve_header in Hres. apply bind_done_inv in Hres as (hr & st0 & Hl & _).
    pose proof (load_state _ _ _ _ Hl) as ->. by exists hr. }
  destruct Hl as [hr Hl].
  destruct (DecodeSortedCollectionValue (Value hr)) as [[status id] cfg] eqn:Hdec.
  destruct (decide (status ≠ Status.Ok)) as [Hs|Hs].
  { unfold resolve_header in Hres. rewrite (bind_eq _ _ _ _ _ Hl) in Hres.
    cbv beta zeta in Hres. rewrite Hdec in Hres. rewrite decide_True in Hres by done.
    injection Hres as _ <-. reflexivity. }
  apply dec_stable in Hs as ->.
  destruct (decide (comparator_name cfg ∈ comparators_ (kv_engine_ st))) as [Hc|Hc].
  2:{ unfold resolve_header in Hres. rewrite (bind_eq _ _ _ _ _ Hl) in Hres.
      cbv beta zeta in Hres. rewrite Hdec in Hres. rewrite decide_False in Hres by naive_solver.
      unfold GetComparator in Hres. rewrite bind_gets in Hres.
      rewrite decide_False in Hres by done. injection Hres as _ <-. reflexivity. }
  set (st1 := on_rebuilder (set_max_recovered_id (λ m, N.max m id)) st).
  assert (Hr1 : record_at st1 h = Some hr).
  { apply load_done in Hl as (_ & Hp & Hr). unfold record_at. by rewrite decide_False. }
  assert (Hfind : findCheckpointVersion fuel h st1 = Done h st1).
  { rewrite (findCheckpointVersion_unfold _ _ _ _ Hr1). simpl. by rewrite Hcp. }
  rewrite (resolve_header_prefix _ _ _ _ _ _ _ Hl Hdec Hc Hfind) in Hres.
  cbv zeta in Hres. fold st1 in Hres.
  rewrite (decide_False (P := h ≠ h)) in Hres by naive_solver.
  transitivity st1; [by apply memory_frame_links|].
  revert Hres.
  match goal with |- ?m st1 = _ → _ => assert (Hk : keeps links_frame m) end.
  { unfold PersistOldVersion. frame. }
  apply Hk.
Qed.

(** What the break of an outdated header leaves. *)
Lemma break_outdated_header_done h newer st u st' :
  break_outdated_header h newer st = Done u st' →
  ∃ r, record_at st h = Some r ∧
       rebuilder_thread_cache_ (rb st) ≠ [] ∧
       st' = queue_unlinked h (on_engine (set_pmem <[h := with_prev newer r]>) st).
Proof.
  unfold break_outdated_header, PersistPrevNT, addr2offset. intros Hb.
  apply bind_done_inv in Hb as (? & st1 & H1 & Hb).
  assert (st1 = st) as ->.
  { revert H1. match goal with |- ?m st = _ → _ => assert (Hk : keeps eq m) by frame end.
    intros H1. symmetry. by eapply Hk. }
  apply bind_done_inv in Hb as (? & st2 & H2 & Hb).
  apply update_record_done in H2 as (r & Hr & ->).
  apply bind_done_inv in Hb as (? & st3 & H3 & Hb).
  match type of H3 with _ ?s = Done _ _ => assert (st3 = s) as -> end.
  { revert H3. match goal with |- ?m ?s = _ → _ => assert (Hk : keeps eq m) by frame end.
    intros H3. symmetry. by eapply Hk. }
  apply addUnlinkedRecord_done in Hb as [Hc ->].
  exists r. done.
Qed.

(** Without a checkpoint, one turn of the loop of [initRebuildLists] changes
    no [next] field and no [prev] field but that of its own header, which it
    sets to the successor when that carries the same collection ID. *)
Lemma initRebuildLists_body_links fuel h next_header st res st' :
  checkpoint_ts (rb st) = 0 →
  initRebuildLists_body fuel h next_header st = Done res st' →
  (∀ q, next_at st' q = next_at st q) ∧
  (∀ q, q ≠ h → prev_at st' q = prev_at st q) ∧
  (∀ newer r r', next_header = Some newer →
     record_at st h = Some r → record_at st newer = Some r' →
     FetchID r = FetchID r' → prev_at st' h = Some newer).
Proof.
  intros Hcp Hbody.
  assert (Hresolve : resolve_header fuel h st = Done res st' →
    (∀ q, next_at st' q = next_at st q) ∧ (∀ q, q ≠ h → prev_at st' q = prev_at st q)).
  { intros Hres. destruct (resolve_header_links _ _ _ _ _ Hcp Hres) as [Hn Hp].
    split; [done|]. intros q _. apply Hp. }
  unfold initRebuildLists_body in Hbody.
  destruct next_header as [newer|]; [|destruct (Hresolve Hbody); by split_and!].
  apply bind_done_inv in Hbody as (r & st0 & Hl & Hbody).
  pose proof (load_state _ _ _ _ Hl) as ->.
  apply bind_done_inv in Hbody as (r' & st0 & Hl' & Hbody).
  pose proof (load_state _ _ _ _ Hl') as ->.
  assert (Hr : record_at st h = Some r).
  { apply load_done in Hl as (_ & Hp & Hr). unfold record_at. by rewrite decide_False. }
  assert (Hr' : record_at st newer = Some r').
  { apply load_done in Hl' as (_ & Hp & Hr'). unfold record_at. by rewrite decide_False. }
  destruct (decide (FetchID r = FetchID r')) as [Hid|Hid].
  - apply bind_done_inv in Hbody as (? & st1 & Hbreak & Hret).
    injection Hret as _ <-.
    apply break_outdated_header_done in Hbreak as (r0 & Hr0 & _ & ->).
    pose proof (record_at_not_null _ _ _ Hr) as Hh.
    assert (Hat : ∀ q, record_at (queue_unlinked h
                     (on_engine (set_pmem <[h := with_prev newer r0]>) st)) q
                   = if decide (q = h) then Some (with_prev newer r0) else record_at st q).
    { intros q. rewrite (record_at_kv (on_engine (set_pmem <[h := with_prev newer r0]>) st))
        by done. by apply record_at_store. }
    split_and!.
    + intros q. unfold next_at. rewrite Hat. case_decide; [|done]. subst. by rewrite Hr0.
    + intros q Hq. unfold prev_at. rewrite Hat. by rewrite decide_False.
    + intros newer0 r1 r1' [= <-] _ _ _. unfold prev_at. rewrite Hat.
      by rewrite decide_True.
  - destruct (Hresolve Hbody) as [Hn Hp]. split_and!; [done..|].
    intros newer0 r1 r1' [= <-] Hr1 Hr1' Hsame. congruence.
Qed.

(** Without a checkpoint, the loop of [initRebuildLists] over distinct
    headers changes no [next] field, changes the [prev] field of no record
    that is not one of its headers, and leaves in the [prev] field of a
    header that is directly followed by one with the same collection ID the
    offset of that one. *)
Lemma initRebuildLists_loop_links fuel hs :
  ∀ st st', initRebuildLists_loop fuel hs st = Done Status.Ok st' →
    checkpoint_ts (rb st) = 0 → NoDup hs →
    (∀ q, next_at st' q = next_at st q) ∧
    (∀ q, q ∉ hs → prev_at st' q = prev_at st q) ∧
    (∀ i h newer rh rn,
       hs !! i = Some h → hs !! S i = Some newer →
       record_at st h = Some rh → record_at st newer = Some rn →
       FetchID rh = FetchID rn → prev_at st' h = Some newer).
Proof.
  induction hs as [|h0 rest IH]; intros st st' Hloop Hcp Hnodup.
  - injection Hloop as <-. split_and!; done.
  - cbn [initRebuildLists_loop] in Hloop.
    apply bind_done_inv in Hloop as (r0 & st1 & Hbody & Hrest).
    pose proof (preserves_initRebuildLists_body _ _ _ _ _ _ Hbody) as Hst1.
    destruct (keeps_initRebuildLists_body _ _ _ _ _ _ Hbody) as (Hcp1 & _).
    destruct (initRebuildLists_body_links _ _ _ _ _ _ Hcp Hbody) as (Hn1 & Hp1 & Hb1).
    destruct r0 as [s0|].
    { injection Hrest as -> _. by destruct (initRebuildLists_body_status _ _ _ _ _ _ Hbody). }
    apply NoDup_cons in Hnodup as [Hh0 Hnodup].
    destruct (IH _ _ Hrest) as (Hn & Hp & Hb); [congruence|done|].
    split_and!.
    + intros q. by rewrite Hn.
    + intros q Hq. apply not_elem_of_cons in Hq as [Hq0 Hq]. rewrite Hp by done. by apply Hp1.
    + intros i h newer rh rn Hi Hnew Hrh Hrn Hid.
      destruct i as [|i].
      * simpl in Hi, Hnew. injection Hi as ->.
        rewrite Hp by done. apply (Hb1 newer rh rn); [|done..].
        by destruct rest.
      * simpl in Hi, Hnew.
        destruct (record_at_stable _ _ _ _ Hst1 Hrh) as (rh' & Hrh' & Hidh).
        destruct (record_at_stable _ _ _ _ Hst1 Hrn) as (rn' & Hrn' & Hidn).
        eapply (Hb i h newer rh' rn'); [done..|congruence].
Qed.

Lemma initRebuildLists_links fuel st_in st0 st' i h newer r r_newer :
  sort_linked_headers st_in = Done () st0 →
  linked_headers_ (rb st0) !! i = Some h →
  linked_headers_ (rb st0) !! S i = Some newer →
  record_at st0 h = Some r → record_at st0 newer = Some r_newer →
  FetchID r_newer = FetchID r →
  checkpoint_ts (rb st_in) = 0 → NoDup (linked_headers_ (rb st_in)) →
  prev r = h → next r = h → CheckNextLinkage newer st0 = Done true st0 →
  initRebuildLists fuel st_in = Done Status.Ok st' →
  prev_at st' h = Some newer ∧ next_at st' h = Some h ∧
  CheckPrevLinkage h st' = Done false st' ∧
  CheckNextLinkage h st' = Done false st' ∧
  CheckLinkage h st' = Done false st'.
Proof.
  intros Hsort Hi Hnewer Hr Hrn Hid Hcp Hnodup Hprev Hnext Hlinked Hinit.
  destruct (sort_linked_headers_sorted _ _ Hsort) as (Hkv & Hperm & _ & _).
  destruct (keeps_sort_linked_headers _ _ _ Hsort) as (Hcp0 & _).
  assert (Hnodup0 : NoDup (linked_headers_ (rb st0))) by (by rewrite Hperm).
  assert (Hne : newer ≠ h).
  { intros ->. pose proof (NoDup_lookup _ _ _ _ Hnodup0 Hi Hnewer). lia. }
  assert (Hnn : next r_newer ≠ h).
  { intros Hnh. unfold CheckNextLinkage in Hlinked.
    rewrite (bind_eq _ _ _ _ _ (load_record_at _ _ _ Hrn)) in Hlinked.
    cbv beta in Hlinked. rewrite Hnh in Hlinked.
    rewrite (bind_eq _ _ _ _ _ (load_record_at _ _ _ Hr)) in Hlinked.
    unfold ret, addr2offset in Hlinked. injection Hlinked as Hb.
    apply bool_decide_eq_true_1 in Hb. congruence. }
  unfold initRebuildLists in Hinit.
  rewrite (bind_eq _ _ _ _ _ Hsort) in Hinit. cbv beta in Hinit.
  rewrite bind_gets in Hinit.
  apply bind_done_inv in Hinit as (s0 & st1 & Hloop & Hend).
  destruct (decide (s0 ≠ Status.Ok)) as [Hs|Hs].
  { injection Hend as -> _. done. }
  apply dec_stable in Hs as ->.
  rewrite bind_modify in Hend. injection Hend as <-.
  destruct (initRebuildLists_loop_links _ _ _ _ Hloop) as (Hn & _ & Hb);
    [congruence|done|].
  set (st' := on_rebuilder (set_linked_headers (λ _, [])) st1).
  assert (Hat : ∀ q, record_at st' q = record_at st1 q) by (intros q; by apply record_at_kv).
  assert (Hp1 : prev_at st1 h = Some newer).
  { apply (Hb i h newer r r_newer); [done..|congruence]. }
  assert (Hn1 : next_at st1 h = Some h).
  { rewrite Hn. unfold next_at. rewrite Hr. simpl. by rewrite Hnext. }
  assert (Hn2 : next_at st1 newer = Some (next r_newer)).
  { rewrite Hn. unfold next_at. by rewrite Hrn. }
  unfold prev_at, next_at in Hp1, Hn1, Hn2 |- *. rewrite !Hat.
  destruct (record_at st1 h) as [r1|] eqn:Hr1; [|done].
  destruct (record_at st1 newer) as [rn1|] eqn:Hrn1; [|done].
  simpl in Hp1, Hn1, Hn2. injection Hp1 as Hp1. injection Hn1 as Hn1. injection Hn2 as Hn2.
  assert (Hcprev : CheckPrevLinkage h st' = Done false st').
  { rewrite (CheckPrevLinkage_eval h st' r1 rn1); [|by rewrite Hat|by rewrite Hat, Hp1].
    rewrite bool_decide_eq_false_2; [done|]. unfold addr2offset. congruence. }
  assert (Hcnext : CheckNextLinkage h st' = Done false st').
  { rewrite (CheckNextLinkage_eval h st' r1 r1); [|by rewrite Hat|by rewrite Hat, Hn1].
    rewrite bool_decide_eq_false_2; [done|]. unfold addr2offset. congruence. }
  split_and!; [simpl; congruence|simpl; congruence|done|done|].
  unfold CheckLinkage, andM. by rewrite (bind_eq _ _ _ _ _ Hcprev).
Qed.


End HeaderLinks.

(** * Failures of the hash index: from [insertHashIndex] up to [Rebuild] *)

Section HashIndexFailures.
Context `{Engine}.

Lemma first_failure_None fs : first_failure fs = None → Forall (λ s, s = Status.Ok) fs.
Proof.
  unfold first_failure. induction fs as [|s fs IH]; [done|].
  rewrite filter_cons. destruct (decide (s ≠ Status.Ok)) as [Hs|Hs]; [done|].
  intros Hf. constructor; [by apply dec_stable|by apply IH].
Qed.

Lemma first_failure_Some fs s : first_failure fs = Some s → s ≠ Status.Ok.
Proof.
  unfold first_failure. intros Hf.
  assert (Hin : s ∈ filter (λ s, s ≠ Status.Ok) fs).
  { destruct (filter _ fs) as [|x l]; [done|]. injection Hf as ->. by left. }
  by apply list_elem_of_filter in Hin as [? _].
Qed.

(** A batched run returns Ok only if every task did. *)
Lemma run_in_batches_Ok tasks :
  ∀ i total fs st st',
    total = i + N.of_nat (length tasks) → (tasks = [] → fs = []) →
    run_in_batches tasks i total fs st = Done Status.Ok st' →
    Forall (λ s, s = Status.Ok) fs ∧ all_ok tasks st st'.
Proof.
  induction tasks as [|task tasks IH]; intros i total fs st st' Htotal Hfs Hrun.
  - rewrite Hfs by done. injection Hrun as <-. done.
  - cbn [run_in_batches] in Hrun. cbv zeta in Hrun.
    apply bind_done_inv in Hrun as (s0 & st1 & Htask & Hrun).
    rewrite bind_gets in Hrun.
    destruct (decide (num_rebuild_threads_ (rb st1) = 0)); [done|].
    destruct (bool_decide ((i + 1) `mod` num_rebuild_threads_ (rb st1) = 0)
              || bool_decide (i + 1 = total)) eqn:Hjoin.
    + destruct (first_failure (fs ++ [s0])) as [s1|] eqn:Hff.
      { injection Hrun as -> _. by apply first_failure_Some in Hff. }
      apply first_failure_None in Hff. apply Forall_app in Hff as [Hfs' Hs0].
      apply Forall_singleton in Hs0 as ->.
      destruct (IH (i + 1) total [] st1 st') as [_ Hall]; [simpl in Htotal; lia|done|done|].
      split; [done|]. simpl. eauto.
    + apply orb_false_iff in Hjoin as [_ Hlast]. apply bool_decide_eq_false_1 in Hlast.
      destruct (IH (i + 1) total (fs ++ [s0]) st1 st') as [Hall' Hall];
        [simpl in Htotal; lia| |done|].
      { intros ->. simpl in Htotal. lia. }
      apply Forall_app in Hall' as [Hfs' Hs0]. apply Forall_singleton in Hs0 as ->.
      split; [done|]. simpl. eauto.
Qed.

Lemma run_all_Ok tasks :
  ∀ st fs st', run_all tasks st = Done fs st' → first_failure fs = None →
               all_ok tasks st st'.
Proof.
  induction tasks as [|task tasks IH]; intros st fs st' Hrun Hff.
  - by injection Hrun as _ <-.
  - cbn [run_all] in Hrun.
    apply bind_done_inv in Hrun as (s0 & st1 & Htask & Hrun).
    apply bind_done_inv in Hrun as (fs0 & st2 & Hrest & Hrun).
    injection Hrun as <- <-.
    apply first_failure_None in Hff. apply Forall_cons in Hff as [-> Hff].
    simpl. exists st1. split; [done|]. eapply IH; [done|].
    unfold first_failure. clear -Hff. induction Hff as [|s fs Hs _ IH]; [done|].
    rewrite filter_cons. by rewrite decide_False by naive_solver.
Qed.

Lemma listBasedIndexRebuild_Ok fuel st st' :
  listBasedIndexRebuild fuel st = Done Status.Ok st' →
  all_ok ((λ e, rebuildSkiplistIndex fuel e.2) <$> map_to_list (rebuild_skiplits_ (rb st)))
         st st'.
Proof.
  unfold listBasedIndexRebuild. rewrite bind_gets. intros Hrun.
  eapply run_in_batches_Ok; [|done|exact Hrun].
  rewrite length_fmap, length_map_to_list. lia.
Qed.

Lemma segmentBasedIndexRebuild_Ok fuel st st' :
  segmentBasedIndexRebuild fuel st = Done Status.Ok st' →
  ∃ st1 st2,
    all_ok (replicate (N.to_nat (num_rebuild_threads_ (rb st))) (rebuild_segments_index fuel))
           st st1 ∧
    all_ok ((λ e, linkHighDramNodes fuel e.2) <$> map_to_list (rebuild_skiplits_ (rb st1)))
           st1 st2 ∧
    st' = on_rebuilder (set_recovery_segments (λ _, ∅)) st2.
Proof.
  unfold segmentBasedIndexRebuild. rewrite bind_gets. intros Hrun.
  apply bind_done_inv in Hrun as (fs & st1 & Hworkers & Hrun).
  destruct (first_failure fs) as [s1|] eqn:Hff.
  { injection Hrun as -> _. by apply first_failure_Some in Hff. }
  rewrite bind_gets in Hrun.
  apply bind_done_inv in Hrun as (s2 & st2 & Hlinks & Hrun).
  destruct (decide (s2 ≠ Status.Ok)) as [Hs2|Hs2].
  { injection Hrun as -> _. done. }
  apply dec_stable in Hs2 as ->. rewrite bind_modify in Hrun. injection Hrun as <-.
  exists st1, st2. split_and!; [by eapply run_all_Ok| |done].
  eapply run_in_batches_Ok; [|done|exact Hlinks].
  rewrite length_fmap, length_map_to_list. lia.
Qed.

Lemma initRebuildLists_loop_Ok fuel hs :
  ∀ st st', initRebuildLists_loop fuel hs st = Done Status.Ok st' → headers_ok fuel hs st st'.
Proof.
  induction hs as [|h rest IH]; intros st st' Hloop.
  - by injection Hloop as <-.
  - cbn [initRebuildLists_loop] in Hloop.
    apply bind_done_inv in Hloop as (r0 & st1 & Hbody & Hrest).
    destruct r0 as [s0|].
    { injection Hrest as -> _. by destruct (initRebuildLists_body_status _ _ _ _ _ _ Hbody). }
    simpl. eauto.
Qed.

Lemma initRebuildLists_headers_ok fuel st st' :
  initRebuildLists fuel st = Done Status.Ok st' →
  ∃ st0 st1,
    sort_linked_headers st = Done () st0 ∧
    headers_ok fuel (linked_headers_ (rb st0)) st0 st1 ∧
    st' = on_rebuilder (set_linked_headers (λ _, [])) st1.
Proof.
  unfold initRebuildLists. intros Hinit.
  apply bind_done_inv in Hinit as ([] & st0 & Hsort & Hinit). rewrite bind_gets in Hinit.
  apply bind_done_inv in Hinit as (s0 & st1 & Hloop & Hinit).
  destruct (decide (s0 ≠ Status.Ok)) as [Hs|Hs].
  { injection Hinit as -> _. done. }
  apply dec_stable in Hs as ->. rewrite bind_modify in Hinit. injection Hinit as <-.
  exists st0, st1. split_and!; [done| |done]. by apply initRebuildLists_loop_Ok.
Qed.

Lemma claim_segments_Ok fuel keys :
  ∀ st st', claim_segments fuel keys st = Done Status.Ok st' → segments_ok fuel keys st st'.
Proof.
  induction keys as [|key keys IH]; intros st st' Hc.
  - by injection Hc as <-.
  - cbn [claim_segments] in Hc. apply bind_done_inv in Hc as (r & st1 & H1 & Hc).
    destruct r as [status|].
    { injection Hc as -> <-. by apply claim_segment_done in H1 as [? _]. }
    simpl. eauto.
Qed.

Lemma rebuild_segments_index_Ok fuel st st' :
  rebuild_segments_index fuel st = Done Status.Ok st' →
  segments_ok fuel (map_to_list (recovery_segments_ (rb st))).*1 (with_thread_id st) st'.
Proof.
  unfold rebuild_segments_index. intros Hw.
  rewrite (bind_eq _ _ _ _ _ (assign_thread_id_eq st)) in Hw. rewrite bind_gets in Hw.
  by apply claim_segments_Ok.
Qed.

Lemma Rebuild_result fuel st res st' :
  Rebuild fuel st = Done res st' →
  (s res = Status.Ok →
     ∃ st1, initRebuildLists fuel st = Done Status.Ok st1 ∧
            (rebuild_skiplits_ (rb st1) ≠ ∅ →
               ∃ st2, index_rebuild fuel st1 = Done Status.Ok st2)) ∧
  (s res ≠ Status.Ok → res = mkRebuildResult (s res) 0 ∅).
Proof.
  unfold Rebuild. intros Hr.
  apply bind_done_inv in Hr as (s0 & st1 & Hinit & Hr). rewrite bind_gets in Hr.
  apply bind_done_inv in Hr as (s1 & st2 & Hindex & Hr).
  destruct (decide (s1 = Status.Ok)) as [->|Hs1].
  2:{ injection Hr as <- _. split; [done|]. done. }
  rewrite !bind_gets, bind_modify in Hr.
  apply bind_done_inv in Hr as (u & st3 & Hclean & Hr). injection Hr as <- <-.
  split; [intros _|done].
  destruct (bool_decide (s0 = Status.Ok)) eqn:Hs0; cbn [andb] in Hindex.
  - apply bool_decide_eq_true_1 in Hs0 as ->. exists st1. split; [done|].
    intros Hne. apply size_nonempty in Hne.
    destruct (bool_decide (0 < size (rebuild_skiplits_ (rb st1)))%nat) eqn:Hsz.
    + by exists st2.
    + by apply bool_decide_eq_false_1 in Hsz.
  - injection Hindex as -> _. by apply bool_decide_eq_false_1 in Hs0.
Qed.

Lemma swapped_in_run e v st st1 :
  swapped_in e v st st1 →
  (if decide (v ≠ e) then
     success ← Skiplist_Replace e v;
     kvdk_assert (ret success);;
     addUnlinkedRecord e
   else ret ()) st = Done () st1.
Proof.
  intros [[-> ->]|(Hne & success & st' & Hrep & Hok & Hcache & ->)].
  - by rewrite decide_False by naive_solver.
  - rewrite decide_True by done. rewrite (bind_eq _ _ _ _ _ Hrep). cbv beta.
    erewrite bind_eq with (st' := st'); last first.
    { apply kvdk_assert_true. intros Hd. by rewrite (Hok Hd). }
    by apply addUnlinkedRecord_eq.
Qed.

Lemma live_version v rv st :
  record_at st v = Some rv → GetRecordStatus rv ≠ RecordStatus.Outdated →
  orM (ret (bool_decide (v = kNullPMemOffset)))
      (r ← load v; ret (bool_decide (GetRecordStatus r = RecordStatus.Outdated))) st
  = Done false st.
Proof.
  intros Hrv Hlive. rewrite orM_ret.
  rewrite bool_decide_eq_false_2 by (by eapply record_at_not_null).
  rewrite (bind_eq _ _ _ _ _ (load_record_at _ _ _ Hrv)). unfold ret.
  by rewrite bool_decide_eq_false_2.
Qed.

(** The turn of the loop of [rebuildSkiplistIndex] at an element with a
    visible version, in a collection indexed by the hash table: a status
    other than Ok from [insertHashIndex] ends the loop at once. *)
Lemma rebuildSkiplistIndex_walk_aborts fuel s prevs q num st rq re hd v rv st1
    node st2 prevs' st3 status st4 :
  record_at st q = Some rq → record_at st (next rq) = Some re →
  HeaderRecord s st = Done hd st → next rq ≠ hd →
  findCheckpointVersion (S fuel) (next rq) st = Done v st →
  record_at st v = Some rv → GetRecordStatus rv ≠ RecordStatus.Outdated →
  swapped_in (next rq) v st st1 →
  Skiplist_NewNodeBuild v st1 = Done node st2 →
  (if decide (node ≠ nullptr) then
     nd ← load_node node; splice_node (seq 1 (Height nd)) node prevs
   else ret prevs) st2 = Done prevs' st3 →
  IndexWithHashtable s st3 = Done true st3 →
  (if decide (node ≠ nullptr)
   then insertHashIndex (Key re) node PointerType.SkiplistNode
   else insertHashIndex (Key re) v PointerType.DLRecord) st3 = Done status st4 →
  status ≠ Status.Ok →
  rebuildSkiplistIndex_walk (S fuel) s prevs q num st = Done (status, num + 1) st4.
Proof.
  intros Hq He Hhd Hne Hv Hrv Hlive Hswap Hnode Hsplice Hhash Hins Hs.
  cbn [rebuildSkiplistIndex_walk].
  rewrite (bind_eq _ _ _ _ _ (load_record_at _ _ _ Hq)). cbv beta zeta.
  rewrite (bind_eq _ _ _ _ _ (offset2addr_checked_mapped _ _ (mapped_of_record_at _ _ _ He))).
  cbv beta. rewrite (bind_eq _ _ _ _ _ Hhd). cbv beta.
  rewrite decide_False by done.
  rewrite (bind_eq _ _ _ _ _ (load_record_at _ _ _ He)). cbv beta zeta.
  rewrite (bind_eq _ _ _ _ _ Hv). cbv beta.
  rewrite (bind_eq _ _ _ _ _ (live_version _ _ _ Hrv Hlive)). cbv iota beta.
  rewrite (bind_eq _ _ _ _ _ (swapped_in_run _ _ _ _ Hswap)). cbv beta zeta.
  erewrite (bind_eq _ _ st1 () st1); last first.
  { apply assert_true. intros _. unfold ret.
    by rewrite bool_decide_eq_true_2 by (by eapply record_at_not_null). }
  rewrite (bind_eq _ _ _ _ _ Hnode). cbv beta.
  rewrite (bind_eq _ _ _ _ _ Hsplice). cbv beta.
  rewrite (bind_eq _ _ _ _ _ Hhash). cbv beta iota.
  rewrite (bind_eq _ _ _ _ _ Hins). cbv beta.
  by rewrite decide_True.
Qed.

(** The same turn of the loop of [rebuildSegmentIndex], at an element that
    does not start a segment. *)
Lemma rebuildSegmentIndex_walk_aborts fuel s cur q num st rq re hd v rv st1
    node st2 cur' st3 status st4 :
  record_at st q = Some rq → record_at st (next rq) = Some re →
  HeaderRecord s st = Done hd st → next rq ≠ hd →
  recovery_segments_ (rb st) !! next rq = None →
  findCheckpointVersion (S fuel) (next rq) st = Done v st →
  record_at st v = Some rv → GetRecordStatus rv ≠ RecordStatus.Outdated →
  swapped_in (next rq) v st st1 →
  Skiplist_NewNodeBuild v st1 = Done node st2 →
  (if decide (node ≠ nullptr) then
     RelaxedSetNext cur 1 node;; RelaxedSetNext node 1 nullptr;; ret node
   else ret cur) st2 = Done cur' st3 →
  (if decide (node ≠ nullptr)
   then insertHashIndex (Key re) node PointerType.SkiplistNode
   else insertHashIndex (Key re) v PointerType.DLRecord) st3 = Done status st4 →
  status ≠ Status.Ok →
  rebuildSegmentIndex_walk (S fuel) s true cur q num st = Done (status, num + 1) st4.
Proof.
  intros Hq He Hhd Hne Hseg Hv Hrv Hlive Hswap Hnode Hlink Hins Hs.
  cbn [rebuildSegmentIndex_walk].
  rewrite (bind_eq _ _ _ _ _ (load_record_at _ _ _ Hq)). cbv beta zeta.
  rewrite (bind_eq _ _ _ _ _ (offset2addr_checked_mapped _ _ (mapped_of_record_at _ _ _ He))).
  cbv beta. rewrite (bind_eq _ _ _ _ _ Hhd). cbv beta.
  rewrite decide_False by done.
  rewrite bind_gets. rewrite Hseg.
  rewrite (bind_eq _ _ _ _ _ (load_record_at _ _ _ He)). cbv beta zeta.
  rewrite (bind_eq _ _ _ _ _ Hv). cbv beta.
  rewrite (bind_eq _ _ _ _ _ (live_version _ _ _ Hrv Hlive)). cbv iota beta.
  rewrite (bind_eq _ _ _ _ _ (swapped_in_run _ _ _ _ Hswap)). cbv beta zeta.
  erewrite (bind_eq _ _ st1 () st1); last first.
  { apply assert_true. intros _. unfold ret.
    by rewrite bool_decide_eq_true_2 by (by eapply record_at_not_null). }
  rewrite (bind_eq _ _ _ _ _ Hnode). cbv beta.
  rewrite (bind_eq _ _ _ _ _ Hlink). cbv beta.
  rewrite (bind_eq _ _ _ _ _ Hins). cbv beta.
  by rewrite decide_True.
Qed.

(** The start node of a segment: a status other than Ok from
    [insertHashIndex] is what [rebuildSegmentIndex] returns. *)
Lemma rebuildSegmentIndex_start_aborts fuel start owner st node hd r status st1 :
  IndexWithHashtable owner st = Done true st →
  load_node start st = Done node st →
  HeaderRecord owner st = Done hd st → record node ≠ hd →
  record_at st (record node) = Some r →
  (0 < KVDK_DEBUG_LEVEL → GetRecordType r = RecordType.SortedElem) →
  insertHashIndex (Key r) start PointerType.SkiplistNode st = Done status st1 →
  status ≠ Status.Ok →
  rebuildSegmentIndex fuel start owner st = Done status st1.
Proof.
  intros Hhash Hnode Hhd Hne Hr Hty Hins Hs. unfold rebuildSegmentIndex.
  rewrite (bind_eq _ _ _ _ _ Hhash). cbv beta.
  rewrite (bind_eq _ _ _ _ _ Hnode). cbv beta.
  rewrite (bind_eq _ _ _ _ _ Hhd). cbv beta.
  rewrite decide_True by done.
  erewrite (bind_eq _ _ st (status, 1) st1); last first.
  { erewrite (bind_eq _ _ st () st); last first.
    { apply kvdk_assert_true. intros Hd.
      rewrite (bind_eq _ _ _ _ _ (load_record_at _ _ _ Hr)). unfold ret.
      by rewrite bool_decide_eq_true_2 by auto. }
    rewrite (bind_eq _ _ _ _ _ (load_record_at _ _ _ Hr)). cbv beta.
    by rewrite (bind_eq _ _ _ _ _ Hins). }
  cbv beta iota. by rewrite decide_True.
Qed.

(** The header of a collection to rebuild: a status other than Ok from
    [insertHashIndex] is what the turn of the loop of [initRebuildLists]
    returns. *)
Lemma resolve_header_aborts fuel h st hr id cfg v rv1 st2 rv sk st3 st5 st6 name
    status st7 :
  load h st = Done hr st →
  DecodeSortedCollectionValue (Value hr) = (Status.Ok, id, cfg) →
  comparator_name cfg ∈ comparators_ (kv_engine_ st) →
  let st1 := on_rebuilder (set_max_recovered_id (λ m, N.max m id)) st in
  findCheckpointVersion fuel h st1 = Done v st1 →
  record_at st1 v = Some rv1 → FetchID rv1 = id →
  swapped_in h v st1 st2 →
  record_at st2 v = Some rv →
  GetRecordStatus rv ≠ RecordStatus.Outdated → HasExpired rv = false →
  Skiplist_new v (Key hr) id (comparator_name cfg) (index_with_hashtable cfg) st2
    = Done sk st3 →
  (if segment_based_rebuild_ (rb st3) then hn ← HeaderNode sk; addRecoverySegment hn
   else ret ()) (on_rebuilder (set_rebuild_skiplits <[id := sk]>) st3) = Done () st5 →
  PersistOldVersion v kNullPMemOffset st5 = Done () st6 →
  Name sk st6 = Done name st6 →
  insertHashIndex name sk PointerType.Skiplist st6 = Done status st7 →
  status ≠ Status.Ok →
  resolve_header fuel h st = Done (Some status) st7.
Proof.
  intros Hl Hdec Hcmp st1 Hv Hrv1 Hid Hswap Hrv Hlive Hexp Hnew Hseg Hold Hname Hins Hs.
  rewrite (resolve_header_prefix _ _ _ _ _ _ _ Hl Hdec Hcmp Hv). cbv zeta.
  erewrite bind_eq with (a := false) (st' := st1); last first.
  { rewrite orM_ret. rewrite bool_decide_eq_false_2 by (by eapply record_at_not_null).
    rewrite (bind_eq _ _ _ _ _ (load_record_at _ _ _ Hrv1)). unfold ret.
    by rewrite bool_decide_eq_false_2 by naive_solver. }
  cbv beta iota. rewrite (bind_eq _ _ _ _ _ (swapped_in_run _ _ _ _ Hswap)). cbv beta.
  rewrite (bind_eq _ _ _ _ _ (load_record_at _ _ _ Hrv)). cbv beta zeta.
  rewrite Hexp. rewrite bool_decide_eq_false_2 by done. cbn [orb].
  rewrite (bind_eq _ _ _ _ _ Hnew). cbv beta.
  rewrite bind_modify. rewrite bind_gets.
  cbn [rb on_rebuilder set_rebuild_skiplits segment_based_rebuild_].
  rewrite (bind_eq _ _ _ _ _ Hseg). cbv beta.
  rewrite (bind_eq _ _ _ _ _ Hold). cbv beta.
  rewrite (bind_eq _ _ _ _ _ Hname). cbv beta.
  rewrite (bind_eq _ _ _ _ _ Hins). cbv beta.
  by rewrite decide_True.
Qed.

(** The functions between the loops and the joins return Ok only if what
    they call did. *)
Lemma rebuildSkiplistIndex_Ok fuel s st st' :
  rebuildSkiplistIndex fuel s st = Done Status.Ok st' →
  ∃ hn hd n st1,
    rebuildSkiplistIndex_walk fuel s
      (list_to_map ((λ i, (i, hn)) <$> seq 1 kMaxHeight)) hd 0 (with_thread_id st)
      = Done (Status.Ok, n) st1 ∧
    UpdateSize s n st1 = Done () st'.
Proof.
  unfold rebuildSkiplistIndex. intros Hr.
  rewrite (bind_eq _ _ _ _ _ (assign_thread_id_eq st)) in Hr.
  apply bind_done_inv in Hr as (hn & st0 & Hhn & Hr).
  pose proof (keeps_HeaderNode eq _ _ _ _ Hhn) as <-.
  apply bind_done_inv in Hr as (hd & st0 & Hhd & Hr).
  pose proof (keeps_HeaderRecord eq _ _ _ _ Hhd) as <-.
  apply bind_done_inv in Hr as ([status n] & st1 & Hwalk & Hr).
  destruct (decide (status ≠ Status.Ok)) as [Hs|Hs].
  { injection Hr as -> _. done. }
  apply dec_stable in Hs as ->.
  apply bind_done_inv in Hr as ([] & st2 & Hsize & Hr). injection Hr as <-.
  by exists hn, hd, n, st1.
Qed.

Lemma rebuildSegmentIndex_Ok fuel start owner st st' :
  rebuildSegmentIndex fuel start owner st = Done Status.Ok st' →
  ∃ b node hd st1 n0 st2 n st3,
    IndexWithHashtable owner st = Done b st ∧
    load_node start st = Done node st ∧
    HeaderRecord owner st = Done hd st ∧
    (record node ≠ hd → b = true →
       ∃ r, load (record node) st = Done r st ∧
            insertHashIndex (Key r) start PointerType.SkiplistNode st
              = Done Status.Ok st1) ∧
    rebuildSegmentIndex_walk fuel owner b start (record node) n0 st2
      = Done (Status.Ok, n) st3.
Proof.
  unfold rebuildSegmentIndex. intros Hr.
  apply bind_done_inv in Hr as (b & st0 & Hb & Hr).
  pose proof (keeps_IndexWithHashtable eq _ _ _ _ Hb) as <-.
  apply bind_done_inv in Hr as (node & st0 & Hnode & Hr).
  pose proof (load_node_state _ _ _ _ Hnode) as ->.
  apply bind_done_inv in Hr as (hd & st0 & Hhd & Hr).
  pose proof (keeps_HeaderRecord eq _ _ _ _ Hhd) as <-.
  apply bind_done_inv in Hr as ([status n0] & st1 & Hstart & Hr).
  destruct (decide (status ≠ Status.Ok)) as [Hs|Hs].
  { injection Hr as -> _. done. }
  apply dec_stable in Hs as ->.
  apply bind_done_inv in Hr as ([] & st2 & Hassert & Hr).
  apply bind_done_inv in Hr as ([] & st3 & Hold & Hr).
  apply bind_done_inv in Hr as ([status n] & st4 & Hwalk & Hr).
  destruct (decide (status ≠ Status.Ok)) as [Hs|Hs].
  { injection Hr as -> _. done. }
  apply dec_stable in Hs as ->.
  exists b, node, hd, st1, n0, st3, n, st4. split_and!; [done..| |done].
  intros Hne ->. rewrite decide_True in Hstart by done.
  apply bind_done_inv in Hstart as ([] & st5 & Hty & Hstart).
  assert (st5 = st) as ->.
  { revert Hty. match goal with |- ?m st = _ → _ => assert (Hk : keeps eq m) by frame end.
    intros Hty. symmetry. by eapply Hk. }
  apply bind_done_inv in Hstart as (r & st5 & Hl & Hstart).
  pose proof (load_state _ _ _ _ Hl) as ->.
  apply bind_done_inv in Hstart as (s0 & st5 & Hins & Hstart).
  injection Hstart as -> _ <-. by exists r.
Qed.

Lemma claim_segment_None fuel key st st' :
  claim_segment fuel key st = Done None st' →
  ∃ seg, recovery_segments_ (rb st) !! key = Some seg ∧
    (visited seg = false →
     let st1 := on_rebuilder (set_recovery_segments
                  <[key := mkSegment true (start_node seg)]>) st in
     ∀ start r skiplist,
       load_node (start_node seg) st1 = Done start st1 →
       load (record start) st1 = Done r st1 →
       rebuild_skiplits_ (rb st1) !! FetchID r = Some skiplist →
       rebuildSegmentIndex fuel (start_node seg) skiplist st1 = Done Status.Ok st').
Proof.
  unfold claim_segment. rewrite bind_gets. intros Hc.
  destruct (recovery_segments_ (rb st) !! key) as [seg|] eqn:Hkey; [|done].
  exists seg. split; [done|]. intros Hv. cbv zeta.
  set (st1 := on_rebuilder (set_recovery_segments
                <[key := mkSegment true (start_node seg)]>) st).
  intros start r skiplist Hstart Hr Hsk.
  rewrite Hv in Hc. rewrite bind_modify in Hc. fold st1 in Hc.
  rewrite (bind_eq _ _ _ _ _ Hstart) in Hc. cbv beta in Hc.
  rewrite (bind_eq _ _ _ _ _ Hr) in Hc. cbv beta in Hc.
  rewrite bind_gets in Hc. rewrite Hsk in Hc.
  apply bind_done_inv in Hc as (s0 & st2 & Hrebuild & Hc).
  destruct (decide (s0 ≠ Status.Ok)) as [Hs|Hs]; [done|].
  apply dec_stable in Hs as ->. by injection Hc as <-.
Qed.


End HashIndexFailures.

(** ** The further properties at concrete inputs *)

Lemma VHashGroup_Create_Get_witness :
  let g := VHashGroup.mk (B := N * list N) ∅ (0, []) in
  VHashGroup.Get "a" (VHashGroup.Create "a" g).2 = 1 ∧
  VHashGroup.Create "a" (VHashGroup.Create "a" g).2
  = (false, (VHashGroup.Create "a" g).2).
Proof.
  intros g. split.
  - destruct (VHashGroup_Create_Get "a" g) as (_ & _ & Hnew & _).
    exact (proj1 (Hnew eq_refl)).
  - destruct (VHashGroup_Create_Get "a" (VHashGroup.Create "a" g).2)
      as (Hfst & Hkeep & _).
    specialize (Hkeep ltac:(vm_compute; discriminate)).
    rewrite (surjective_pairing (VHashGroup.Create "a" (VHashGroup.Create "a" g).2)).
    rewrite Hfst, Hkeep. reflexivity.
Defined.

Lemma VHashGroup_Destroy_Get_witness :
  let g := VHashGroup.mk (B := N * list N) {["a" := 7]} (7, []) in
  VHashGroup.vhb (VHashGroup.Destroy "a" g).2 = (7, [7]) ∧
  (VHashGroup.Destroy "b" g).2 = g.
Proof.
  intros g. split.
  - destruct (VHashGroup_Destroy_Get "a" g) as (_ & _ & Hrecycle & _).
    exact (Hrecycle ltac:(vm_compute; discriminate)).
  - destruct (VHashGroup_Destroy_Get "b" g) as (_ & Hkeep & _).
    exact (Hkeep eq_refl).
Defined.

Lemma VHashGroup_Create_Destroy_witness :
  let g := VHashGroup.mk (B := N * list N) {["b" := 3]} (3, []) in
  VHashGroup.Get "b" (VHashGroup.Destroy "a" (VHashGroup.Create "a" g).2).2
  = VHashGroup.Get "b" g.
Proof.
  intros g.
  assert (Hbuilt : (VHashGroup.NewVHash (VHashGroup.vhb g) "a").1 ≠ nullptr)
    by discriminate.
  destruct (VHashGroup_Create_Destroy "a" g eq_refl Hbuilt) as (_ & _ & _ & Hget & _).
  exact (Hget "b").
Defined.

Lemma findCheckpointVersion_sound_witness :
  ∃ n input r,
    record_at (H := debug_engine 2) (version_state true) 200 = Some input ∧
    300 = ancestor (H := debug_engine 2) (version_state true) 200 n ∧
    record_at (H := debug_engine 2) (version_state true) 300 = Some r ∧
    GetTimestamp r ≤ 100 ∧
    FetchID (H := debug_engine 2) r = FetchID (H := debug_engine 2) input.
Proof.
  assert (Hrun : findCheckpointVersion (H := debug_engine 2) 5 200 (version_state true)
                 = Done 300 (version_state true)) by (vm_compute; reflexivity).
  destruct (findCheckpointVersion_sound (H := debug_engine 2) 5 200 _ _ _ Hrun)
    as (_ & _ & Hversion).
  apply Hversion; [reflexivity|discriminate].
Defined.

Lemma findCheckpointVersion_idempotent_witness :
  findCheckpointVersion (H := debug_engine 2) 1 300 (version_state true)
  = Done 300 (version_state true).
Proof.
  assert (Hrun : findCheckpointVersion (H := debug_engine 2) 5 200 (version_state true)
                 = Done 300 (version_state true)) by (vm_compute; reflexivity).
  apply (findCheckpointVersion_idempotent (H := debug_engine 2) 5 0 200 _ _ _ Hrun).
  discriminate.
Defined.

Lemma Rebuild_without_threads_witness :
  ∃ why, Rebuild (H := debug_engine 2) 8 (scanned_state false 0) = Crash why.
Proof.
  assert (Hinit : initRebuildLists (H := debug_engine 2) 8 (scanned_state false 0)
                  = Done Status.Ok (resolved_state false 0)) by (vm_compute; reflexivity).
  destruct (Rebuild_without_threads (H := debug_engine 2) 8 (scanned_state false 0)
              (resolved_state false 0) eq_refl Hinit) as [Hcrash _].
  apply Hcrash. intros Hempty.
  apply (f_equal (λ m, m !! 49)) in Hempty. vm_compute in Hempty. discriminate.
Defined.

Lemma Rebuild_failure_witness :
  let st1 := after (initRebuildLists (H := debug_engine 2) 8) occupied_state in
  let st2 := after (listBasedIndexRebuild (H := debug_engine 2) 8) st1 in
  Rebuild (H := debug_engine 2) 8 undecodable_state
  = Done (mkRebuildResult Status.Abort 0 ∅) undecodable_state ∧
  Rebuild (H := debug_engine 2) 8 occupied_state
  = Done (mkRebuildResult Status.Abort 0 ∅) st2 ∧
  rebuild_skiplits_ (rb st2) = {[49 := 2]}.
Proof.
  intros st1 st2.
  destruct (Rebuild_failure (H := debug_engine 2) 8 undecodable_state) as [Hinit _].
  destruct (Rebuild_failure (H := debug_engine 2) 8 occupied_state) as [_ Hindex].
  assert (H1 : initRebuildLists (H := debug_engine 2) 8 occupied_state
               = Done Status.Ok st1) by (vm_compute; reflexivity).
  assert (H2 : (if segment_based_rebuild_ (rb st1)
                then segmentBasedIndexRebuild (H := debug_engine 2) 8
                else listBasedIndexRebuild (H := debug_engine 2) 8) st1
               = Done Status.Abort st2) by (vm_compute; reflexivity).
  assert (Hne : rebuild_skiplits_ (rb st1) ≠ ∅).
  { intros Hempty. apply (f_equal (λ m, m !! 49)) in Hempty.
    vm_compute in Hempty. discriminate. }
  destruct (Hindex st1 Status.Abort st2 H1 Hne H2 ltac:(discriminate))
    as (Hrun & Hkept & _).
  split; [apply Hinit; [vm_compute; reflexivity|discriminate]|].
  split; [exact Hrun|].
  rewrite Hkept. vm_compute. reflexivity.
Defined.

Lemma Rebuild_success_witness :
  let st := scanned_state false 1 in
  let st' := after (Rebuild (H := debug_engine 2) 8) st in
  rebuild_skiplits_ (rb st') = ∅ ∧
  invalid_skiplists_ (rb st') = ∅ ∧
  linked_headers_ (rb st') = [] ∧
  Forall (λ c, unlinked_records c = []) (rebuilder_thread_cache_ (rb st')).
Proof.
  intros st st'.
  assert (Hrun : Rebuild (H := debug_engine 2) 8 st
                 = Done (mkRebuildResult Status.Ok 49 {[49 := 2]}) st')
    by (vm_compute; reflexivity).
  destruct (Rebuild_success (H := debug_engine 2) 8 _ _ _ Hrun eq_refl)
    as (st1 & _ & _ & _ & Hrebuild & Hinvalid & Hheaders & Hqueues).
  exact (conj Hrebuild (conj Hinvalid (conj Hheaders Hqueues))).
Defined.

Lemma Rebuild_max_id_witness :
  let st := scanned_state false 1 in
  Rebuild (H := debug_engine 2) 8 st
  = Done (mkRebuildResult Status.Ok 49 {[49 := 2]})
         (after (Rebuild (H := debug_engine 2) 8) st) ∧
  49 ≤ max_id (mkRebuildResult Status.Ok 49 {[49 := 2]}).
Proof.
  intros st. subst st.
  assert (Hrun : Rebuild (H := debug_engine 2) 8 (scanned_state false 1)
                 = Done (mkRebuildResult Status.Ok 49 {[49 := 2]})
                        (after (Rebuild (H := debug_engine 2) 8) (scanned_state false 1)))
    by (vm_compute; reflexivity).
  assert (Hbounded : ids_bounded (scanned_state false 1)).
  { intros k Hk. vm_compute in Hk. destruct Hk as [x Hk]. discriminate. }
  destruct (Rebuild_max_id (H := debug_engine 2) 8 _ _ _ Hbounded Hrun eq_refl)
    as [_ Hids].
  split; [exact Hrun|]. apply Hids. by eexists.
Defined.

Lemma segments_claimed_once_witness :
  let st1 := after (rebuild_segments_index (H := debug_engine 2) 8) (resolved_state true 1) in
  rebuild_segments_index (H := debug_engine 2) 8 st1 = Done Status.Ok (with_thread_id st1).
Proof.
  intros st1.
  assert (Hrun : rebuild_segments_index (H := debug_engine 2) 8 (resolved_state true 1)
                 = Done Status.Ok st1) by (vm_compute; reflexivity).
  destruct (segments_claimed_once (H := debug_engine 2) 8 8 _ _ Hrun) as [_ Hagain].
  exact Hagain.
Defined.

Lemma AddElement_nominates_witness :
  let st := after (AddElement (H := debug_engine 2) 8 200)
                  (fresh_state tombstone_records 0 true 1) in
  let st' := after (AddElement (H := debug_engine 2) 8 300) st in
  ∃ start height,
    recovery_segments_ (rb st') !! 300 = Some (mkSegment false start) ∧
    start ≠ nullptr ∧
    dram (kv_engine_ st') !! start = Some (mkNode 300 height ∅).
Proof.
  intros st st'.
  assert (Hrepair : CheckAndRepairLinkage (H := debug_engine 2) 300 st = Done true st)
    by (vm_compute; reflexivity).
  assert (Hload : load (H := debug_engine 2) 300 st
                  = Done (elem RecordStatus.Outdated "1b" 12 200 400 null) st)
    by (vm_compute; reflexivity).
  assert (Hadd : AddElement (H := debug_engine 2) 8 300 st = Done Status.Ok st')
    by (vm_compute; reflexivity).
  destruct (AddElement_nominates (H := debug_engine 2) 8 300 st st _ _ st'
              Hrepair Hload eq_refl Hadd) as (_ & _ & _ & _ & Hstart).
  specialize (Hstart eq_refl eq_refl eq_refl).
  exact Hstart.
Defined.

Lemma header_errors_witness :
  initRebuildLists (H := debug_engine 2) 8 undecodable_state
  = Done Status.Abort undecodable_state.
Proof.
  assert (Hsort : sort_linked_headers (H := debug_engine 2) undecodable_state
                  = Done () undecodable_state) by (vm_compute; reflexivity).
  destruct (header_errors (H := debug_engine 2) 8 _ _ Hsort) as [_ Hfirst].
  specialize (Hfirst 100 [] (header "" 10 100 100 null) eq_refl eq_refl).
  simpl in Hfirst. destruct Hfirst as [Hdecode _]; [discriminate|].
  apply Hdecode. discriminate.
Defined.

(** ** Header deduplication at concrete inputs *)



(** ** Failures of the hash index at concrete inputs *)

